(** * hackernews-mcp: comment-tree reconstruction and partial-failure merge

    A shallow embedding of the Python sources

      - [parse_hn_comments.py]  (record extraction, tree builder, printers)
      - [firecrawl.py]          (article scrape client)
      - [cli.py]                (command line surface)
      - [server.py]             (tool-invocation boundary)

    together with the properties of the design document that can be stated
    over it.

    Modelling conventions.

    - Python [int] is [Z]; [//] is [Z.div] (both round towards minus
      infinity for a positive divisor); a slice [l[:k]] is [py_slice_to],
      with Python's treatment of a negative bound.
    - Python [str] is [string].
    - The comment dictionaries built by [build_nested_structure] are
      mutable objects shared between [all_comments], [comment_stack] and the
      [replies] lists of their parents.  They live in an explicit object
      store ([heap]); a reference is the allocation index of the object.
      The value handed to the callers is the read-out of that store
      ([to_dict]), a finite tree.
    - A raised exception is the [Raised] case of [result].
    - Markup queries (BeautifulSoup), HTTP transport and the environment are
      collaborators: a comment row is the record of what the queries of the
      source return on it, and the two network operations are functions of a
      [world]. *)

From stdpp Require Import base strings numbers pretty option list sorting gmap.

Set Warnings "-register-all,-clear-no-such-hyp".

Open Scope Z_scope.

(** ** Exceptions and results *)

(** The exception classes the sources raise or catch.  [FirecrawlError]
    stands for the base class and its three subclasses (the handlers only
    ever test for the base class); [RequestException] is
    [requests.RequestException]; [OtherException] is any other subclass of
    [Exception]. *)
Inductive exception : Type :=
  | ValueError (msg : string)
  | FirecrawlError (msg : string)
  | RequestException (msg : string)
  | OtherException (msg : string).

(** [str(e)] *)
Definition str_of_exception (e : exception) : string :=
  match e with
  | ValueError m | FirecrawlError m | RequestException m | OtherException m => m
  end.

Inductive result (A : Type) : Type :=
  | Returned (a : A)
  | Raised (e : exception).
Arguments Returned {A} a.
Arguments Raised {A} e.

Definition rbind {A B} (m : result A) (k : A → result B) : result B :=
  match m with
  | Returned a => k a
  | Raised e => Raised e
  end.

Notation "'do' x <- m ; k" := (rbind m (λ x, k))
  (at level 10, x name, m at level 100, k at level 200).

(** ** Data model *)

(** The scalar entries of a comment dictionary
    ([id], [author], [time], [text], [indent_level]). *)
Record comment_fields : Type := CommentFields {
  comment_id : string;
  author : string;
  time : string;
  text : string;
  indent_level : Z
}.

(** A reference to a comment dictionary in the object store. *)
Abbreviation ref := nat (only parsing).

(** A comment dictionary as the builder sees it: its scalar entries and the
    list object under ['replies'], which holds references. *)
Record comment : Type := Comment {
  fields : comment_fields;
  replies : list ref
}.

Abbreviation heap := (list comment) (only parsing).

(** A comment dictionary as a caller sees it once the builder has returned:
    the nested value. *)
Inductive comment_dict : Type :=
  | CommentDict (c : comment_fields) (kids : list comment_dict).

Definition dict_fields (d : comment_dict) : comment_fields :=
  match d with CommentDict c _ => c end.

Definition dict_replies (d : comment_dict) : list comment_dict :=
  match d with CommentDict _ kids => kids end.

(** ** The comment rows of the thread document *)

(** The [width] attribute of the image inside [td.ind]:
    - [NoWidth]: there is no [td.ind], no [img] in it, or the attribute is
      absent or empty (all the cases in which the source leaves
      [indent_level = 0]);
    - [Width w]: the attribute is an integer literal of value [w];
    - [BadWidth e]: the attribute is not an integer literal, [int] raises
      [ValueError e]. *)
Inductive width_attr : Type :=
  | NoWidth
  | Width (w : Z)
  | BadWidth (e : string).

(** [span.age]: its [title] attribute, when present, and its text. *)
Record age_element : Type := AgeElement {
  age_title : option string;
  age_text : string
}.

(** One [tr.athing.comtr] row, as the queries of the source see it.
    [commtext] is the text of [div.commtext] after the two rewritings of the
    source (links shown by their target, reply links removed) and
    [get_text(separator='\n', strip=True)]; [None] when the row has no such
    container.  The rewritings change the text container in place.  The
    rows are those of a page on which a text container holds none of the
    elements the other queries look for (indentation cell, user link, age
    element) and no other row, as on the pages of the site: there every
    query has the same answer before and after the rewritings, in whichever
    loop it is made. *)
Record row : Type := Row {
  row_id : option string;
  ind_width : width_attr;
  hnuser : option string;
  age : option age_element;
  commtext : option string
}.

(** [int(indent_img.get('width', 0)) // 40], or 0 without a marker. *)
Definition indent_of_row (r : row) : result Z :=
  match ind_width r with
  | NoWidth => Returned 0
  | Width w => Returned (w `div` 40)
  | BadWidth e => Raised (ValueError e)
  end.

Definition author_of_row (r : row) : string :=
  match hnuser r with
  | Some a => a
  | None => "[deleted]"
  end.

Definition time_of_row (r : row) : string :=
  match age r with
  | Some a => default (age_text a) (age_title a)
  | None => "N/A"
  end.

Definition text_of_row (r : row) : string :=
  match commtext r with
  | Some t => t
  | None => "[deleted]"
  end.

(** The part of the loop body of [build_nested_structure] that reads the
    row (up to the creation of the [comment] dictionary). *)
Definition comment_of_row (r : row) : result comment_fields :=
  do lvl <- indent_of_row r;
  Returned {| comment_id := default "" (row_id r);
              author := author_of_row r;
              time := time_of_row r;
              text := text_of_row r;
              indent_level := lvl |}.

(** ** Tree builder *)

(** [l[:k]] *)
Definition py_slice_to {A} (l : list A) (k : Z) : list A :=
  if decide (0 ≤ k) then take (Z.to_nat k) l
  else take (length l - Z.to_nat (- k))%nat l.

(** The state of the loop of [build_nested_structure]. *)
Record builder : Type := Builder {
  store : heap;
  all_comments : list ref;
  comment_stack : list ref
}.

Definition builder_init : builder :=
  {| store := []; all_comments := []; comment_stack := [] |}.

(** [parent['replies'].append(comment)] *)
Definition append_reply (r : ref) (c : comment) : comment :=
  {| fields := fields c; replies := replies c ++ [r] |}.

(** The part of the loop body that places the new dictionary: the
    dictionary is allocated, the stack is cut to the indent level, and the
    dictionary becomes a root, a reply of the top of the stack, or (when
    the cut stack is empty) is referenced by nothing. *)
Definition place (st : builder) (c : comment_fields) : builder :=
  let r := length (store st) in
  let h := store st ++ [ {| fields := c; replies := [] |} ] in
  let stack := py_slice_to (comment_stack st) (indent_level c) in
  if decide (indent_level c = 0) then
    {| store := h; all_comments := all_comments st ++ [r]; comment_stack := [r] |}
  else
    match last stack with
    | Some parent =>
        {| store := alter (append_reply r) parent h;
           all_comments := all_comments st;
           comment_stack := stack ++ [r] |}
    | None =>
        {| store := h; all_comments := all_comments st; comment_stack := stack |}
    end.

(** The loop of [build_nested_structure]. *)
Fixpoint build_loop (rows : list row) (st : builder) : result builder :=
  match rows with
  | [] => Returned st
  | r :: rest =>
      do c <- comment_of_row r;
      build_loop rest (place st c)
  end.

(** The nested value of the dictionary at [r].  The recursion follows the
    references, so it is bounded by [fuel]; [None] is a dangling reference or
    exhausted fuel ([read_forest_build] shows neither happens on the stores the
    builder makes). *)
Fixpoint to_dict (fuel : nat) (h : heap) (r : ref) : option comment_dict :=
  match fuel with
  | O => None
  | S n =>
      c ← h !! r;
      kids ← mapM (to_dict n h) (replies c);
      Some (CommentDict (fields c) kids)
  end.

Definition read_forest (st : builder) : option (list comment_dict) :=
  mapM (to_dict (length (store st)) (store st)) (all_comments st).

(** The value of [all_comments] when the builder returns. *)
Definition forest_of (st : builder) : list comment_dict :=
  default [] (read_forest st).

Definition build_nested_structure (rows : list row) : result (list comment_dict) :=
  do st <- build_loop rows builder_init;
  Returned (forest_of st).

(** The tree builder proper, on extracted records. *)
Definition build_records (recs : list comment_fields) : builder :=
  foldl place builder_init recs.

Definition forest (recs : list comment_fields) : list comment_dict :=
  forest_of (build_records recs).

(** *** The forest with input positions

    The same read-out, every node keeping the reference of its dictionary.
    The builder allocates one dictionary per record, in input order, so the
    reference is the position of the record in the input sequence. *)
Inductive located : Type :=
  | Located (pos : ref) (c : comment_fields) (kids : list located).

Definition loc_pos (t : located) : ref :=
  match t with Located p _ _ => p end.

Definition loc_fields (t : located) : comment_fields :=
  match t with Located _ c _ => c end.

Definition loc_kids (t : located) : list located :=
  match t with Located _ _ kids => kids end.

Fixpoint erase (t : located) : comment_dict :=
  match t with
  | Located _ c kids => CommentDict c (map erase kids)
  end.

Fixpoint locate (fuel : nat) (h : heap) (r : ref) : option located :=
  match fuel with
  | O => None
  | S n =>
      c ← h !! r;
      kids ← mapM (locate n h) (replies c);
      Some (Located r (fields c) kids)
  end.

Definition locate_forest (st : builder) : option (list located) :=
  mapM (locate (length (store st)) (store st)) (all_comments st).

Definition located_forest (recs : list comment_fields) : list located :=
  default [] (locate_forest (build_records recs)).

(** Number of dictionaries in a nested value, the node itself included. *)
Fixpoint dict_size (d : comment_dict) : nat :=
  match d with
  | CommentDict _ kids => S (foldr (λ k n, dict_size k + n)%nat 0%nat kids)
  end.

Definition forest_size (f : list comment_dict) : nat :=
  foldr (λ k n, dict_size k + n)%nat 0%nat f.

(** Pre-order list of the nodes of a located forest: for every node its
    level below the top of the forest, its position, its record, and the
    positions of its replies in the order of the [replies] list. *)
Record node_info : Type := NodeInfo {
  ni_level : nat;
  ni_pos : ref;
  ni_fields : comment_fields;
  ni_kids : list ref
}.

Fixpoint loc_nodes (lvl : nat) (t : located) : list node_info :=
  match t with
  | Located p c kids =>
      NodeInfo lvl p c (map loc_pos kids) :: flat_map (loc_nodes (S lvl)) kids
  end.

Definition forest_nodes (f : list located) : list node_info :=
  flat_map (loc_nodes 0) f.

(** *** Depth sequences

    [stepwise prev recs]: every depth is non-negative and exceeds the depth
    before it by at most one, [prev] being the depth before the first
    record.  [stepwise (-1) recs] moreover makes the first depth 0. *)
Fixpoint stepwise (prev : Z) (recs : list comment_fields) : Prop :=
  match recs with
  | [] => True
  | c :: rest => (0 ≤ indent_level c ≤ prev + 1) ∧ stepwise (indent_level c) rest
  end.

(** *** The tree invariant of the data model

    [depth_invariant d]: below [d], every reply has the depth of its parent
    plus one.  [forest_invariant f]: moreover the roots have depth 0. *)
Fixpoint depth_invariant (d : comment_dict) : bool :=
  match d with
  | CommentDict c kids =>
      forallb (λ k, bool_decide (indent_level (dict_fields k) = indent_level c + 1)
                    && depth_invariant k) kids
  end.

Definition forest_invariant (f : list comment_dict) : bool :=
  forallb (λ d, bool_decide (indent_level (dict_fields d) = 0)
                && depth_invariant d) f.

(** The records of the rows, when every row can be read. *)
Fixpoint extract_records (rows : list row) : result (list comment_fields) :=
  match rows with
  | [] => Returned []
  | r :: rest =>
      do c <- comment_of_row r;
      do cs <- extract_records rest;
      Returned (c :: cs)
  end.

(** ** Python string operations

    Strings are sequences of bytes; on ASCII text the operations below are
    the ones of Python's [str]. *)

Definition newline : string := String (Ascii.ascii_of_nat 10) "".

(** [sub in s] *)
Fixpoint py_in (sub s : string) : bool :=
  String.prefix sub s ||
  match s with
  | EmptyString => false
  | String _ s' => py_in sub s'
  end.

(** The first piece of a non-empty list of pieces gets one more character. *)
Definition cons_head (c : Ascii.ascii) (pieces : list string) : list string :=
  match pieces with
  | [] => [String c ""]
  | p :: ps => String c p :: ps
  end.

(** [s.split(sep)] for a non-empty [sep]; [skip] counts the characters of a
    separator just found that are still to be passed over. *)
Fixpoint py_split_from (sep : string) (skip : nat) (s : string) : list string :=
  match s with
  | EmptyString => [""]
  | String c s' =>
      match skip with
      | S k => py_split_from sep k s'
      | O =>
          if String.prefix sep s
          then "" :: py_split_from sep (String.length sep - 1) s'
          else cons_head c (py_split_from sep 0 s')
      end
  end.

Definition py_split (sep s : string) : list string := py_split_from sep 0 s.

(** [sep.join(pieces)] *)
Definition py_join (sep : string) (pieces : list string) : string :=
  String.concat sep pieces.

(** [s * n] *)
Fixpoint py_repeat (s : string) (n : nat) : string :=
  match n with
  | O => ""
  | S k => s +:+ py_repeat s k
  end.

(** The ASCII characters [str.strip()] removes. *)
Definition is_space (c : Ascii.ascii) : bool :=
  let n := Ascii.nat_of_ascii c in
  ((9 <=? n) && (n <=? 13) || (28 <=? n) && (n <=? 32))%nat.

Fixpoint py_lstrip (s : string) : string :=
  match s with
  | EmptyString => ""
  | String c s' => if is_space c then py_lstrip s' else s
  end.

Fixpoint py_rstrip (s : string) : string :=
  match s with
  | EmptyString => ""
  | String c s' =>
      match py_rstrip s' with
      | EmptyString => if is_space c then "" else String c ""
      | r => String c r
      end
  end.

(** [s.strip()] for a string of ASCII characters.  On other strings
    Python removes the other Unicode white space as well. *)
Definition py_strip (s : string) : string := py_rstrip (py_lstrip s).

Definition is_digit (c : Ascii.ascii) : bool :=
  let n := Ascii.nat_of_ascii c in ((48 <=? n) && (n <=? 57))%nat.

Fixpoint all_digits (s : string) : bool :=
  match s with
  | EmptyString => true
  | String c s' => is_digit c && all_digits s'
  end.

(** [s.isdigit()] for a string of ASCII characters.  On other strings
    Python accepts the other Unicode digits as well. *)
Definition py_isdigit (s : string) : bool :=
  match s with
  | EmptyString => false
  | _ => all_digits s
  end.

(** Truth value of a string. *)
Definition py_truthy (s : string) : bool :=
  match s with
  | EmptyString => false
  | _ => true
  end.

(** Truth value of [d.get(key)] for a string-valued entry: [None] and the
    empty string are false. *)
Definition get_truthy (v : option string) : bool :=
  match v with
  | Some s => py_truthy s
  | None => false
  end.

(** ** Story metadata and the parsed discussion *)

(** The dictionary [extract_story_info] fills; an absent key is [None]. *)
Record story_info : Type := StoryInfo {
  story_title : option string;
  story_url : option string;
  story_points : option string;
  story_author : option string;
  story_time : option string
}.

(** The dictionary [parse_hn_comments] returns. *)
Record hn_data : Type := HnData {
  story : story_info;
  comments : list comment_dict;
  total_comments : nat
}.

(** ** Renderers

    Standard output is the list of the strings handed to [print], one entry
    per call. *)

(** The header of the compact rendering. *)
Definition comment_type (indent : nat) : string :=
  if decide (0 < indent)%nat then "REPLY" else "COMMENT".

Definition llm_header (indent : nat) (c : comment_fields) : string :=
  py_repeat "  " indent +:+ comment_type indent +:+ " [" +:+ author c +:+ " @ "
  +:+ time c +:+ "] ID: " +:+ comment_id c.

Definition llm_body (indent : nat) (c : comment_fields) : list string :=
  map (λ line, py_repeat "  " indent +:+ line) (py_split newline (text c)).

(** [if indent == 0 and comment['replies']: print()] *)
Definition llm_gap (indent : nat) (kids : list comment_dict) : list string :=
  if decide (indent = 0%nat) then
    match kids with [] => [] | _ => [""] end
  else [].

(** [print_comment_llm] of [parse_hn_comments.py]. *)
Fixpoint print_comment_llm (indent : nat) (d : comment_dict) : list string :=
  match d with
  | CommentDict c kids =>
      llm_header indent c :: llm_body indent c ++ llm_gap indent kids
      ++ flat_map (print_comment_llm (S indent)) kids
  end.

(** [format_comment_llm] of [server.py]: the same lines, collected in a
    list and joined; a reply contributes its own joined text as one entry. *)
Fixpoint format_comment_llm (indent : nat) (d : comment_dict) : string :=
  match d with
  | CommentDict c kids =>
      py_join newline
        (llm_header indent c :: llm_body indent c ++ llm_gap indent kids
         ++ map (format_comment_llm (S indent)) kids)
  end.

(** [print_comment] of [parse_hn_comments.py], the verbose rendering. *)
Fixpoint print_comment (indent : nat) (d : comment_dict) : list string :=
  match d with
  | CommentDict c kids =>
      let prefix := py_repeat "  " indent in
      [prefix +:+ py_repeat "─" 60;
       prefix +:+ "Author: " +:+ author c;
       prefix +:+ "Time: " +:+ time c;
       prefix +:+ "ID: " +:+ comment_id c;
       prefix +:+ "Text:"]
      ++ map (λ line, prefix +:+ "  " +:+ line) (py_split newline (text c))
      ++ match kids with
         | [] => []
         | _ =>
             (prefix +:+ "Replies: " +:+ pretty (length kids))
             :: flat_map (print_comment (S indent)) kids
         end
  end.

Definition or_na (v : option string) : string := default "N/A" v.

(** The story header shared by the compact renderings. *)
Definition llm_story_lines (s : story_info) (total : nat) : list string :=
  ["STORY: " +:+ or_na (story_title s);
   "URL: " +:+ or_na (story_url s);
   "AUTHOR: " +:+ or_na (story_author s) +:+ " | POINTS: " +:+ or_na (story_points s)
     +:+ " | TIME: " +:+ or_na (story_time s);
   "TOTAL_COMMENTS: " +:+ pretty total;
   ""].

(** [format_hn_discussion] of [server.py]. *)
Definition format_hn_discussion (r : hn_data) : string :=
  py_join newline
    (llm_story_lines (story r) (total_comments r)
     ++ concat (imap (λ i d, ["COMMENT #" +:+ pretty (S i); format_comment_llm 0 d; ""])
                     (comments r))).

(** The comments section of [print_result], compact form. *)
Definition print_comments_llm (cs : list comment_dict) : list string :=
  concat (imap (λ i d, ("COMMENT #" +:+ pretty (S i)) :: print_comment_llm 0 d ++ [""]) cs).

(** The comments section of [print_result], verbose form. *)
Definition print_comments_verbose (cs : list comment_dict) : list string :=
  concat (imap (λ i d, (newline +:+ "[Comment " +:+ pretty (S i) +:+ "]") :: print_comment 0 d) cs).

(** *** The compact rendering, comment by comment

    What the design document asks of the compact rendering of one comment
    at nesting depth [lvl]: one header line, the body lines, and a blank
    line exactly for a top-level comment that has replies. *)
Definition compact_label (lvl : nat) : string :=
  match lvl with O => "COMMENT" | S _ => "REPLY" end.

Definition compact_block (lvl : nat) (d : comment_dict) : list string :=
  let c := dict_fields d in
  [py_repeat "  " lvl +:+ compact_label lvl +:+ " [" +:+ author c +:+ " @ "
     +:+ time c +:+ "] ID: " +:+ comment_id c]
  ++ map (λ line, py_repeat "  " lvl +:+ line) (py_split newline (text c))
  ++ match lvl, dict_replies d with
     | O, _ :: _ => [""]
     | _, _ => []
     end.

(** Pre-order list of the comments below (and including) [d], each with
    its nesting depth. *)
Fixpoint dict_nodes (lvl : nat) (d : comment_dict) : list (nat * comment_dict) :=
  match d with
  | CommentDict c kids => (lvl, d) :: flat_map (dict_nodes (S lvl)) kids
  end.

(** ** Collaborators *)

(** The thread document as the queries of [extract_story_info] and
    [extract_comments] see it. *)
Record document : Type := Document {
  doc_story : story_info;
  doc_rows : list row
}.

(** A decoded JSON value, as [response.json()] returns it: [None], a
    boolean, a number, a string, a list or a dictionary.  A number keeps
    whether it is zero and the text [str] shows for it; a list and a
    dictionary keep the text [str] shows for them, and a dictionary the text
    shown for the list of its keys. *)
Inductive json : Type :=
  | JNull
  | JBool (b : bool)
  | JNumber (zero : bool) (shown : string)
  | JString (s : string)
  | JArray (items : list json) (shown : string)
  | JObject (entries : gmap string json) (shown : string) (keys_shown : string).

(** [str(v)], which is also what an f-string and [print] show. *)
Definition py_str (v : json) : string :=
  match v with
  | JNull => "None"
  | JBool true => "True"
  | JBool false => "False"
  | JNumber _ shown => shown
  | JString s => s
  | JArray _ shown => shown
  | JObject _ shown _ => shown
  end.

(** Truth value of [v]. *)
Definition json_truthy (v : json) : bool :=
  match v with
  | JNull => false
  | JBool b => b
  | JNumber zero _ => negb zero
  | JString s => py_truthy s
  | JArray items _ => match items with [] => false | _ => true end
  | JObject entries _ _ => negb (Nat.eqb (size entries) 0)
  end.

(** The operations of [get_markdown] that the interpreter can refuse:
    [key in v] (a [TypeError] when [v] is [None], a boolean or a number),
    [v[key]] (a [TypeError] when [v] is a string or a list, a [KeyError]
    when the dictionary has no such key) and [v.keys()] (an
    [AttributeError] when [v] is not a dictionary). *)
Inductive fault : Type :=
  | BadMembership (key : string) (v : json)
  | BadSubscript (key : string) (v : json)
  | BadKeys (v : json).

(** What [requests.post] followed by [raise_for_status] and [json] does:
    the exception classes [scrape_url] tells apart, or the decoded
    document. *)
Inductive post_outcome : Type :=
  | PostTimeout
  | PostConnectionError (e : string)
  | PostHTTPError (e : string) (status_code : string)
      (error_data : option string) (response_text : string)
  | PostRequestException (e : string)
  | PostInvalidJson (e : string) (response_text : string)
  | PostOk (data : json).

(** The request [scrape_url] sends. *)
Record scrape_request : Type := ScrapeRequest {
  req_url : string;
  req_api_key : string;
  req_only_main_content : bool;
  req_max_age : Z;
  req_parsers : list string;
  req_formats : list string;
  req_timeout : Z
}.

(** Everything outside the program that a run depends on. *)
Record world : Type := World {
  (** [requests.get] of the item page, [raise_for_status] and the parse *)
  fetch_thread : string → result document;
  (** [os.getenv('FIRECRAWL_API_KEY')] *)
  env_api_key : option string;
  (** the scrape service *)
  post_scrape : scrape_request → post_outcome;
  (** [traceback.format_exc()] *)
  format_exc : exception → string;
  (** [str(e)] of the exception the interpreter raises for a refused
      operation *)
  fault_message : fault → string
}.

(** ** [firecrawl.py] *)

Definition scrape_url (w : world) (target_url : string) (api_key : option string)
    (only_main_content : bool) (formats : option (list string)) : result json :=
  let max_age := 172800000 in
  let timeout := 30 in
  let api_key := match api_key with Some k => Some k | None => env_api_key w end in
  match api_key with
  | Some key =>
      if py_truthy key then
        let request :=
          {| req_url := target_url; req_api_key := key;
             req_only_main_content := only_main_content; req_max_age := max_age;
             req_parsers := ["pdf"]; req_formats := default ["markdown"] formats;
             req_timeout := timeout |} in
        match post_scrape w request with
        | PostOk data => Returned data
        | PostInvalidJson e response_text =>
            Raised (FirecrawlError ("Failed to parse JSON response: " +:+ e +:+ newline
                                    +:+ "Response text: " +:+ response_text))
        | PostTimeout =>
            Raised (FirecrawlError ("Request timed out after " +:+ pretty timeout +:+ " seconds"))
        | PostConnectionError e =>
            Raised (FirecrawlError ("Failed to connect to the API: " +:+ e))
        | PostHTTPError e status_code error_data response_text =>
            Raised (FirecrawlError
                      ("HTTP error occurred: " +:+ e +:+ newline +:+ "Status code: " +:+ status_code
                       +:+ match error_data with
                           | Some d => newline +:+ "Error details: " +:+ d
                           | None => newline +:+ "Response text: " +:+ response_text
                           end))
        | PostRequestException e =>
            Raised (FirecrawlError ("Request error: " +:+ e))
        end
      else
        Raised (FirecrawlError
          "FIRECRAWL_API_KEY not found. Please set it in .env file or pass as parameter")
  | None =>
      Raised (FirecrawlError
        "FIRECRAWL_API_KEY not found. Please set it in .env file or pass as parameter")
  end.

(** [key in v] *)
Definition py_contains (w : world) (key : string) (v : json) : result bool :=
  match v with
  | JObject entries _ _ => Returned (bool_decide (is_Some (entries !! key)))
  | JArray items _ =>
      Returned (existsb (λ x, match x with
                              | JString s => String.eqb s key
                              | _ => false
                              end) items)
  | JString s => Returned (py_in key s)
  | JNull | JBool _ | JNumber _ _ =>
      Raised (OtherException (fault_message w (BadMembership key v)))
  end.

(** [v[key]] for a string [key] *)
Definition py_subscript (w : world) (key : string) (v : json) : result json :=
  match v with
  | JObject entries _ _ =>
      match entries !! key with
      | Some x => Returned x
      | None => Raised (OtherException (fault_message w (BadSubscript key v)))
      end
  | _ => Raised (OtherException (fault_message w (BadSubscript key v)))
  end.

(** The text shown for [list(v.keys())] *)
Definition py_keys_shown (w : world) (v : json) : result string :=
  match v with
  | JObject _ _ keys_shown => Returned keys_shown
  | _ => Raised (OtherException (fault_message w (BadKeys v)))
  end.

(** [get_markdown].  The source evaluates [data['data']] once more in
    each branch; it is the same value every time. *)
Definition get_markdown (w : world) (data : json) : result json :=
  do has_data <- py_contains w "data" data;
  if negb has_data then
    Raised (FirecrawlError
      ("'data' field not found in response. Response: " +:+ py_str data))
  else
    do inner <- py_subscript w "data" data;
    do has_markdown <- py_contains w "markdown" inner;
    if negb has_markdown then
      do available_fields <- py_keys_shown w inner;
      Raised (FirecrawlError
        ("'markdown' field not found in data. Available fields: "
         +:+ available_fields))
    else py_subscript w "markdown" inner.

(** ** [parse_hn_comments.py] *)

(** The first loop of [extract_comments].  It reads every row, skips the
    rows without a text container and collects the top-level ones; the
    list it builds is not used afterwards.  It also rewrites the text
    container of every row it does not skip, which is what [commtext]
    holds. *)
Fixpoint first_pass (rows : list row) (top : list comment_fields) : result (list comment_fields) :=
  match rows with
  | [] => Returned top
  | r :: rest =>
      do lvl <- indent_of_row r;
      match commtext r with
      | None => first_pass rest top
      | Some t =>
          let c := {| comment_id := default "" (row_id r); author := author_of_row r;
                      time := time_of_row r; text := t; indent_level := lvl |} in
          first_pass rest (if decide (lvl = 0) then top ++ [c] else top)
      end
  end.

Definition extract_comments (rows : list row) : result (list comment_dict) :=
  do _top <- first_pass rows [];
  build_nested_structure rows.

Definition parse_hn_comments (w : world) (item_id : string) : result hn_data :=
  do doc <- fetch_thread w item_id;
  do cs <- extract_comments (doc_rows doc);
  Returned {| story := doc_story doc; comments := cs; total_comments := length cs |}.

(** ** [cli.py] *)

(** The item identifier of an item URL, or the argument itself.  The second
    piece of the split exists whenever the marker occurs. *)
Definition item_id_of_url (hn_url : string) : string :=
  default "" (head (py_split "&" (default "" (py_split "item?id=" hn_url !! 1%nat)))).

(** The dictionary [get_hn_content] returns.  ['url_content'] is [None],
    here [JNull], or what [get_markdown] returned; an absent ['error'] key
    and a [None] value are both [None]. *)
Record hn_content : Type := HnContent {
  hn_comments : hn_data;
  url_content : json;
  content_story_url : option string;
  error : option string
}.

Definition hn_site : string := "https://news.ycombinator.com".

(** [get_hn_content]: what it prints, and what it returns or raises. *)
Definition get_hn_content (w : world) (hn_url : string) (api_key : option string)
  : list string * result hn_content :=
  let item_id := if py_in "item?id=" hn_url then item_id_of_url hn_url
                 else py_strip hn_url in
  if negb (py_isdigit item_id) then
    ([], Raised (ValueError ("Invalid HN item ID: " +:+ item_id)))
  else
    let out1 := ["Fetching HN comments for item " +:+ item_id +:+ "..."] in
    match parse_hn_comments w item_id with
    | Raised e => (out1, Raised e)
    | Returned hn =>
        let story_url := default "" (story_url (story hn)) in
        if negb (py_truthy story_url) then
          (out1, Returned {| hn_comments := hn; url_content := JNull;
                             content_story_url := None;
                             error := Some "No URL found in the HN story (might be a text post)" |})
        else if String.prefix hn_site story_url then
          (out1, Returned {| hn_comments := hn; url_content := JNull;
                             content_story_url := Some story_url;
                             error := Some "Story links to HN itself (Ask HN, Show HN, etc.)" |})
        else
          let out2 := out1 ++ ["Fetching content from: " +:+ story_url] in
          match (do data <- scrape_url w story_url api_key true (Some ["markdown"]);
                 get_markdown w data) with
          | Returned md =>
              (out2, Returned {| hn_comments := hn; url_content := md;
                                 content_story_url := Some story_url; error := None |})
          | Raised (FirecrawlError msg) =>
              (out2, Returned {| hn_comments := hn; url_content := JNull;
                                 content_story_url := Some story_url;
                                 error := Some ("Failed to fetch URL content: " +:+ msg) |})
          | Raised e => (out2, Raised e)
          end
    end.

Definition rule80 : string := py_repeat "=" 80.

(** [print_result] *)
Definition print_result (r : hn_content) (compact : bool) : list string :=
  let hn := hn_comments r in
  let s := story hn in
  if compact then
    ["STORY: " +:+ or_na (story_title s);
     "URL: " +:+ or_na (story_url s);
     "AUTHOR: " +:+ or_na (story_author s) +:+ " | POINTS: " +:+ or_na (story_points s)
       +:+ " | TIME: " +:+ or_na (story_time s);
     "TOTAL_COMMENTS: " +:+ pretty (total_comments hn);
     ""]
    ++ (if get_truthy (error r)
        then ["WARNING: " +:+ default "" (error r); ""] else [])
    ++ print_comments_llm (comments hn)
    ++ (if json_truthy (url_content r)
        then [rule80; "URL CONTENT"; rule80; py_str (url_content r)] else [])
  else
    [rule80; "HACKER NEWS STORY"; rule80;
     "Title: " +:+ or_na (story_title s);
     "URL: " +:+ or_na (story_url s);
     "Author: " +:+ or_na (story_author s);
     "Points: " +:+ or_na (story_points s);
     "Time: " +:+ or_na (story_time s);
     "Total Comments: " +:+ pretty (total_comments hn);
     rule80; ""]
    ++ (if get_truthy (error r)
        then ["⚠️  Warning: " +:+ default "" (error r); ""] else [])
    ++ ["COMMENTS"; rule80]
    ++ print_comments_verbose (comments hn)
    ++ (if json_truthy (url_content r)
        then [newline +:+ rule80; "URL CONTENT"; rule80; py_str (url_content r);
              newline +:+ rule80] else []).

(** A finished run of the command: what went to the two streams, and the
    exit status. *)
Record process : Type := Process {
  stdout : list string;
  stderr : list string;
  exit_code : Z
}.

(** [main] of [cli.py], after the argument parser. *)
Definition main (w : world) (hn_url : string) (compact : bool) (api_key : option string)
  : process :=
  match get_hn_content w hn_url api_key with
  | (out, Returned r) =>
      {| stdout := out ++ print_result r compact;
         stderr := [];
         exit_code := if get_truthy (error r) then 2 else 0 |}
  | (out, Raised (ValueError msg)) =>
      {| stdout := out; stderr := ["Error: " +:+ msg]; exit_code := 1 |}
  | (out, Raised (FirecrawlError msg)) =>
      {| stdout := out; stderr := ["Firecrawl Error: " +:+ msg]; exit_code := 1 |}
  | (out, Raised e) =>
      {| stdout := out;
         stderr := ["Unexpected error: " +:+ str_of_exception e; format_exc w e];
         exit_code := 1 |}
  end.

(** ** [server.py]

    The module imports [parse_hn_comments] from [hn_parser] and the scrape
    client from [firecrawl_client]; they are the functions of
    [parse_hn_comments.py] and [firecrawl.py] above. *)

Definition extract_item_id (hn_url : string) : string :=
  if py_in "item?id=" hn_url then item_id_of_url hn_url else hn_url.

(** [types.TextContent(type="text", text=...)] *)
Record text_content : Type := TextContent {
  content_type : string;
  content_text : string
}.

Definition no_article_notice : string :=
  "[No external article URL - this is a text post or Ask HN]".

(** The article section of the tool's answer. *)
Definition article_content_of (w : world) (article_url : string) : string :=
  if py_truthy article_url && negb (String.prefix hn_site article_url) then
    match (do data <- scrape_url w article_url None true None; get_markdown w data) with
    | Returned md => py_str md
    | Raised (FirecrawlError msg) => "[Error fetching article content: " +:+ msg +:+ "]"
    | Raised e => "[Unexpected error fetching article: " +:+ str_of_exception e +:+ "]"
    end
  else no_article_notice.

Definition result_text (article_content hn_discussion : string) : string :=
  "# ARTICLE CONTENT" +:+ newline +:+ newline +:+ article_content +:+ newline +:+ newline
  +:+ "---" +:+ newline +:+ newline +:+ "# HACKER NEWS DISCUSSION" +:+ newline +:+ newline
  +:+ hn_discussion.

(** [handle_call_tool]; [arguments] is the dictionary of the call, or
    [None]. *)
Definition handle_call_tool (w : world) (name : string)
    (arguments : option (gmap string string)) : result (list text_content) :=
  if negb (String.eqb name "get_hn_content") then
    Raised (ValueError ("Unknown tool: " +:+ name))
  else
    match arguments ≫= (λ args, args !! "hn_url") with
    | None => Raised (ValueError "Missing required argument: hn_url")
    | Some hn_url =>
        match parse_hn_comments w (extract_item_id hn_url) with
        | Returned hn_result =>
            let hn_discussion := format_hn_discussion hn_result in
            let article_url := default "" (story_url (story hn_result)) in
            Returned [ {| content_type := "text";
                          content_text := result_text (article_content_of w article_url)
                                                      hn_discussion |} ]
        | Raised e =>
            Returned [ {| content_type := "text";
                          content_text := "Error: " +:+ str_of_exception e |} ]
        end
    end.

(** * Invariants, auxiliary notions and sample inputs *)

(** ** The object store of the builder *)

(** References point into the store, a reply is allocated after its parent,
    and the reference lists grow at the end only, by fresh references. *)
Record sound (st : builder) : Prop := Sound {
  sound_roots :
    Forall (λ r, r < length (store st))%nat (all_comments st);
  sound_roots_sorted :
    StronglySorted lt (all_comments st);
  sound_stack :
    Forall (λ r, r < length (store st))%nat (comment_stack st);
  sound_replies : ∀ p c, store st !! p = Some c →
    Forall (λ r, p < r < length (store st))%nat (replies c);
  sound_replies_sorted : ∀ p c, store st !! p = Some c →
    StronglySorted lt (replies c)
}.

(** A node of the read-out is the dictionary at its position: same
    record, same replies in the same order. *)
Definition node_in_store (h : heap) (n : node_info) : Prop :=
  ∃ c, h !! ni_pos n = Some c ∧ ni_fields n = fields c ∧ ni_kids n = replies c.

(** A position in the read-out is a root or is listed in the replies of a
    dictionary of the store. *)
Definition referenced (st : builder) (r : ref) : Prop :=
  r ∈ all_comments st ∨ ∃ p c, store st !! p = Some c ∧ r ∈ replies c.

(** Nothing refers to [r]: no root list, no stack, no replies list. *)
Definition unreferenced (st : builder) (r : ref) : Prop :=
  (r ∉ all_comments st) ∧ (r ∉ comment_stack st)
  ∧ ∀ p c, store st !! p = Some c → r ∉ replies c.

(** The dictionary at [r] has indent level [d]. *)
Definition depth_at (h : heap) (r : ref) (d : Z) : Prop :=
  ∃ c, h !! r = Some c ∧ indent_level (fields c) = d.

(** Roots have indent level 0 and replies have not, whatever the input. *)
Record levelled (st : builder) : Prop := Levelled {
  levelled_roots : Forall (λ r, depth_at (store st) r 0) (all_comments st);
  levelled_replies : ∀ p c r, store st !! p = Some c → r ∈ replies c →
    ∃ d, d ≠ 0 ∧ depth_at (store st) r d
}.

(** On a stepwise input the stack holds one open ancestor per level, and
    every reply is one level below its parent. *)
Record graded (prev : Z) (st : builder) : Prop := Graded {
  graded_stack : ∀ i r, comment_stack st !! i = Some r →
    depth_at (store st) r (Z.of_nat i);
  graded_top :
    comment_stack st = [] ∨ Z.of_nat (length (comment_stack st)) = prev + 1;
  graded_edges : ∀ p c r, store st !! p = Some c → r ∈ replies c →
    depth_at (store st) r (indent_level (fields c) + 1)
}.

(** Once a root is open, every record so far is a root or a reply. *)
Record attached (st : builder) : Prop := Attached {
  attached_stack : comment_stack st ≠ [];
  attached_all : ∀ r, (r < length (store st))%nat → referenced st r
}.

(** [r] is a root or a reply, at any depth, of a root. *)
Inductive reach (st : builder) : ref → Prop :=
  | reach_root r :
      r ∈ all_comments st → reach st r
  | reach_reply p c r :
      reach st p → store st !! p = Some c → r ∈ replies c → reach st r.

(** A record is kept when it is a root or the cut stack is not empty. *)
Definition kept (st : builder) (c : comment_fields) : Prop :=
  indent_level c = 0 ∨ py_slice_to (comment_stack st) (indent_level c) ≠ [].

(** ** A store with one more, unreferenced, dictionary

    [shift g] renumbers the references of a store into which a dictionary
    was inserted at [g]. *)
Definition shift (g : ref) (r : ref) : ref :=
  if decide (r < g)%nat then r else S r.

Definition shift_comment (g : ref) (c : comment) : comment :=
  {| fields := fields c; replies := shift g <$> replies c |}.

(** [st'] is [st] with one more dictionary, at [g], that nothing refers
    to. *)
Record padded (g : ref) (st st' : builder) : Prop := Padded {
  padded_length : length (store st') = S (length (store st));
  padded_bound : (g ≤ length (store st))%nat;
  padded_store : ∀ r, store st' !! shift g r = shift_comment g <$> store st !! r;
  padded_roots : all_comments st' = shift g <$> all_comments st;
  padded_stack : comment_stack st' = shift g <$> comment_stack st
}.

(** ** Rendering *)

(** In a forest of the builder, a node is at nesting depth 0 exactly when
    its indent level is 0. *)
Definition depth_label_ok (ln : nat * comment_dict) : Prop :=
  ln.1 = 0%nat ↔ indent_level (dict_fields ln.2) = 0.

(** ** Fetching and merging *)

(** The records of depth 0. *)
Definition top_level (recs : list comment_fields) : list comment_fields :=
  filter (λ c, indent_level c = 0) recs.

(** The item identifier [get_hn_content] derives from its argument. *)
Definition cli_item_id (hn_url : string) : string :=
  if py_in "item?id=" hn_url then item_id_of_url hn_url else py_strip hn_url.

(** The answer of the scrape service is a dictionary that has no ['data']
    entry, or whose ['data'] entry is a dictionary that has no ['markdown']
    entry. *)
Definition lacks_markdown (data : json) : Prop :=
  ∃ entries shown keys,
    data = JObject entries shown keys
    ∧ (entries !! "data" = None
       ∨ ∃ entries' shown' keys',
           entries !! "data" = Some (JObject entries' shown' keys')
           ∧ entries' !! "markdown" = None).

(** A notice in square brackets. *)
Definition bracketed (s : string) : Prop := ∃ body, s = "[" +:+ body +:+ "]".

(** ** Sample inputs *)

Definition jump_rows : list row :=
  [ {| row_id := Some "1"; ind_width := NoWidth; hnuser := Some "alice";
       age := Some (AgeElement None "1 hour ago"); commtext := Some "first" |};
    {| row_id := Some "2"; ind_width := Width 80; hnuser := Some "bob";
       age := Some (AgeElement None "1 hour ago"); commtext := Some "second" |} ].

Definition scenario_rows : list row :=
  [ {| row_id := Some "1"; ind_width := NoWidth; hnuser := Some "alice";
       age := Some (AgeElement None "2 hours ago"); commtext := Some "root" |};
    {| row_id := Some "2"; ind_width := Width 40; hnuser := Some "bob";
       age := Some (AgeElement None "1 hour ago"); commtext := Some "reply" |};
    {| row_id := Some "3"; ind_width := Width 40; hnuser := None;
       age := None; commtext := None |};
    {| row_id := Some "4"; ind_width := Width 80; hnuser := Some "carol";
       age := Some (AgeElement (Some "2024-01-01T00:00:00") "now"); commtext := Some "deep" |} ].

Definition scenario_records : list comment_fields :=
  [ CommentFields "1" "alice" "2 hours ago" "root" 0;
    CommentFields "2" "bob" "1 hour ago" "reply" 1;
    CommentFields "3" "[deleted]" "N/A" "[deleted]" 1;
    CommentFields "4" "carol" "2024-01-01T00:00:00" "deep" 2 ].

Definition orphan_records : list comment_fields :=
  [ CommentFields "7" "dave" "now" "orphan" 1;
    CommentFields "8" "erin" "now" "root" 0;
    CommentFields "9" "fred" "now" "reply" 3 ].

(** A world without network: the thread document is [d], the scrape
    service answers [post] to every request. *)
Definition fixed_world (d : document) (post : post_outcome) : world :=
  {| fetch_thread := λ _, Returned d;
     env_api_key := Some "fc-key";
     post_scrape := λ _, post;
     format_exc := λ _, "Traceback (most recent call last):";
     fault_message := λ f, match f with
                           | BadMembership _ _ => "argument is not iterable"
                           | BadSubscript _ _ => "indices must be integers"
                           | BadKeys _ => "object has no attribute 'keys'"
                           end |}.

Definition reply_rows : list row :=
  [ {| row_id := Some "1"; ind_width := NoWidth; hnuser := Some "alice";
       age := Some (AgeElement None "2 hours ago"); commtext := Some "root" |};
    {| row_id := Some "2"; ind_width := Width 40; hnuser := Some "bob";
       age := Some (AgeElement None "1 hour ago"); commtext := Some "reply" |} ].

Definition text_post : story_info :=
  {| story_title := Some "Ask HN: anything"; story_url := Some "";
     story_points := Some "3 points"; story_author := Some "alice";
     story_time := Some "2024-01-01T00:00:00" |}.

Definition orphan_rows : list row :=
  [ {| row_id := Some "7"; ind_width := Width 40; hnuser := None;
       age := Some (AgeElement None "now"); commtext := None |} ].

Definition lost_article : post_outcome :=
  PostOk (JObject {[ "success" := JBool true;
                     "data" := JObject {[ "metadata" := JObject ∅ "{}" "[]" ]}
                                 "{'metadata': {}}" "['metadata']" ]}
            "{'success': True, 'data': {'metadata': {}}}" "['success', 'data']").

Definition linked_story : story_info :=
  {| story_title := Some "A thing"; story_url := Some "https://example.com/a";
     story_points := Some "10 points"; story_author := Some "alice";
     story_time := Some "2024-01-01T00:00:00" |}.

(** The discussion section that [print_result] prints. *)
Definition printed_comments (compact : bool) (cs : list comment_dict) : list string :=
  if compact then print_comments_llm cs else print_comments_verbose cs.

(** * Further notions, for the properties beyond the design document *)

(** ** Two stores side by side

    [lift n c]: the dictionary [c] of a store that has been placed behind
    [n] other dictionaries. *)
Definition lift (n : nat) (c : comment) : comment :=
  {| fields := fields c; replies := Nat.add n <$> replies c |}.

(** [st] is [st1] followed by [st2]: the dictionaries of [st2] come after
    those of [st1], its roots after the roots of [st1], and the stack is
    the stack of [st2]. *)
Record follows (st1 st2 st : builder) : Prop := Follows {
  follows_store :
    store st = store st1 ++ (lift (length (store st1)) <$> store st2);
  follows_roots :
    all_comments st
    = all_comments st1 ++ (Nat.add (length (store st1)) <$> all_comments st2);
  follows_stack :
    comment_stack st = Nat.add (length (store st1)) <$> comment_stack st2
}.

(** ** The same forest with other scalar entries *)

Fixpoint dict_map (f : comment_fields → comment_fields) (d : comment_dict) : comment_dict :=
  match d with
  | CommentDict c kids => CommentDict (f c) (map (dict_map f) kids)
  end.

Definition comment_map (f : comment_fields → comment_fields) (c : comment) : comment :=
  {| fields := f (fields c); replies := replies c |}.

Definition builder_map (f : comment_fields → comment_fields) (st : builder) : builder :=
  {| store := comment_map f <$> store st;
     all_comments := all_comments st;
     comment_stack := comment_stack st |}.

(** The row cannot be read: its width attribute is not an integer. *)
Definition bad_width (r : row) (msg : string) : Prop := ind_width r = BadWidth msg.

(** The scalar entries of the roots, read in the store. *)
Definition root_fields (st : builder) : list comment_fields :=
  omap (λ r, (fields <$> store st) !! r) (all_comments st).

(** ** The verbose rendering, comment by comment

    The lines [print_comment] prints for one comment at nesting depth
    [lvl], before it turns to the replies. *)
Definition verbose_block (lvl : nat) (d : comment_dict) : list string :=
  let c := dict_fields d in
  let prefix := py_repeat "  " lvl in
  [prefix +:+ py_repeat "─" 60;
   prefix +:+ "Author: " +:+ author c;
   prefix +:+ "Time: " +:+ time c;
   prefix +:+ "ID: " +:+ comment_id c;
   prefix +:+ "Text:"]
  ++ map (λ line, prefix +:+ "  " +:+ line) (py_split newline (text c))
  ++ match dict_replies d with
     | [] => []
     | kids => [prefix +:+ "Replies: " +:+ pretty (length kids)]
     end.

(** ** More of [parse_hn_comments.py] *)

(** The address [parse_hn_comments] requests for an item. *)
Definition item_url (item_id : string) : string :=
  "https://news.ycombinator.com/item?id=" +:+ item_id.

(** The verbose report of [main] of [parse_hn_comments.py]. *)
Definition parser_report (r : hn_data) : list string :=
  let s := story r in
  [rule80; "STORY INFORMATION"; rule80;
   "Title: " +:+ or_na (story_title s);
   "URL: " +:+ or_na (story_url s);
   "Author: " +:+ or_na (story_author s);
   "Points: " +:+ or_na (story_points s);
   "Time: " +:+ or_na (story_time s);
   newline +:+ "Total Comments: " +:+ pretty (total_comments r);
   rule80; "";
   "COMMENTS"; rule80]
  ++ print_comments_verbose (comments r)
  ++ [newline +:+ rule80;
      "Successfully parsed " +:+ pretty (total_comments r) +:+ " comments!"].

(** [main] of [parse_hn_comments.py], after the argument parser: the
    positional argument and the [--llm] flag. *)
Definition parser_main (w : world) (arg : string) (llm : bool) : process :=
  let item_id := if py_in "item?id=" arg then item_id_of_url arg else arg in
  let out0 := if llm then []
              else ["Fetching comments for item " +:+ item_id +:+ "..." +:+ newline] in
  match parse_hn_comments w item_id with
  | Returned r =>
      {| stdout := out0 ++
           (if llm then
              ["STORY: " +:+ or_na (story_title (story r));
               "URL: " +:+ or_na (story_url (story r));
               "AUTHOR: " +:+ or_na (story_author (story r)) +:+ " | POINTS: "
                 +:+ or_na (story_points (story r))
                 +:+ " | TIME: " +:+ or_na (story_time (story r));
               "TOTAL_COMMENTS: " +:+ pretty (total_comments r);
               ""]
              ++ print_comments_llm (comments r)
            else parser_report r);
         stderr := [];
         exit_code := 0 |}
  | Raised (RequestException msg) =>
      {| stdout := out0 ++ ["Error fetching Hacker News item: " +:+ msg];
         stderr := [];
         exit_code := 1 |}
  | Raised e =>
      {| stdout := out0 ++ ["Error parsing comments: " +:+ str_of_exception e];
         stderr := [format_exc w e];
         exit_code := 1 |}
  end.

(** ** More of [server.py] *)

(** A tool of [handle_list_tools]: its name, the properties of its input
    schema and the required ones. *)
Record tool : Type := Tool {
  tool_name : string;
  tool_properties : list string;
  tool_required : list string
}.

Definition handle_list_tools : list tool :=
  [ {| tool_name := "get_hn_content";
       tool_properties := ["hn_url"];
       tool_required := ["hn_url"] |} ].

(** The call names a listed tool and gives its required arguments. *)
Definition well_formed_call (name : string) (arguments : option (gmap string string)) : Prop :=
  ∃ t, t ∈ handle_list_tools ∧ tool_name t = name
       ∧ ∀ a, a ∈ tool_required t → is_Some (arguments ≫= (λ args, args !! a)).

(** ** More of [firecrawl.py] *)

(** The key [scrape_url] uses: the argument when it is given, else the
    environment. *)
Definition effective_key (w : world) (api_key : option string) : option string :=
  match api_key with Some k => Some k | None => env_api_key w end.

(** The request [scrape_url] sends for a key. *)
Definition request_for (target_url key : string) (only_main_content : bool)
    (formats : option (list string)) : scrape_request :=
  {| req_url := target_url; req_api_key := key;
     req_only_main_content := only_main_content; req_max_age := 172800000;
     req_parsers := ["pdf"]; req_formats := default ["markdown"] formats;
     req_timeout := 30 |}.

(** ** The replies of a root as a forest of their own *)

(** The same record one level further down, and one level further up. *)
Definition deeper (c : comment_fields) : comment_fields :=
  {| comment_id := comment_id c; author := author c; time := time c;
     text := text c; indent_level := indent_level c + 1 |}.

Definition shallower (c : comment_fields) : comment_fields :=
  {| comment_id := comment_id c; author := author c; time := time c;
     text := text c; indent_level := indent_level c - 1 |}.

(** [st] is [st2] below the root [c]: [c] is the only root, the roots of
    [st2] are its replies, and every dictionary of [st2] follows one level
    further down. *)
Record under (c : comment_fields) (st2 st : builder) : Prop := Under {
  under_store :
    store st = {| fields := c; replies := S <$> all_comments st2 |}
               :: (lift 1 <$> (comment_map deeper <$> store st2));
  under_roots : all_comments st = [0%nat];
  under_stack : comment_stack st = 0%nat :: (S <$> comment_stack st2)
}.

(** The nesting depth and the record of a node of a nested value. *)
Definition node_record (ln : nat * comment_dict) : Z * comment_fields :=
  (Z.of_nat ln.1, dict_fields ln.2).

(** ** More sample inputs *)

(** The same record with the author hidden. *)
Definition redact (c : comment_fields) : comment_fields :=
  {| comment_id := comment_id c; author := "[redacted]"; time := time c;
     text := text c; indent_level := indent_level c |}.

(** A thread whose second row has a width that is not an integer. *)
Definition unreadable_rows : list row :=
  [ {| row_id := Some "1"; ind_width := NoWidth; hnuser := Some "alice";
       age := Some (AgeElement None "2 hours ago"); commtext := Some "root" |};
    {| row_id := Some "2";
       ind_width := BadWidth "invalid literal for int() with base 10: 'wide'";
       hnuser := Some "bob";
       age := Some (AgeElement None "1 hour ago"); commtext := Some "reply" |} ].

Definition found_article : post_outcome :=
  PostOk (JObject {[ "success" := JBool true;
                     "data" := JObject {[ "markdown" := JString "# A thing" ]}
                                 "{'markdown': '# A thing'}" "['markdown']" ]}
            "{'success': True, 'data': {'markdown': '# A thing'}}"
            "['success', 'data']").

(** Answers of the scrape service that are JSON but not what
    [get_markdown] expects: [{"success": false, "data": null}] and
    [{"data": {"markdown": null}}]. *)
Definition null_data : post_outcome :=
  PostOk (JObject {[ "success" := JBool false; "data" := JNull ]}
            "{'success': False, 'data': None}" "['success', 'data']").

Definition null_markdown : post_outcome :=
  PostOk (JObject {[ "data" := JObject {[ "markdown" := JNull ]}
                                 "{'markdown': None}" "['markdown']" ]}
            "{'data': {'markdown': None}}" "['data']").

(** Every character is an ASCII character. *)
Fixpoint is_ascii (s : string) : bool :=
  match s with
  | EmptyString => true
  | String c s' => Nat.ltb (Ascii.nat_of_ascii c) 128 && is_ascii s'
  end.

(** The result of [get_hn_content] when nothing but the discussion is
    there: no article content, no warning. *)
Definition discussion_only (hn : hn_data) : hn_content :=
  {| hn_comments := hn; url_content := JNull; content_story_url := None;
     error := None |}.

(** * Properties *)

(** Case analysis on the three outcomes of [place]: the record becomes a
    root, a reply of the top of the cut stack, or is dropped. *)
Ltac place_cases :=
  unfold place; case_decide; [|destruct (last _)]; simpl.

(** ** The string and slice operations on the inputs of the tests *)

Example extract_item_id_tests :
  extract_item_id "https://news.ycombinator.com/item?id=42616867" = "42616867"
  ∧ extract_item_id "https://news.ycombinator.com/item?id=12345&p=1" = "12345"
  ∧ extract_item_id "42616867" = "42616867".
Proof. split_and!; vm_compute; reflexivity. Qed.

Example py_split_examples :
  py_split newline ("a" +:+ newline +:+ newline +:+ "b") = ["a"; ""; "b"]
  ∧ py_split newline "" = [""]
  ∧ py_split "ab" "xababyab" = ["x"; ""; "y"; ""].
Proof. split_and!; vm_compute; reflexivity. Qed.

Example py_strip_examples :
  py_strip "  42616867 " = "42616867" ∧ py_strip "   " = "" ∧ py_strip "a b" = "a b".
Proof. split_and!; vm_compute; reflexivity. Qed.

Example py_isdigit_examples :
  py_isdigit "42616867" = true ∧ py_isdigit "" = false ∧ py_isdigit "12a" = false.
Proof. split_and!; reflexivity. Qed.

Example py_slice_to_examples :
  py_slice_to [1; 2; 3] 2 = [1; 2] ∧ py_slice_to [1; 2; 3] 7 = [1; 2; 3]
  ∧ py_slice_to [1; 2; 3] 0 = [] ∧ py_slice_to [1; 2; 3] (-1) = [1; 2]
  ∧ py_slice_to [1; 2; 3] (-5) = [].
Proof. split_and!; reflexivity. Qed.

Example indent_of_row_examples :
  indent_of_row (Row None (Width 80) None None None) = Returned 2
  ∧ indent_of_row (Row None (Width 0) None None None) = Returned 0
  ∧ indent_of_row (Row None (Width 79) None None None) = Returned 1
  ∧ indent_of_row (Row None NoWidth None None None) = Returned 0.
Proof. split_and!; reflexivity. Qed.

(** ** The builder: one step *)

Lemma Forall_py_slice_to {A} (P : A → Prop) (l : list A) k :
  Forall P l → Forall P (py_slice_to l k).
Proof. intros H. unfold py_slice_to. case_decide; by apply Forall_take. Qed.

Lemma py_slice_to_nil {A} k : py_slice_to (@nil A) k = [].
Proof. unfold py_slice_to. case_decide; by rewrite take_nil. Qed.

Lemma py_slice_to_nonneg {A} (l : list A) k :
  0 ≤ k → py_slice_to l k = take (Z.to_nat k) l.
Proof. intros. unfold py_slice_to. by rewrite decide_True. Qed.

Lemma length_store_place st c :
  length (store (place st c)) = S (length (store st)).
Proof.
  place_cases;
    rewrite ?length_alter, length_app; simpl; lia.
Qed.

Lemma fields_alter_append r p (h : heap) :
  fields <$> alter (append_reply r) p h = fields <$> h.
Proof.
  rewrite (list_fmap_alter fields _ id).
  - apply list_alter_id. done.
  - by apply Forall_true.
Qed.

Lemma fields_store_place st c :
  fields <$> store (place st c) = (fields <$> store st) ++ [c].
Proof.
  place_cases;
    rewrite ?fields_alter_append, fmap_app; done.
Qed.

Lemma fields_store_foldl recs st :
  fields <$> store (foldl place st recs) = (fields <$> store st) ++ recs.
Proof.
  revert st. induction recs as [|c recs IH]; intros st; simpl.
  - by rewrite app_nil_r.
  - rewrite IH, fields_store_place, <- app_assoc. done.
Qed.

(** Every dictionary is the record at its allocation index. *)
Lemma fields_store_build recs :
  fields <$> store (build_records recs) = recs.
Proof. unfold build_records. by rewrite fields_store_foldl. Qed.

Lemma length_store_build recs :
  length (store (build_records recs)) = length recs.
Proof. by rewrite <- (fields_store_build recs) at 2; rewrite length_fmap. Qed.

Lemma lookup_store_build recs i c :
  store (build_records recs) !! i = Some c → recs !! i = Some (fields c).
Proof.
  intros H. pose proof (fields_store_build recs) as E.
  apply (f_equal (λ l, l !! i)) in E. by rewrite list_lookup_fmap, H in E.
Qed.

(** ** The builder: shape of the object store *)

Lemma sound_init : sound builder_init.
Proof. split; simpl; try constructor; intros ? ? H; by rewrite lookup_nil in H. Qed.

Lemma StronglySorted_snoc_lt (l : list nat) (n : nat) :
  StronglySorted lt l → Forall (λ r, r < n)%nat l → StronglySorted lt (l ++ [n]).
Proof.
  intros Hs Hb. apply StronglySorted_app_2; [|done|repeat constructor].
  intros x1 x2 H1 H2. apply list_elem_of_singleton in H2 as ->.
  by apply (proj1 (Forall_forall _ _) Hb).
Qed.

Lemma last_py_slice_to_lt st k parent :
  sound st → last (py_slice_to (comment_stack st) k) = Some parent →
  (parent < length (store st))%nat.
Proof.
  intros Hs Hl. apply last_Some_elem_of in Hl.
  pose proof (Forall_py_slice_to _ _ k (sound_stack _ Hs)) as HF.
  by apply (proj1 (Forall_forall _ _) HF).
Qed.

(** What a look-up in the store of [place st c] finds. *)
Lemma lookup_store_place st c p d :
  sound st →
  store (place st c) !! p = Some d →
  (store st !! p = Some d)
  ∨ (p = length (store st) ∧ d = {| fields := c; replies := [] |})
  ∨ (∃ d0, store st !! p = Some d0 ∧ d = append_reply (length (store st)) d0
           ∧ indent_level c ≠ 0
           ∧ last (py_slice_to (comment_stack st) (indent_level c)) = Some p).
Proof.
  intros Hs. unfold place. case_decide as Hz; [|destruct (last _) as [parent|] eqn:Hl]; simpl.
  - rewrite lookup_snoc_Some. naive_solver.
  - pose proof (last_py_slice_to_lt _ _ _ Hs Hl) as Hlt.
    rewrite list_lookup_alter. case_decide as Hp.
    + subst p. rewrite lookup_app_l by done.
      destruct (store st !! parent) as [d0|] eqn:Hd0; simpl; [|done].
      intros [= <-]. right; right. eauto.
    + rewrite lookup_snoc_Some. naive_solver.
  - rewrite lookup_snoc_Some. naive_solver.
Qed.

Lemma place_sound st c : sound st → sound (place st c).
Proof.
  intros Hs.
  assert (Hrep : ∀ p d, store (place st c) !! p = Some d →
            Forall (λ r, p < r < S (length (store st)))%nat (replies d)
            ∧ StronglySorted lt (replies d)).
  { intros p d Hd.
    destruct (lookup_store_place _ _ _ _ Hs Hd) as [Hd'|[[-> ->]|(d0&Hd0&->&_&Hl)]].
    - split; [|by eapply sound_replies_sorted].
      eapply Forall_impl; [by eapply sound_replies|]. simpl; lia.
    - split; simpl; constructor.
    - pose proof (last_py_slice_to_lt _ _ _ Hs Hl) as Hlt.
      pose proof (sound_replies _ Hs _ _ Hd0) as Hb.
      split; simpl.
      + apply Forall_app; split; [|repeat constructor; lia].
        eapply Forall_impl; [done|]. simpl; lia.
      + apply StronglySorted_snoc_lt; [by eapply sound_replies_sorted|].
        eapply Forall_impl; [done|]. simpl; lia. }
  split; try (intros p d Hd; rewrite ?length_store_place; by apply Hrep in Hd as [??]).
  - rewrite length_store_place. unfold place.
    pose proof (sound_roots _ Hs) as Hr.
    case_decide; [|destruct (last _)]; simpl.
    + apply Forall_app; split; [|repeat constructor; lia].
      eapply Forall_impl; [done|]. simpl; lia.
    + eapply Forall_impl; [done|]. simpl; lia.
    + eapply Forall_impl; [done|]. simpl; lia.
  - place_cases; try by apply sound_roots_sorted.
    apply StronglySorted_snoc_lt; [by apply sound_roots_sorted|by apply sound_roots].
  - rewrite length_store_place. unfold place.
    pose proof (Forall_py_slice_to _ _ (indent_level c) (sound_stack _ Hs)) as Hk.
    case_decide; [|destruct (last _)]; simpl.
    + repeat constructor; lia.
    + apply Forall_app; split; [|repeat constructor; lia].
      eapply Forall_impl; [done|]. simpl; lia.
    + eapply Forall_impl; [done|]. simpl; lia.
Qed.

Lemma foldl_place_sound recs st : sound st → sound (foldl place st recs).
Proof.
  revert st. induction recs as [|c recs IH]; intros st Hs; simpl; [done|].
  by apply IH, place_sound.
Qed.

Lemma build_records_sound recs : sound (build_records recs).
Proof. apply foldl_place_sound, sound_init. Qed.

(** ** Reading the store out *)

Lemma locate_elim (h : heap) (P : ref → located → Prop) :
  (∀ r c kids, h !! r = Some c → Forall2 P (replies c) kids →
     P r (Located r (fields c) kids)) →
  ∀ fuel r t, locate fuel h r = Some t → P r t.
Proof.
  intros HP. induction fuel as [|n IH]; intros r t; simpl; [done|].
  destruct (h !! r) as [c|] eqn:Hc; simpl; [|done].
  destruct (mapM _ _) as [kids|] eqn:Hk; simpl; [|done].
  intros [= <-]. apply HP; [done|]. apply mapM_Some_1 in Hk.
  eapply Forall2_impl; [done|]. intros; by apply IH.
Qed.

(** On a store whose replies point forward and inside, the read-out of any
    allocated reference is defined as soon as the fuel covers the
    references above it. *)
Lemma locate_is_Some (h : heap) :
  (∀ p c, h !! p = Some c → Forall (λ r, p < r < length h)%nat (replies c)) →
  ∀ fuel r, (r < length h)%nat → (length h - r ≤ fuel)%nat →
  is_Some (locate fuel h r).
Proof.
  intros Hfw. induction fuel as [|n IH]; intros r Hr Hfuel; [lia|]. simpl.
  destruct (lookup_lt_is_Some_2 h r Hr) as [c Hc]. rewrite Hc. simpl.
  destruct (mapM_is_Some_2 (locate n h) (replies c)) as [kids ->]; [|by eexists].
  eapply Forall_impl; [by apply (Hfw r c)|]. simpl. intros r' Hr'.
  apply IH; lia.
Qed.

Lemma mapM_fmap_option {A B C} (f : A → option B) (g : B → C) (l : list A) :
  mapM (λ x, g <$> f x) l = fmap (M:=option) (map g) (mapM f l).
Proof.
  induction l as [|x l IH]; [done|]. simpl. rewrite IH.
  destruct (f x); simpl; [|done]. by destruct (mapM f l).
Qed.

Lemma to_dict_locate fuel (h : heap) r :
  to_dict fuel h r = erase <$> locate fuel h r.
Proof.
  revert r. induction fuel as [|n IH]; intros r; simpl; [done|].
  destruct (h !! r) as [c|]; simpl; [|done].
  rewrite (mapM_ext _ _ _ IH), mapM_fmap_option.
  by destruct (mapM (locate n h) (replies c)).
Qed.

Lemma read_forest_locate st :
  read_forest st = fmap (M:=option) (map erase) (locate_forest st).
Proof.
  unfold read_forest, locate_forest.
  rewrite (mapM_ext _ _ _ (to_dict_locate _ _)). apply mapM_fmap_option.
Qed.

Lemma locate_forest_is_Some st : sound st → is_Some (locate_forest st).
Proof.
  intros Hs. apply mapM_is_Some_2.
  eapply Forall_impl; [by apply sound_roots|]. simpl. intros r Hr.
  apply locate_is_Some; [by apply sound_replies|done|lia].
Qed.

(** The read-out of the builder's store never fails: [located_forest] and
    [forest] are the values read, not their defaults. *)
Lemma locate_forest_build recs :
  locate_forest (build_records recs) = Some (located_forest recs).
Proof.
  unfold located_forest.
  by destruct (locate_forest_is_Some _ (build_records_sound recs)) as [f ->].
Qed.

Lemma read_forest_build recs :
  read_forest (build_records recs) = Some (forest recs).
Proof.
  unfold forest, forest_of.
  by rewrite read_forest_locate, locate_forest_build.
Qed.

Lemma forest_erase recs : forest recs = erase <$> located_forest recs.
Proof.
  pose proof (read_forest_build recs) as H.
  rewrite read_forest_locate, locate_forest_build in H. by injection H.
Qed.

Lemma Forall2_map_eq {A B} (f : B → A) (l : list A) (k : list B) :
  Forall2 (λ x y, f y = x) l k → map f k = l.
Proof. induction 1 as [|x y l k <- _ IH]; simpl; by rewrite ?IH. Qed.

Lemma locate_nodes (h : heap) fuel r t :
  locate fuel h r = Some t →
  loc_pos t = r ∧ ∀ lvl, Forall (node_in_store h) (loc_nodes lvl t).
Proof.
  apply (locate_elim h (λ r t, loc_pos t = r ∧
           ∀ lvl, Forall (node_in_store h) (loc_nodes lvl t))).
  clear. intros r c kids Hc Hkids. split; [done|]. intros lvl. simpl.
  constructor.
  - exists c. simpl. split_and!; [done..|]. apply Forall2_map_eq.
    eapply Forall2_impl; [done|]. by intros ? ? [? _].
  - apply Forall_flat_map. eapply Forall2_Forall_r; [done|].
    apply Forall_true. intros r' k [_ Hk]. apply Hk.
Qed.

Lemma locate_forest_roots st f :
  locate_forest st = Some f → map loc_pos f = all_comments st.
Proof.
  intros H. apply mapM_Some_1 in H. apply Forall2_map_eq.
  eapply Forall2_impl; [done|]. simpl. intros r t Ht.
  by apply locate_nodes in Ht as [? _].
Qed.

Lemma locate_forest_nodes st f :
  locate_forest st = Some f → Forall (node_in_store (store st)) (forest_nodes f).
Proof.
  intros H. apply mapM_Some_1 in H. apply Forall_flat_map.
  eapply Forall2_Forall_r; [done|]. apply Forall_true. intros r t Ht.
  by apply locate_nodes in Ht as [_ ?].
Qed.

Lemma locate_referenced (h : heap) fuel r t :
  locate fuel h r = Some t →
  ∀ lvl n, n ∈ loc_nodes lvl t →
    ni_pos n = r ∨ ∃ p c, h !! p = Some c ∧ ni_pos n ∈ replies c.
Proof.
  apply (locate_elim h (λ r t, ∀ lvl n, n ∈ loc_nodes lvl t →
           ni_pos n = r ∨ ∃ p c, h !! p = Some c ∧ ni_pos n ∈ replies c)).
  clear. intros r c kids Hc Hkids lvl n. simpl.
  rewrite elem_of_cons. intros [->|Hn]; [by left|]. right.
  apply list_elem_of_In, in_flat_map in Hn as (k & Hk & Hn).
  apply list_elem_of_In in Hk, Hn.
  apply list_elem_of_lookup in Hk as [i Hi].
  destruct (Forall2_lookup_r _ _ _ _ _ Hkids Hi) as (r' & Hr' & HP).
  destruct (HP _ _ Hn) as [->|?]; [|done].
  exists r, c. split; [done|]. by eapply list_elem_of_lookup_2.
Qed.

Lemma locate_forest_referenced st f n :
  locate_forest st = Some f → n ∈ forest_nodes f → referenced st (ni_pos n).
Proof.
  intros H Hn. apply mapM_Some_1 in H.
  apply list_elem_of_In, in_flat_map in Hn as (t & Ht & Hn).
  apply list_elem_of_In in Ht, Hn.
  apply list_elem_of_lookup in Ht as [i Hi].
  destruct (Forall2_lookup_r _ _ _ _ _ H Hi) as (r & Hr & Hloc).
  destruct (locate_referenced _ _ _ _ Hloc _ _ Hn) as [->|?]; [left|by right].
  by eapply list_elem_of_lookup_2.
Qed.

(** ** The builder: records that nothing refers to *)

Lemma unreferenced_not_referenced st r :
  unreferenced st r → ¬ referenced st r.
Proof. intros (Ha & _ & Hr) [?|(p & c & Hc & ?)]; [done|]. by eapply Hr. Qed.

Lemma elem_of_py_slice_to {A} (x : A) l k : x ∈ py_slice_to l k → x ∈ l.
Proof.
  unfold py_slice_to. case_decide; intros (i & ? & _)%elem_of_take;
    by eapply list_elem_of_lookup_2.
Qed.

Lemma place_unreferenced st c r :
  sound st → (r < length (store st))%nat →
  unreferenced st r → unreferenced (place st c) r.
Proof.
  intros Hs Hr (Ha & Hk & Hrep).
  assert (Hk' : r ∉ py_slice_to (comment_stack st) (indent_level c)).
  { intros ?%elem_of_py_slice_to. done. }
  split_and!.
  - place_cases; try done.
    rewrite elem_of_app, list_elem_of_singleton. intros [?|?]; [done|lia].
  - place_cases; try done.
    + rewrite list_elem_of_singleton. lia.
    + rewrite elem_of_app, list_elem_of_singleton. intros [?|?]; [done|lia].
  - intros p d Hd.
    destruct (lookup_store_place _ _ _ _ Hs Hd) as [Hd'|[[-> ->]|(d0&Hd0&->&_&Hl)]].
    + by eapply Hrep.
    + simpl. apply not_elem_of_nil.
    + simpl. rewrite elem_of_app, list_elem_of_singleton.
      intros [?|?]; [by eapply Hrep|lia].
Qed.

Lemma foldl_place_unreferenced recs st r :
  sound st → (r < length (store st))%nat →
  unreferenced st r → unreferenced (foldl place st recs) r.
Proof.
  revert st. induction recs as [|c recs IH]; intros st Hs Hr Hu; simpl; [done|].
  apply IH; [by apply place_sound|rewrite length_store_place; lia|].
  by apply place_unreferenced.
Qed.

(** The step that drops a record. *)
Lemma place_drop st c :
  sound st → indent_level c ≠ 0 →
  py_slice_to (comment_stack st) (indent_level c) = [] →
  unreferenced (place st c) (length (store st)).
Proof.
  intros Hs Hz Hnil. unfold place. rewrite decide_False by done.
  rewrite Hnil. simpl. split_and!.
  - intros Hin. pose proof (sound_roots _ Hs) as HF.
    apply (proj1 (Forall_forall _ _) HF) in Hin. lia.
  - apply not_elem_of_nil.
  - intros p d [[Hp Hd]|[-> <-]]%lookup_snoc_Some Hin; simpl in *.
    + pose proof (sound_replies _ Hs _ _ Hd) as HF.
      apply (proj1 (Forall_forall _ _) HF) in Hin. lia.
    + by apply not_elem_of_nil in Hin.
Qed.

(** ** The builder: depths *)

Lemma depth_at_fields (h : heap) r d :
  depth_at h r d ↔ ∃ f, (fields <$> h) !! r = Some f ∧ indent_level f = d.
Proof.
  unfold depth_at. rewrite list_lookup_fmap. split.
  - intros (c & -> & ?). by exists (fields c).
  - intros (f & Hf & ?). destruct (h !! r) as [c|]; simplify_eq/=. by exists c.
Qed.

Lemma depth_at_place st c r d :
  depth_at (store st) r d → depth_at (store (place st c)) r d.
Proof.
  rewrite !depth_at_fields, fields_store_place. intros (f & Hf & ?).
  exists f. split; [|done]. by apply lookup_app_l_Some.
Qed.

Lemma depth_at_new st c :
  depth_at (store (place st c)) (length (store st)) (indent_level c).
Proof.
  rewrite depth_at_fields, fields_store_place. exists c. split; [|done].
  rewrite lookup_app_r; rewrite length_fmap; [|done]. by rewrite Nat.sub_diag.
Qed.

Lemma depth_at_inj (h : heap) r d1 d2 : depth_at h r d1 → depth_at h r d2 → d1 = d2.
Proof. intros (c1 & H1 & <-) (c2 & H2 & <-). congruence. Qed.

Lemma levelled_init : levelled builder_init.
Proof. split; simpl; [constructor|]. intros ??? H; by rewrite lookup_nil in H. Qed.

Lemma place_levelled st c : sound st → levelled st → levelled (place st c).
Proof.
  intros Hs [Hroots Hrep]. split.
  - assert (Forall (λ r, depth_at (store (place st c)) r 0) (all_comments st)) as Hold.
    { eapply Forall_impl; [done|]. intros r. apply depth_at_place. }
    pose proof (depth_at_new st c) as Hnew.
    unfold place in *. case_decide as Hz; [|destruct (last _)]; simpl in *; try done.
    apply Forall_app; split; [done|]. rewrite Hz in Hnew. by repeat constructor.
  - intros p d r Hd Hin.
    destruct (lookup_store_place _ _ _ _ Hs Hd) as [Hd'|[[-> ->]|(d0&Hd0&->&Hz&Hl)]].
    + destruct (Hrep _ _ _ Hd' Hin) as (k & ? & ?). exists k. split; [done|].
      by apply depth_at_place.
    + by apply not_elem_of_nil in Hin.
    + simpl in Hin. apply elem_of_app in Hin as [Hin | ->%list_elem_of_singleton].
      * destruct (Hrep _ _ _ Hd0 Hin) as (k & ? & ?). exists k. split; [done|].
        by apply depth_at_place.
      * exists (indent_level c). split; [done|]. apply depth_at_new.
Qed.

Lemma foldl_place_levelled recs st :
  sound st → levelled st → levelled (foldl place st recs).
Proof.
  revert st. induction recs as [|c recs IH]; intros st Hs Hl; simpl; [done|].
  apply IH; [by apply place_sound|by apply place_levelled].
Qed.

Lemma build_records_levelled recs : levelled (build_records recs).
Proof. apply foldl_place_levelled; [apply sound_init|apply levelled_init]. Qed.

Lemma graded_init prev : graded prev builder_init.
Proof.
  split; simpl; [|by left|]; intros ??; [|intros ?]; intros H; by rewrite lookup_nil in H.
Qed.

Lemma place_graded prev st c :
  sound st → graded prev st → 0 ≤ indent_level c ≤ prev + 1 →
  graded (indent_level c) (place st c).
Proof.
  intros Hs [Hstack Htop Hedges] Hrange.
  pose proof (depth_at_new st c) as Hnew.
  assert (Hold : ∀ r d, depth_at (store st) r d → depth_at (store (place st c)) r d)
    by (intros; by apply depth_at_place).
  assert (Hslice : py_slice_to (comment_stack st) (indent_level c)
                   = take (Z.to_nat (indent_level c)) (comment_stack st))
    by (apply py_slice_to_nonneg; lia).
  split.
  - (* the stack *)
    intros i r. unfold place in *. rewrite Hslice in *.
    case_decide as Hz; [|destruct (last _) as [parent|] eqn:Hl]; simpl in *.
    + rewrite Hz in Hnew. intros [-> <-]%list_lookup_singleton_Some. done.
    + destruct Htop as [Hnil|Hlen].
      { rewrite Hnil, take_nil in Hl. done. }
      intros [[Hi Hr]|[Hi <-]]%lookup_snoc_Some.
      * apply Hold, Hstack. by rewrite lookup_take_Some in Hr; destruct Hr.
      * rewrite Hi, length_take, Nat.min_l by lia.
        rewrite Z2Nat.id by lia. done.
    + apply last_None in Hl. rewrite Hl. by rewrite lookup_nil.
  - (* its length *)
    unfold place. rewrite Hslice.
    case_decide as Hz; [|destruct (last _) as [parent|] eqn:Hl]; simpl.
    + right. lia.
    + right. destruct Htop as [Hnil|Hlen].
      { rewrite Hnil, take_nil in Hl. done. }
      rewrite length_app, length_take, Nat.min_l by lia. simpl. lia.
    + left. by apply last_None.
  - (* the edges *)
    intros p d r Hd Hin.
    destruct (lookup_store_place _ _ _ _ Hs Hd) as [Hd'|[[-> ->]|(d0&Hd0&->&Hz&Hl)]].
    + apply Hold. by eapply Hedges.
    + by apply not_elem_of_nil in Hin.
    + simpl in *. apply elem_of_app in Hin as [Hin | ->%list_elem_of_singleton].
      { apply Hold. by eapply Hedges. }
      rewrite Hslice in Hl.
      destruct Htop as [Hnil|Hlen].
      { rewrite Hnil, take_nil in Hl. done. }
      rewrite last_lookup, length_take, Nat.min_l in Hl by lia.
      apply lookup_take_Some in Hl as [Hl _].
      apply Hstack in Hl. destruct Hl as (d1 & Hd1 & Hlvl).
      assert (d1 = d0) as -> by congruence.
      rewrite Hlvl. replace (Z.of_nat (Init.Nat.pred (Z.to_nat (indent_level c))) + 1)
        with (indent_level c) by lia.
      done.
Qed.

Lemma foldl_place_graded recs prev st :
  sound st → graded prev st → stepwise prev recs →
  ∃ prev', graded prev' (foldl place st recs).
Proof.
  revert prev st. induction recs as [|c recs IH]; intros prev st Hs Hg Hstep; simpl.
  - by exists prev.
  - destruct Hstep as [Hc Hrest].
    apply (IH (indent_level c)); [by apply place_sound| |done].
    by apply place_graded with prev.
Qed.

Lemma build_records_graded prev recs :
  stepwise prev recs → ∃ prev', graded prev' (build_records recs).
Proof. apply foldl_place_graded; [apply sound_init|apply graded_init]. Qed.

(** ** The builder on rows and on records *)

Lemma build_loop_records rows st :
  build_loop rows st =
  do recs <- extract_records rows; Returned (foldl place st recs).
Proof.
  revert st. induction rows as [|r rows IH]; intros st; simpl; [done|].
  destruct (comment_of_row r) as [c|e]; simpl; [|done].
  rewrite IH. by destruct (extract_records rows).
Qed.

(** [build_nested_structure] raises only what reading a row raises, and
    otherwise returns the forest of the records. *)
Lemma build_nested_structure_records rows :
  build_nested_structure rows =
  do recs <- extract_records rows; Returned (forest recs).
Proof.
  unfold build_nested_structure. rewrite build_loop_records.
  by destruct (extract_records rows).
Qed.

(** ** The forest: positions, order, depths *)

Lemma forest_nodes_in_input recs :
  Forall (λ n, recs !! ni_pos n = Some (ni_fields n))
         (forest_nodes (located_forest recs)).
Proof.
  eapply Forall_impl; [apply (locate_forest_nodes _ _ (locate_forest_build recs))|].
  simpl. intros n (c & Hc & -> & _). by apply lookup_store_build.
Qed.

Lemma forest_roots_sorted recs :
  StronglySorted lt (loc_pos <$> located_forest recs).
Proof.
  change (loc_pos <$> located_forest recs) with (map loc_pos (located_forest recs)).
  rewrite (locate_forest_roots _ _ (locate_forest_build recs)).
  apply sound_roots_sorted, build_records_sound.
Qed.

Lemma forest_kids_sorted recs :
  Forall (λ n, StronglySorted lt (ni_kids n)) (forest_nodes (located_forest recs)).
Proof.
  eapply Forall_impl; [apply (locate_forest_nodes _ _ (locate_forest_build recs))|].
  simpl. intros n (c & Hc & _ & ->).
  eapply sound_replies_sorted; [apply build_records_sound|done].
Qed.

Lemma dict_fields_erase t : dict_fields (erase t) = loc_fields t.
Proof. by destruct t. Qed.

Lemma locate_depth_invariant (h : heap) fuel r t :
  (∀ p c r, h !! p = Some c → r ∈ replies c →
     depth_at h r (indent_level (fields c) + 1)) →
  locate fuel h r = Some t →
  (∃ c, h !! r = Some c ∧ loc_fields t = fields c)
  ∧ depth_invariant (erase t) = true.
Proof.
  intros Hedges.
  apply (locate_elim h (λ r t, (∃ c, h !! r = Some c ∧ loc_fields t = fields c)
                               ∧ depth_invariant (erase t) = true)).
  intros r' c kids Hc Hkids. split; [by exists c|]. simpl.
  apply forallb_forall. intros d (k & <- & Hk)%in_map_iff.
  apply list_elem_of_In, list_elem_of_lookup in Hk as [i Hi].
  destruct (Forall2_lookup_r _ _ _ _ _ Hkids Hi) as (q & Hq & (cq & Hcq & Hf) & Hinv).
  rewrite Hinv, andb_true_r, dict_fields_erase, Hf. apply bool_decide_eq_true.
  apply list_elem_of_lookup_2 in Hq.
  destruct (Hedges _ _ _ Hc Hq) as (cq' & ? & ?). congruence.
Qed.

Lemma locate_levels (h : heap) fuel r t :
  (∀ p c r, h !! p = Some c → r ∈ replies c →
     depth_at h r (indent_level (fields c) + 1)) →
  locate fuel h r = Some t →
  ∀ lvl, depth_at h r (Z.of_nat lvl) →
    Forall (λ n, indent_level (ni_fields n) = Z.of_nat (ni_level n)) (loc_nodes lvl t).
Proof.
  intros Hedges.
  apply (locate_elim h (λ r t, ∀ lvl, depth_at h r (Z.of_nat lvl) →
    Forall (λ n, indent_level (ni_fields n) = Z.of_nat (ni_level n)) (loc_nodes lvl t))).
  intros r' c kids Hc Hkids lvl (c' & Hc' & Hlvl). simplify_eq. simpl.
  constructor; [done|]. apply Forall_flat_map.
  eapply Forall2_Forall_r; [done|]. apply Forall_forall.
  intros q Hq k Hk. apply Hk.
  pose proof (Hedges _ _ _ Hc Hq) as Hd. rewrite Hlvl in Hd.
  by replace (Z.of_nat (S lvl)) with (Z.of_nat lvl + 1) by lia.
Qed.

Lemma forest_stepwise_invariant prev recs :
  stepwise prev recs → forest_invariant (forest recs) = true.
Proof.
  intros Hstep. destruct (build_records_graded _ _ Hstep) as [prev' Hg].
  pose proof (build_records_levelled recs) as Hl.
  pose proof (locate_forest_build recs) as Hf.
  rewrite forest_erase. unfold forest_invariant. apply forallb_forall.
  intros d (t & <- & Ht)%in_map_iff.
  apply list_elem_of_In, list_elem_of_lookup in Ht as [i Hi].
  apply mapM_Some_1 in Hf.
  destruct (Forall2_lookup_r _ _ _ _ _ Hf Hi) as (r & Hr & Hloc).
  destruct (locate_depth_invariant _ _ _ _ (graded_edges _ _ Hg) Hloc)
    as [(c & Hc & Hfc) ->].
  rewrite andb_true_r, dict_fields_erase, Hfc. apply bool_decide_eq_true.
  apply list_elem_of_lookup_2 in Hr.
  pose proof (levelled_roots _ Hl) as Hroots.
  apply (proj1 (Forall_forall _ _) Hroots) in Hr as (c' & ? & ?). congruence.
Qed.

Lemma forest_stepwise_levels prev recs :
  stepwise prev recs →
  Forall (λ n, indent_level (ni_fields n) = Z.of_nat (ni_level n))
         (forest_nodes (located_forest recs)).
Proof.
  intros Hstep. destruct (build_records_graded _ _ Hstep) as [prev' Hg].
  pose proof (build_records_levelled recs) as Hl.
  pose proof (locate_forest_build recs) as Hf.
  apply mapM_Some_1 in Hf. apply Forall_flat_map.
  eapply Forall2_Forall_r; [done|]. apply Forall_forall.
  intros r Hr t Ht. eapply locate_levels; [by apply (graded_edges _ _ Hg)|done|].
  pose proof (levelled_roots _ Hl) as Hroots.
  by apply (proj1 (Forall_forall _ _) Hroots) in Hr.
Qed.

(** ** The builder: records that are kept *)

Lemma lookup_store_place_mono st c p d :
  sound st → store st !! p = Some d →
  ∃ d', store (place st c) !! p = Some d' ∧ fields d' = fields d
        ∧ ∀ r, r ∈ replies d → r ∈ replies d'.
Proof.
  intros Hs Hd. pose proof (lookup_lt_Some _ _ _ Hd) as Hp.
  unfold place. case_decide; [|destruct (last _) as [parent|]]; simpl.
  - exists d. by rewrite lookup_app_l.
  - rewrite list_lookup_alter. case_decide as Hpar.
    + subst parent. rewrite lookup_app_l, Hd by done. simpl.
      eexists; split_and!; [done..|]. simpl. intros r Hr. apply elem_of_app. by left.
    + exists d. by rewrite lookup_app_l.
  - exists d. by rewrite lookup_app_l.
Qed.

Lemma place_referenced st c r :
  sound st → referenced st r → referenced (place st c) r.
Proof.
  intros Hs [Hroot|(p & d & Hd & Hr)].
  - left. place_cases; try done.
    apply elem_of_app. by left.
  - right. destruct (lookup_store_place_mono _ c _ _ Hs Hd) as (d' & Hd' & _ & Hsub).
    exists p, d'. split; [done|]. by apply Hsub.
Qed.

Lemma place_attached_root st c :
  sound st → indent_level c = 0 →
  (∀ r, (r < length (store st))%nat → referenced st r) →
  attached (place st c).
Proof.
  intros Hs Hz Hall. split.
  - unfold place. by rewrite decide_True.
  - intros r. rewrite length_store_place. intros Hr.
    destruct (decide (r = length (store st))) as [->|Hne].
    + left. unfold place. rewrite decide_True by done. simpl.
      apply elem_of_app. right. by apply list_elem_of_singleton.
    + apply place_referenced; [done|]. apply Hall. lia.
Qed.

Lemma place_attached st c :
  sound st → 0 ≤ indent_level c → attached st → attached (place st c).
Proof.
  intros Hs Hc [Hstack Hall].
  destruct (decide (indent_level c = 0)) as [Hz|Hz];
    [by apply place_attached_root|].
  assert (∃ parent, last (py_slice_to (comment_stack st) (indent_level c)) = Some parent)
    as [parent Hl].
  { apply last_is_Some. rewrite py_slice_to_nonneg by done.
    destruct (comment_stack st) as [|x l]; [done|].
    destruct (Z.to_nat (indent_level c)) eqn:E; [lia|done]. }
  pose proof (last_py_slice_to_lt _ _ _ Hs Hl) as Hlt.
  destruct (lookup_lt_is_Some_2 _ _ Hlt) as [d0 Hd0].
  split.
  - unfold place. rewrite decide_False, Hl by done. simpl.
    intros Hnil. by apply app_eq_nil in Hnil as [_ ?].
  - intros r. rewrite length_store_place. intros Hr.
    destruct (decide (r = length (store st))) as [->|Hne].
    + right. exists parent, (append_reply (length (store st)) d0). split.
      * unfold place. rewrite decide_False, Hl by done. simpl.
        rewrite list_lookup_alter_eq, lookup_app_l, Hd0 by done. done.
      * simpl. apply elem_of_app. right. by apply list_elem_of_singleton.
    + apply place_referenced; [done|]. apply Hall. lia.
Qed.

Lemma foldl_place_attached recs prev st :
  sound st → stepwise prev recs → attached st → attached (foldl place st recs).
Proof.
  revert prev st. induction recs as [|c recs IH]; intros prev st Hs Hstep Ha; simpl; [done|].
  destruct Hstep as [Hc Hrest].
  eapply IH; [by apply place_sound|done|]. apply place_attached; [done|lia|done].
Qed.

(** When the first depth is 0 and the depths are stepwise, every record is
    attached. *)
Lemma build_records_attached recs :
  stepwise (-1) recs → ∀ r, (r < length recs)%nat → referenced (build_records recs) r.
Proof.
  intros Hstep r Hr. destruct recs as [|c recs]; [simpl in Hr; lia|].
  destruct Hstep as [Hc Hrest].
  rewrite <- length_store_build in Hr. revert r Hr. apply attached_all.
  unfold build_records. simpl.
  eapply foldl_place_attached; [apply place_sound, sound_init|done|].
  apply place_attached_root; [apply sound_init|lia|]. simpl. intros; lia.
Qed.

Lemma loc_nodes_head lvl t :
  ∃ n, n ∈ loc_nodes lvl t ∧ ni_pos n = loc_pos t ∧ ni_level n = lvl.
Proof. destruct t as [p c kids]. eexists. split; [apply list_elem_of_here|done]. Qed.

Lemma elem_of_flat_map {A B} (f : A → list B) (l : list A) (y : B) :
  y ∈ flat_map f l ↔ ∃ x, x ∈ l ∧ y ∈ f x.
Proof.
  rewrite list_elem_of_In, in_flat_map. setoid_rewrite list_elem_of_In. done.
Qed.

Lemma locate_kids_nodes (h : heap) fuel r t :
  locate fuel h r = Some t →
  ∀ lvl n q, n ∈ loc_nodes lvl t → q ∈ ni_kids n →
    ∃ n', n' ∈ loc_nodes lvl t ∧ ni_pos n' = q ∧ ni_level n' = S (ni_level n).
Proof.
  apply (locate_elim h (λ r t, ∀ lvl n q, n ∈ loc_nodes lvl t → q ∈ ni_kids n →
    ∃ n', n' ∈ loc_nodes lvl t ∧ ni_pos n' = q ∧ ni_level n' = S (ni_level n))).
  intros r' c kids Hc Hkids lvl n q. simpl.
  rewrite elem_of_cons. intros [->|Hn] Hq; simpl in *.
  - apply list_elem_of_In, in_map_iff in Hq as (k & <- & Hk).
    destruct (loc_nodes_head (S lvl) k) as (n' & Hn' & Hpos & Hlvl).
    exists n'. split_and!; [|done..]. apply elem_of_cons. right.
    apply elem_of_flat_map. exists k. split; [by apply list_elem_of_In|done].
  - apply elem_of_flat_map in Hn as (k & Hk & Hn).
    apply list_elem_of_lookup in Hk as [i Hi].
    destruct (Forall2_lookup_r _ _ _ _ _ Hkids Hi) as (r'' & _ & HP).
    destruct (HP _ _ _ Hn Hq) as (n' & Hn' & ? & ?).
    exists n'. split_and!; [|done..]. apply elem_of_cons. right.
    apply elem_of_flat_map. exists k. split; [by eapply list_elem_of_lookup_2|done].
Qed.

Lemma forest_kids_nodes st f n q :
  locate_forest st = Some f →
  n ∈ forest_nodes f → q ∈ ni_kids n →
  ∃ n', n' ∈ forest_nodes f ∧ ni_pos n' = q ∧ ni_level n' = S (ni_level n).
Proof.
  intros Hf Hn Hq. apply mapM_Some_1 in Hf.
  apply elem_of_flat_map in Hn as (t & Ht & Hn).
  apply list_elem_of_lookup in Ht as [i Hi].
  destruct (Forall2_lookup_r _ _ _ _ _ Hf Hi) as (r & _ & Hloc).
  destruct (locate_kids_nodes _ _ _ _ Hloc _ _ _ Hn Hq) as (n' & Hn' & ? & ?).
  exists n'. split_and!; [|done..].
  apply elem_of_flat_map. exists t. split; [by eapply list_elem_of_lookup_2|done].
Qed.

(** Every referenced record is a node of the forest. *)
Lemma forest_complete st f :
  sound st → locate_forest st = Some f →
  ∀ r, (r < length (store st))%nat →
    (∀ q, (q ≤ r)%nat → referenced st q) →
    ∃ n, n ∈ forest_nodes f ∧ ni_pos n = r.
Proof.
  intros Hs Hf r. induction (lt_wf r) as [r _ IH]. intros Hr Href.
  destruct (Href r (Nat.le_refl _)) as [Hroot|(p & c & Hc & Hin)].
  - rewrite <- (locate_forest_roots _ _ Hf) in Hroot.
    apply list_elem_of_In, in_map_iff in Hroot as (t & <- & Ht).
    destruct (loc_nodes_head 0 t) as (n & Hn & Hpos & _).
    exists n. split; [|done]. apply elem_of_flat_map. exists t.
    split; [by apply list_elem_of_In|done].
  - pose proof (sound_replies _ Hs _ _ Hc) as Hfw.
    apply (proj1 (Forall_forall _ _) Hfw) in Hin as Hpr.
    destruct (IH p) as (n & Hn & Hpos); [lia|lia|intros; apply Href; lia|].
    pose proof (locate_forest_nodes _ _ Hf) as Hnodes.
    apply (proj1 (Forall_forall _ _) Hnodes) in Hn as Hstore.
    destruct Hstore as (c' & Hc' & _ & Hkids). rewrite Hpos in Hc'. simplify_eq.
    rewrite <- Hkids in Hin.
    destruct (forest_kids_nodes _ _ _ _ Hf Hn Hin) as (n' & ? & ? & _). by exists n'.
Qed.

Lemma forest_stepwise_complete recs r :
  stepwise (-1) recs → (r < length recs)%nat →
  ∃ n, n ∈ forest_nodes (located_forest recs) ∧ ni_pos n = r.
Proof.
  intros Hstep Hr.
  apply (forest_complete (build_records recs));
    [apply build_records_sound|apply locate_forest_build
    |by rewrite length_store_build|].
  intros q Hq. apply build_records_attached; [done|lia].
Qed.

(** A record that nothing refers to is not a node of the forest. *)
Lemma forest_unreferenced st f r :
  locate_forest st = Some f → unreferenced st r →
  (∀ n, n ∈ forest_nodes f → ni_pos n ≠ r ∧ r ∉ ni_kids n).
Proof.
  intros Hf Hu n Hn. split.
  - intros <-. eapply unreferenced_not_referenced; [done|].
    by eapply locate_forest_referenced.
  - pose proof (locate_forest_nodes _ _ Hf) as Hnodes.
    apply (proj1 (Forall_forall _ _) Hnodes) in Hn as (c & Hc & _ & ->).
    destruct Hu as (_ & _ & Hrep). by eapply Hrep.
Qed.

(** ** The builder: records reachable from a root *)

Lemma place_reach st c r : sound st → reach st r → reach (place st c) r.
Proof.
  intros Hs. induction 1 as [r Hr|p d r _ IH Hd Hr].
  - apply reach_root. place_cases; try done.
    apply elem_of_app. by left.
  - destruct (lookup_store_place_mono _ c _ _ Hs Hd) as (d' & Hd' & _ & Hsub).
    apply reach_reply with p d'; [done..|]. by apply Hsub.
Qed.

Lemma foldl_place_reach recs st r :
  sound st → reach st r → reach (foldl place st recs) r.
Proof.
  revert st. induction recs as [|c recs IH]; intros st Hs Hr; simpl; [done|].
  apply IH; [by apply place_sound|by apply place_reach].
Qed.

Lemma not_kept st c :
  ¬ kept st c →
  indent_level c ≠ 0 ∧ py_slice_to (comment_stack st) (indent_level c) = [].
Proof.
  intros Hk. split.
  - intros ?. apply Hk. by left.
  - destruct (py_slice_to _ _) eqn:E; [done|]. exfalso. apply Hk. right.
    by rewrite E.
Qed.

Lemma place_kept_reach st c :
  sound st → Forall (reach st) (comment_stack st) → kept st c →
  reach (place st c) (length (store st)).
Proof.
  intros Hs Hopen Hkept.
  destruct (decide (indent_level c = 0)) as [Hz|Hz].
  { apply reach_root. unfold place. rewrite decide_True by done. simpl.
    apply elem_of_app. right. by apply list_elem_of_singleton. }
  destruct Hkept as [?|Hne]; [done|].
  apply last_is_Some in Hne as [parent Hl].
  pose proof (last_py_slice_to_lt _ _ _ Hs Hl) as Hlt.
  destruct (lookup_lt_is_Some_2 _ _ Hlt) as [d0 Hd0].
  apply reach_reply with parent (append_reply (length (store st)) d0).
  - apply place_reach; [done|].
    apply (proj1 (Forall_forall _ _) Hopen).
    by eapply elem_of_py_slice_to, last_Some_elem_of.
  - unfold place. rewrite decide_False, Hl by done. simpl.
    by rewrite list_lookup_alter_eq, lookup_app_l, Hd0.
  - simpl. apply elem_of_app. right. by apply list_elem_of_singleton.
Qed.

Lemma place_open_reach st c :
  sound st → Forall (reach st) (comment_stack st) →
  Forall (reach (place st c)) (comment_stack (place st c)).
Proof.
  intros Hs Hopen.
  assert (Hcut : Forall (reach (place st c))
                   (py_slice_to (comment_stack st) (indent_level c))).
  { apply Forall_py_slice_to. eapply Forall_impl; [done|].
    intros r. by apply place_reach. }
  destruct (decide (indent_level c = 0
                    ∨ py_slice_to (comment_stack st) (indent_level c) ≠ [])) as [Hk|Hk].
  - pose proof (place_kept_reach _ _ Hs Hopen Hk) as Hnew.
    unfold place in *. case_decide; [|destruct (last _)]; simpl in *.
    + by apply Forall_singleton.
    + apply Forall_app. split; [done|]. by apply Forall_singleton.
    + done.
  - apply not_kept in Hk as [Hz Hnil].
    unfold place in *. rewrite decide_False in * by done.
    rewrite Hnil in *. simpl. constructor.
Qed.

Lemma foldl_place_open_reach recs st :
  sound st → Forall (reach st) (comment_stack st) →
  Forall (reach (foldl place st recs)) (comment_stack (foldl place st recs)).
Proof.
  revert st. induction recs as [|c recs IH]; intros st Hs Hopen; simpl; [done|].
  apply IH; [by apply place_sound|by apply place_open_reach].
Qed.

Lemma build_records_open_reach recs :
  Forall (reach (build_records recs)) (comment_stack (build_records recs)).
Proof. apply foldl_place_open_reach; [apply sound_init|constructor]. Qed.

Lemma build_records_app recs1 recs2 :
  build_records (recs1 ++ recs2) = foldl place (build_records recs1) recs2.
Proof. unfold build_records. apply foldl_app. Qed.

(** A kept record is reachable when the builder returns. *)
Lemma build_records_kept_reach recs1 c recs2 :
  kept (build_records recs1) c →
  reach (build_records (recs1 ++ c :: recs2)) (length recs1).
Proof.
  intros Hk. rewrite build_records_app. simpl.
  apply foldl_place_reach; [apply place_sound, build_records_sound|].
  rewrite <- (length_store_build recs1).
  apply place_kept_reach;
    [apply build_records_sound|apply build_records_open_reach|done].
Qed.

Lemma forest_reach st f r :
  locate_forest st = Some f → reach st r →
  ∃ n, n ∈ forest_nodes f ∧ ni_pos n = r.
Proof.
  intros Hf. induction 1 as [r Hroot|p c r _ (n & Hn & Hpos) Hc Hin].
  - rewrite <- (locate_forest_roots _ _ Hf) in Hroot.
    apply list_elem_of_In, in_map_iff in Hroot as (t & <- & Ht).
    destruct (loc_nodes_head 0 t) as (n & Hn & Hpos & _).
    exists n. split; [|done]. apply elem_of_flat_map. exists t.
    split; [by apply list_elem_of_In|done].
  - pose proof (locate_forest_nodes _ _ Hf) as Hnodes.
    apply (proj1 (Forall_forall _ _) Hnodes) in Hn as Hstore.
    destruct Hstore as (c' & Hc' & _ & Hkids). rewrite Hpos in Hc'. simplify_eq.
    rewrite <- Hkids in Hin.
    destruct (forest_kids_nodes _ _ _ _ Hf Hn Hin) as (n' & ? & ? & _). by exists n'.
Qed.

(** A kept record is a node of the forest, at its input position. *)
Lemma forest_kept recs1 c recs2 :
  kept (build_records recs1) c →
  ∃ n, n ∈ forest_nodes (located_forest (recs1 ++ c :: recs2))
       ∧ ni_pos n = length recs1 ∧ ni_fields n = c.
Proof.
  intros Hk.
  destruct (forest_reach _ _ _ (locate_forest_build _)
              (build_records_kept_reach _ _ recs2 Hk)) as (n & Hn & Hpos).
  exists n. split_and!; [done..|].
  pose proof (forest_nodes_in_input (recs1 ++ c :: recs2)) as Hin.
  apply (proj1 (Forall_forall _ _) Hin) in Hn.
  rewrite Hpos, list_lookup_middle in Hn by done. congruence.
Qed.

(** A record that is not kept is not a node of the forest, nor listed in
    the replies of one. *)
Lemma forest_dropped recs1 c recs2 :
  ¬ kept (build_records recs1) c →
  ∀ n, n ∈ forest_nodes (located_forest (recs1 ++ c :: recs2)) →
    ni_pos n ≠ length recs1 ∧ length recs1 ∉ ni_kids n.
Proof.
  intros Hk. apply not_kept in Hk as [Hz Hnil].
  apply (forest_unreferenced (build_records (recs1 ++ c :: recs2)));
    [apply locate_forest_build|].
  rewrite build_records_app. simpl. rewrite <- (length_store_build recs1).
  apply foldl_place_unreferenced.
  - apply place_sound, build_records_sound.
  - rewrite length_store_place. lia.
  - apply place_drop; [apply build_records_sound|done..].
Qed.

(** In a strictly increasing list, order of occurrence and order of value
    agree. *)
Lemma sorted_lookup_lt (l : list nat) i j a b :
  StronglySorted lt l → l !! i = Some a → l !! j = Some b →
  (i < j)%nat → (a < b)%nat.
Proof.
  intros Hs Hi Hj Hij.
  rewrite <- (take_drop_middle l i a Hi) in Hs, Hj.
  apply StronglySorted_app_1_r, StronglySorted_inv in Hs as [_ Hall].
  assert (length (take i l) = i) as Hlen
    by (rewrite length_take; apply lookup_lt_Some in Hi; lia).
  rewrite lookup_app_r in Hj by lia. rewrite Hlen in Hj.
  destruct (j - i)%nat as [|k] eqn:E; [lia|]. simpl in Hj.
  apply (proj1 (Forall_forall _ _) Hall). by eapply list_elem_of_lookup_2.
Qed.

Lemma sorted_lookup_iff (l : list nat) i j a b :
  StronglySorted lt l → l !! i = Some a → l !! j = Some b →
  (i < j)%nat ↔ (a < b)%nat.
Proof.
  intros Hs Hi Hj. split; [by eapply sorted_lookup_lt|].
  intros Hab. destruct (decide (i < j)%nat) as [|Hge]; [done|].
  destruct (decide (i = j)) as [->|Hne]; [simplify_eq; lia|].
  assert (b < a)%nat by (eapply (sorted_lookup_lt l j i); [done..|lia]). lia.
Qed.

(** ** A dropped record leaves no trace in the forest *)

Lemma to_dict_unfold fuel (h : heap) r :
  to_dict (S fuel) h r =
  c ← h !! r; kids ← mapM (to_dict fuel h) (replies c);
  Some (CommentDict (fields c) kids).
Proof. done. Qed.

Lemma to_dict_fuel_S fuel (h : heap) r d :
  to_dict fuel h r = Some d → to_dict (S fuel) h r = Some d.
Proof.
  revert r d. induction fuel as [|n IH]; intros r d; [done|].
  rewrite (to_dict_unfold (S n)), (to_dict_unfold n).
  intros (c & Hc & (kids & Hk & [= <-])%bind_Some)%bind_Some.
  apply bind_Some. exists c. split; [done|].
  apply bind_Some. exists kids. split; [|done].
  apply mapM_Some. apply mapM_Some in Hk.
  eapply Forall2_impl; [done|]. intros r' k. apply IH.
Qed.

Lemma to_dict_fuel_le n m (h : heap) r d :
  (n ≤ m)%nat → to_dict n h r = Some d → to_dict m h r = Some d.
Proof. induction 1; [done|]. intros. by apply to_dict_fuel_S, IHle. Qed.

Lemma shift_inj g r1 r2 : shift g r1 = shift g r2 → r1 = r2.
Proof. unfold shift. repeat case_decide; lia. Qed.

Lemma shift_below g r : (r < g)%nat → shift g r = r.
Proof. unfold shift. intros. by rewrite decide_True. Qed.

Lemma shift_above g r : (g ≤ r)%nat → shift g r = S r.
Proof. unfold shift. intros. rewrite decide_False; [done|lia]. Qed.

Lemma mapM_fmap_compose {A B C} (f : B → option C) (g : A → B) (l : list A) :
  mapM f (g <$> l) = mapM (f ∘ g) l.
Proof.
  induction l as [|x l IH]; [done|]. rewrite fmap_cons.
  change (mapM f (g x :: (g <$> l)))
    with (y ← f (g x); k ← mapM f (g <$> l); mret (y :: k)).
  by rewrite IH.
Qed.

(** Renumbered references read out as the same nested values. *)
Lemma to_dict_shift g (h h' : heap) fuel r :
  (∀ r, h' !! shift g r = shift_comment g <$> h !! r) →
  to_dict fuel h' (shift g r) = to_dict fuel h r.
Proof.
  intros Hrel. revert r. induction fuel as [|n IH]; intros r; [done|]. simpl.
  rewrite Hrel. destruct (h !! r) as [c|]; simpl; [|done].
  rewrite mapM_fmap_compose.
  by rewrite (mapM_ext (to_dict n h' ∘ shift g) (to_dict n h) _ IH).
Qed.

Lemma py_slice_to_fmap {A B} (f : A → B) (l : list A) k :
  py_slice_to (f <$> l) k = f <$> py_slice_to l k.
Proof.
  unfold py_slice_to. rewrite length_fmap. case_decide; by rewrite fmap_take.
Qed.

Lemma shift_comment_append g n c :
  shift_comment g (append_reply n c) = append_reply (shift g n) (shift_comment g c).
Proof. unfold shift_comment, append_reply. simpl. by rewrite fmap_app. Qed.

Lemma place_padded g st st' c :
  sound st → padded g st st' → padded g (place st c) (place st' c).
Proof.
  intros Hs [Hlen Hbound Hstore Hroots Hstack].
  assert (Hnew : shift g (length (store st)) = length (store st'))
    by (rewrite shift_above, Hlen; done).
  assert (Hcell : ∀ r, (store st' ++ [ {| fields := c; replies := [] |} ]) !! shift g r
                    = shift_comment g <$>
                        (store st ++ [ {| fields := c; replies := [] |} ]) !! r).
  { intros r. destruct (decide (r < length (store st))%nat) as [Hr|Hr].
    - rewrite !lookup_app_l; [apply Hstore|done|].
      unfold shift. case_decide; lia.
    - destruct (decide (r = length (store st))) as [->|Hne].
      + rewrite Hnew, !list_lookup_middle by done. done.
      + rewrite !lookup_ge_None_2; [done|rewrite length_app; simpl; lia|].
        rewrite length_app. simpl. unfold shift. case_decide; lia. }
  unfold place. rewrite Hstack, py_slice_to_fmap, fmap_last.
  case_decide as Hz; [|destruct (last _) as [parent|] eqn:Hl]; simpl.
  - split; simpl; rewrite ?length_app; simpl; try lia; try done.
    + by rewrite Hroots, fmap_snoc, Hnew.
    + by rewrite Hnew.
  - pose proof (last_py_slice_to_lt _ _ _ Hs Hl) as Hlt.
    split; simpl; rewrite ?length_alter, ?length_app; simpl; try lia; try done.
    + intros r. rewrite !list_lookup_alter.
      destruct (decide (parent = r)) as [->|Hne].
      * rewrite decide_True by done. rewrite Hcell.
        destruct (_ !! r) as [d|]; simpl; [|done].
        by rewrite shift_comment_append, Hnew.
      * rewrite decide_False by (intros ?%shift_inj; done). apply Hcell.
    + by rewrite fmap_snoc, Hnew.
  - split; simpl; rewrite ?length_app; simpl; try lia; done.
Qed.

Lemma foldl_place_padded recs g st st' :
  sound st → padded g st st' →
  padded g (foldl place st recs) (foldl place st' recs).
Proof.
  revert st st'. induction recs as [|c recs IH]; intros st st' Hs Hp; simpl; [done|].
  apply IH; [by apply place_sound|by apply place_padded].
Qed.

Lemma read_forest_is_Some st : sound st → is_Some (read_forest st).
Proof.
  intros Hs. rewrite read_forest_locate.
  by destruct (locate_forest_is_Some _ Hs) as [f ->].
Qed.

Lemma padded_forest g st st' :
  sound st → padded g st st' → forest_of st' = forest_of st.
Proof.
  intros Hs [Hlen _ Hstore Hroots _].
  destruct (read_forest_is_Some _ Hs) as [f Hf].
  unfold forest_of. rewrite Hf. simpl.
  assert (read_forest st' = Some f) as ->; [|done].
  unfold read_forest in *. rewrite Hroots, mapM_fmap_compose.
  apply mapM_Some. apply mapM_Some in Hf.
  eapply Forall2_impl; [done|]. simpl. intros r d Hd.
  rewrite (to_dict_shift g (store st)) by done.
  eapply to_dict_fuel_le; [|done]. lia.
Qed.

(** The step that drops a record pads the store. *)
Lemma place_drop_padded st c :
  sound st → 0 < indent_level c →
  py_slice_to (comment_stack st) (indent_level c) = [] →
  padded (length (store st)) st (place st c).
Proof.
  intros Hs Hpos Hnil.
  assert (comment_stack st = []) as Hempty.
  { rewrite py_slice_to_nonneg in Hnil by lia.
    destruct (comment_stack st) as [|x l]; [done|].
    destruct (Z.to_nat (indent_level c)) eqn:E; [lia|done]. }
  unfold place. rewrite decide_False by lia. rewrite Hnil. simpl.
  split; simpl.
  - rewrite length_app. simpl. lia.
  - done.
  - intros r. destruct (decide (r < length (store st))%nat) as [Hr|Hr].
    + rewrite shift_below, lookup_app_l by done.
      destruct (store st !! r) as [d|] eqn:Hd; simpl; [|done].
      f_equal. destruct d as [fd rd]. unfold shift_comment. simpl. f_equal.
      pose proof (sound_replies _ Hs _ _ Hd) as Hfw. simpl in Hfw.
      clear -Hfw. induction Hfw as [|x l Hx _ IH]; [done|].
      rewrite fmap_cons, <- IH. f_equal. rewrite shift_below; [done|lia].
    + rewrite shift_above by lia.
      rewrite !lookup_ge_None_2; [done|lia|]. rewrite length_app. simpl. lia.
  - pose proof (sound_roots _ Hs) as Hr. clear -Hr.
    induction Hr as [|x l Hx _ IH]; [done|].
    rewrite fmap_cons, <- IH. f_equal. by rewrite shift_below.
  - by rewrite Hempty.
Qed.

(** The forest of an input with a dropped record is the forest of the
    input without it. *)
Lemma forest_without_dropped recs1 c recs2 :
  0 < indent_level c →
  py_slice_to (comment_stack (build_records recs1)) (indent_level c) = [] →
  forest (recs1 ++ c :: recs2) = forest (recs1 ++ recs2).
Proof.
  intros Hpos Hnil. unfold forest. rewrite !build_records_app. simpl.
  apply (padded_forest (length (store (build_records recs1)))).
  - apply foldl_place_sound, build_records_sound.
  - apply foldl_place_padded; [apply build_records_sound|].
    by apply place_drop_padded; [apply build_records_sound|..].
Qed.

(** ** Renderers *)

(** Induction on nested comment dictionaries. *)
Lemma comment_dict_induction (P : comment_dict → Prop) :
  (∀ c kids, Forall P kids → P (CommentDict c kids)) → ∀ d, P d.
Proof.
  intros Hstep. fix IH 1. intros [c kids]. apply Hstep.
  induction kids as [|k kids IHkids]; constructor; [apply IH|apply IHkids].
Qed.

Lemma comment_type_label lvl : comment_type lvl = compact_label lvl.
Proof. unfold comment_type. destruct lvl; [done|]. rewrite decide_True; [done|lia]. Qed.

Lemma flat_map_flat_map {A B C} (f : A → list B) (g : B → list C) (l : list A) :
  flat_map g (flat_map f l) = flat_map (λ x, flat_map g (f x)) l.
Proof.
  induction l as [|x l IH]; simpl; [done|]. by rewrite flat_map_app, IH.
Qed.

Lemma flat_map_Forall_ext {A B} (f g : A → list B) (l : list A) :
  Forall (λ x, f x = g x) l → flat_map f l = flat_map g l.
Proof. induction 1 as [|x l Hx _ IH]; simpl; [done|]. by rewrite Hx, IH. Qed.

(** The compact printer emits, comment by comment in pre-order, the block
    of that comment. *)
Lemma print_comment_llm_blocks d :
  ∀ lvl, print_comment_llm lvl d
         = flat_map (λ ln, compact_block ln.1 ln.2) (dict_nodes lvl d).
Proof.
  induction d as [c kids IH] using comment_dict_induction. intros lvl. simpl.
  rewrite flat_map_flat_map.
  rewrite (flat_map_Forall_ext
             (λ k, flat_map (λ ln, compact_block ln.1 ln.2) (dict_nodes (S lvl) k))
             (print_comment_llm (S lvl)) kids).
  2:{ eapply Forall_impl; [done|]. simpl. intros k Hk. symmetry. apply Hk. }
  unfold compact_block, llm_header, llm_body, llm_gap. simpl.
  rewrite comment_type_label, <- !app_assoc. do 2 f_equal.
  by destruct lvl.
Qed.

Lemma string_concat_cons sep x (l : list string) :
  l ≠ [] → String.concat sep (x :: l) = x +:+ sep +:+ String.concat sep l.
Proof. by destruct l. Qed.

Lemma string_app_assoc (a b c : string) : (a +:+ b) +:+ c = a +:+ (b +:+ c).
Proof.
  induction a as [|x a IH]; [done|].
  change (String x ((a +:+ b) +:+ c) = String x (a +:+ (b +:+ c))).
  by rewrite IH.
Qed.

Lemma string_concat_app sep (l1 l2 : list string) :
  l1 ≠ [] → l2 ≠ [] →
  String.concat sep (l1 ++ l2)
  = String.concat sep l1 +:+ sep +:+ String.concat sep l2.
Proof.
  intros H1 H2. induction l1 as [|x l1 IH]; [done|].
  destruct l1 as [|y l1].
  - simpl. by destruct l2.
  - change ((x :: y :: l1) ++ l2) with (x :: ((y :: l1) ++ l2)).
    rewrite !string_concat_cons, IH by done. by rewrite !string_app_assoc.
Qed.

Lemma string_concat_flatten sep (ls : list (list string)) :
  Forall (λ l, l ≠ []) ls →
  String.concat sep (map (String.concat sep) ls) = String.concat sep (concat ls).
Proof.
  induction 1 as [|l ls Hl Hls IH]; [done|].
  destruct ls as [|l' ls].
  - simpl. by rewrite app_nil_r.
  - change (map (String.concat sep) (l :: l' :: ls))
      with (String.concat sep l :: map (String.concat sep) (l' :: ls)).
    change (concat (l :: l' :: ls)) with (l ++ concat (l' :: ls)).
    rewrite string_concat_cons by done. rewrite IH.
    rewrite string_concat_app; [done..|].
    apply Forall_cons in Hls as [Hl' _]. simpl. by destruct l'.
Qed.

Lemma string_concat_nested sep (pre : list string) (ls : list (list string)) :
  Forall (λ l, l ≠ []) ls →
  String.concat sep (pre ++ map (String.concat sep) ls)
  = String.concat sep (pre ++ concat ls).
Proof.
  intros Hls. destruct ls as [|l ls]; [done|].
  destruct pre as [|p pre]; [by apply string_concat_flatten|].
  rewrite !string_concat_app; try done.
  - by rewrite string_concat_flatten.
  - apply Forall_cons in Hls as [Hl _]. simpl. by destruct l.
Qed.

Lemma print_comment_llm_nonempty lvl d : print_comment_llm lvl d ≠ [].
Proof. by destruct d. Qed.

(** The server's formatter returns the lines of the printer, joined. *)
Lemma format_comment_llm_join d :
  ∀ lvl, format_comment_llm lvl d = py_join newline (print_comment_llm lvl d).
Proof.
  induction d as [c kids IH] using comment_dict_induction. intros lvl.
  change (format_comment_llm lvl (CommentDict c kids))
    with (py_join newline
            (llm_header lvl c :: llm_body lvl c ++ llm_gap lvl kids
             ++ map (format_comment_llm (S lvl)) kids)).
  change (print_comment_llm lvl (CommentDict c kids))
    with (llm_header lvl c :: llm_body lvl c ++ llm_gap lvl kids
          ++ flat_map (print_comment_llm (S lvl)) kids).
  unfold py_join in *.
  assert (map (format_comment_llm (S lvl)) kids
          = map (String.concat newline) (map (print_comment_llm (S lvl)) kids)) as ->.
  { rewrite map_map. apply map_ext_Forall.
    eapply Forall_impl; [done|]. simpl. intros k Hk. apply Hk. }
  rewrite flat_map_concat_map, !app_comm_cons, !app_assoc.
  apply string_concat_nested.
  apply Forall_forall. intros l (k & <- & _)%list_elem_of_In%in_map_iff.
  apply print_comment_llm_nonempty.
Qed.

Lemma locate_depth_labels (h : heap) fuel r t :
  (∀ p c r, h !! p = Some c → r ∈ replies c → ∃ d, d ≠ 0 ∧ depth_at h r d) →
  locate fuel h r = Some t →
  (∃ c, h !! r = Some c ∧ loc_fields t = fields c)
  ∧ ∀ lvl, Forall (λ ln, (lvl < ln.1)%nat ∧ depth_label_ok ln)
                  (flat_map (dict_nodes (S lvl)) (dict_replies (erase t))).
Proof.
  intros Hrep.
  apply (locate_elim h (λ r t, (∃ c, h !! r = Some c ∧ loc_fields t = fields c)
    ∧ ∀ lvl, Forall (λ ln, (lvl < ln.1)%nat ∧ depth_label_ok ln)
                    (flat_map (dict_nodes (S lvl)) (dict_replies (erase t))))).
  intros r' c kids Hc Hkids. split; [by exists c|]. intros lvl. simpl.
  apply Forall_flat_map, Forall_forall.
  intros d (k & <- & Hk)%list_elem_of_In%in_map_iff.
  apply list_elem_of_In, list_elem_of_lookup in Hk as [i Hi].
  destruct (Forall2_lookup_r _ _ _ _ _ Hkids Hi) as (q & Hq & (cq & Hcq & Hf) & Hall).
  apply list_elem_of_lookup_2 in Hq.
  destruct (Hrep _ _ _ Hc Hq) as (dq & Hdq & (cq' & ? & ?)). simplify_eq.
  specialize (Hall (S lvl)). destruct k as [pk ck kk]. simpl in *.
  constructor.
  - simpl. split; [lia|]. unfold depth_label_ok. simpl. rewrite Hf.
    split; [lia|done].
  - eapply Forall_impl; [done|]. simpl. intros ln [Hle Hln]. split; [lia|done].
Qed.

Lemma forest_depth_labels recs :
  Forall (λ d, Forall depth_label_ok (dict_nodes 0 d)) (forest recs).
Proof.
  pose proof (build_records_levelled recs) as Hl.
  pose proof (locate_forest_build recs) as Hf.
  rewrite forest_erase. apply Forall_fmap.
  apply mapM_Some_1 in Hf. eapply Forall2_Forall_r; [done|].
  apply Forall_forall. intros r Hr t Ht. simpl.
  destruct (locate_depth_labels _ _ _ _ (levelled_replies _ Hl) Ht)
    as [(c & Hc & Hfc) Hall].
  specialize (Hall 0%nat). destruct t as [pt ct kt]. simpl in *.
  constructor.
  - unfold depth_label_ok. simpl. split; [intros _|done].
    pose proof (levelled_roots _ Hl) as Hroots.
    apply (proj1 (Forall_forall _ _) Hroots) in Hr as (c' & ? & ?). congruence.
  - eapply Forall_impl; [done|]. simpl. by intros ln [_ ?].
Qed.

(** ** Extraction of the records *)

Lemma extract_records_lookup rows recs i r :
  extract_records rows = Returned recs → rows !! i = Some r →
  ∃ c, comment_of_row r = Returned c ∧ recs !! i = Some c.
Proof.
  revert recs i. induction rows as [|r0 rows IH]; intros recs i; [done|]. simpl.
  destruct (comment_of_row r0) as [c0|] eqn:Hc0; simpl; [|done].
  destruct (extract_records rows) as [cs|]; simpl; [|done].
  intros [= <-]. destruct i as [|i]; simpl.
  - intros [= <-]. by exists c0.
  - by apply IH.
Qed.

Lemma length_extract_records rows recs :
  extract_records rows = Returned recs → length recs = length rows.
Proof.
  revert recs. induction rows as [|r0 rows IH]; intros recs; simpl.
  - by intros [= <-].
  - destruct (comment_of_row r0); simpl; [|done].
    destruct (extract_records rows) as [cs|]; simpl; [|done].
    intros [= <-]. simpl. by rewrite (IH cs).
Qed.

(** The first loop of [extract_comments] raises exactly when reading the
    rows raises, and the same exception. *)
Lemma first_pass_records rows top :
  match extract_records rows with
  | Raised e => first_pass rows top = Raised e
  | Returned _ => ∃ top', first_pass rows top = Returned top'
  end.
Proof.
  revert top. induction rows as [|r rows IH]; intros top; simpl; [by eexists|].
  unfold comment_of_row. destruct (indent_of_row r) as [lvl|e]; simpl; [|done].
  destruct (commtext r) as [t|]; destruct (extract_records rows); simpl; apply IH.
Qed.

Lemma extract_comments_records rows :
  extract_comments rows = do recs <- extract_records rows; Returned (forest recs).
Proof.
  unfold extract_comments. rewrite build_nested_structure_records.
  pose proof (first_pass_records rows []) as H.
  destruct (extract_records rows); [destruct H as [top' ->]|rewrite H]; done.
Qed.

Lemma parse_hn_comments_records w item_id :
  parse_hn_comments w item_id =
  do doc <- fetch_thread w item_id;
  do recs <- extract_records (doc_rows doc);
  Returned {| story := doc_story doc; comments := forest recs;
              total_comments := length (forest recs) |}.
Proof.
  unfold parse_hn_comments. destruct (fetch_thread w item_id) as [doc|]; simpl; [|done].
  rewrite extract_comments_records. by destruct (extract_records (doc_rows doc)).
Qed.

(** ** The roots of the forest are the records of depth 0 *)

Lemma length_roots_foldl recs st :
  length (all_comments (foldl place st recs))
  = (length (all_comments st) + length (top_level recs))%nat.
Proof.
  revert st. induction recs as [|c recs IH]; intros st; simpl; [lia|].
  rewrite IH. unfold top_level. rewrite filter_cons. unfold place.
  case_decide; [|destruct (last _)]; simpl; rewrite ?length_app; simpl; lia.
Qed.

Lemma length_forest recs : length (forest recs) = length (top_level recs).
Proof.
  pose proof (read_forest_build recs) as H. apply length_mapM in H.
  rewrite <- H. unfold build_records. by rewrite length_roots_foldl.
Qed.

Lemma forest_nonempty recs c :
  c ∈ recs → indent_level c = 0 → forest recs ≠ [].
Proof.
  intros Hin Hz Hnil. pose proof (length_forest recs) as Hlen.
  rewrite Hnil in Hlen. simpl in Hlen.
  assert (c ∈ top_level recs) as Hc by (by apply list_elem_of_filter).
  destruct (top_level recs); [by apply not_elem_of_nil in Hc|done].
Qed.

(** ** The scrape client *)

(** [scrape_url] raises nothing but [FirecrawlError]. *)
Lemma scrape_url_raises w url key omc formats e :
  scrape_url w url key omc formats = Raised e → ∃ msg, e = FirecrawlError msg.
Proof.
  unfold scrape_url.
  destruct (match key with Some k => Some k | None => env_api_key w end) as [k|];
    [|intros [= <-]; by eexists].
  destruct (py_truthy k); [|intros [= <-]; by eexists].
  destruct (post_scrape w _); intros [= <-]; by eexists.
Qed.

(** [get_markdown] returns exactly on a dictionary whose ['data'] entry is
    a dictionary with a ['markdown'] entry, and returns that entry. *)
Lemma get_markdown_returned w data v :
  get_markdown w data = Returned v
  ↔ ∃ entries shown keys entries' shown' keys',
      data = JObject entries shown keys
      ∧ entries !! "data" = Some (JObject entries' shown' keys')
      ∧ entries' !! "markdown" = Some v.
Proof.
  unfold get_markdown. split.
  - destruct data as [|b|z t|s|items t|entries shown keys]; simpl; try done.
    + by destruct (py_in "data" s).
    + by destruct (existsb _ items).
    + destruct (entries !! "data") as [inner|] eqn:Hd; simpl; [|done].
      destruct inner as [|b|z t|s|items t|entries' shown' keys']; simpl; try done.
      * by destruct (py_in "markdown" s).
      * by destruct (existsb _ items).
      * destruct (entries' !! "markdown") as [x|] eqn:Hm; simpl; [|done].
        intros [= <-]. by eauto 10.
  - intros (entries & shown & keys & entries' & shown' & keys' & -> & Hd & Hm).
    simpl. rewrite Hd. simpl. by rewrite Hm.
Qed.

(** What [get_markdown] raises is a [FirecrawlError] or the exception of
    an operation the interpreter refuses. *)
Lemma get_markdown_raises w data e :
  get_markdown w data = Raised e →
  (∃ msg, e = FirecrawlError msg) ∨ (∃ f, e = OtherException (fault_message w f)).
Proof.
  unfold get_markdown.
  destruct data as [|b|z t|s|items t|entries shown keys]; simpl;
    try (intros [= <-]; right; by eexists).
  - destruct (py_in "data" s); simpl; intros [= <-]; [right|left]; by eexists.
  - destruct (existsb _ items); simpl; intros [= <-]; [right|left]; by eexists.
  - destruct (entries !! "data") as [inner|] eqn:Hd; simpl;
      [|intros [= <-]; left; by eexists].
    destruct inner as [|b|z t|s|items t|entries' shown' keys']; simpl;
      try (intros [= <-]; right; by eexists).
    + destruct (py_in "markdown" s); simpl; intros [= <-]; right; by eexists.
    + destruct (existsb _ items); simpl; intros [= <-]; right; by eexists.
    + destruct (entries' !! "markdown") as [x|] eqn:Hm; simpl; [done|].
      intros [= <-]. left. by eexists.
Qed.

Lemma scrape_markdown_raises w url key omc formats e :
  (do data <- scrape_url w url key omc formats; get_markdown w data) = Raised e →
  (∃ msg, e = FirecrawlError msg) ∨ (∃ f, e = OtherException (fault_message w f)).
Proof.
  destruct (scrape_url w url key omc formats) as [data|e'] eqn:Hs; simpl.
  - apply get_markdown_raises.
  - intros [= <-]. left. by eapply scrape_url_raises.
Qed.

(** ** [get_hn_content] *)

(** A returned result carries the parsed discussion, whatever happened to
    the article. *)
Lemma get_hn_content_returned w hn_url api_key out r :
  get_hn_content w hn_url api_key = (out, Returned r) →
  py_isdigit (cli_item_id hn_url) = true
  ∧ parse_hn_comments w (cli_item_id hn_url) = Returned (hn_comments r).
Proof.
  unfold get_hn_content. fold (cli_item_id hn_url).
  destruct (py_isdigit (cli_item_id hn_url)); simpl; [|done].
  destruct (parse_hn_comments w (cli_item_id hn_url)) as [hn|]; [|done].
  destruct (py_truthy _); simpl; [|by intros [= _ <-]].
  destruct (String.prefix _ _); [by intros [= _ <-]|].
  destruct (rbind _ _) as [md|[]]; by intros [= _ <-].
Qed.

(** With the same thread document, two returned results carry the same
    discussion, whatever the scrape service and the key. *)
Lemma get_hn_content_same_discussion w w' hn_url api_key api_key' out r out' r' :
  (∀ i, fetch_thread w' i = fetch_thread w i) →
  get_hn_content w hn_url api_key = (out, Returned r) →
  get_hn_content w' hn_url api_key' = (out', Returned r') →
  hn_comments r' = hn_comments r.
Proof.
  intros Hsame [_ Hr]%get_hn_content_returned [_ Hr']%get_hn_content_returned.
  unfold parse_hn_comments in *. rewrite Hsame in Hr'. congruence.
Qed.

(** The article is skipped, or the scrape client raises a
    [FirecrawlError]: [get_hn_content] returns the discussion and the
    reason. *)
Lemma get_hn_content_degraded w hn_url api_key hn :
  py_isdigit (cli_item_id hn_url) = true →
  parse_hn_comments w (cli_item_id hn_url) = Returned hn →
  py_truthy (default "" (story_url (story hn))) = false
  ∨ String.prefix hn_site (default "" (story_url (story hn))) = true
  ∨ (∃ msg, (do data <- scrape_url w (default "" (story_url (story hn))) api_key
                          true (Some ["markdown"]);
             get_markdown w data) = Raised (FirecrawlError msg)) →
  ∃ out r reason,
    get_hn_content w hn_url api_key = (out, Returned r)
    ∧ hn_comments r = hn ∧ url_content r = JNull ∧ error r = Some reason
    ∧ py_truthy reason = true.
Proof.
  intros Hdigit Hparse Hcase. unfold get_hn_content. fold (cli_item_id hn_url).
  rewrite Hdigit, Hparse. simpl.
  destruct (py_truthy (default "" (story_url (story hn)))) eqn:Ht; simpl;
    [|by eauto 10].
  destruct (String.prefix hn_site (default "" (story_url (story hn)))) eqn:Hp;
    [by eauto 10|].
  destruct Hcase as [?|[?|[msg Hs]]]; [done..|]. rewrite Hs.
  do 3 eexists. split_and!; [done..|reflexivity].
Qed.

(** ** The article section of the tool's answer *)

Lemma article_content_cases w article_url :
  article_content_of w article_url = no_article_notice
  ∨ (py_truthy article_url = true ∧ String.prefix hn_site article_url = false
     ∧ ((∃ msg, (do data <- scrape_url w article_url None true None;
                 get_markdown w data) = Raised (FirecrawlError msg)
                ∧ article_content_of w article_url
                  = "[Error fetching article content: " +:+ msg +:+ "]")
        ∨ (∃ f, (do data <- scrape_url w article_url None true None;
                 get_markdown w data) = Raised (OtherException (fault_message w f))
                ∧ article_content_of w article_url
                  = "[Unexpected error fetching article: " +:+ fault_message w f +:+ "]")
        ∨ (∃ v, (do data <- scrape_url w article_url None true None;
                 get_markdown w data) = Returned v
                ∧ article_content_of w article_url = py_str v))).
Proof.
  unfold article_content_of.
  destruct (py_truthy article_url); simpl; [|by left].
  destruct (String.prefix hn_site article_url); simpl; [by left|].
  right. split_and!; [done..|].
  destruct (rbind _ _) as [v|e] eqn:Hs.
  - right. right. by exists v.
  - destruct (scrape_markdown_raises _ _ _ _ _ _ Hs) as [[msg ->]|[f ->]].
    + left. by exists msg.
    + right. left. by exists f.
Qed.

(** * Properties beyond the design document *)

(** ** The builder: a record of depth 0 starts afresh *)

Lemma lift_append n m c :
  lift n (append_reply m c) = append_reply (n + m) (lift n c).
Proof. unfold lift, append_reply. simpl. by rewrite fmap_snoc. Qed.

Lemma place_follows st1 st2 st c :
  follows st1 st2 st → follows st1 (place st2 c) (place st c).
Proof.
  intros [Hstore Hroots Hstack].
  assert (Hlen : length (store st) = (length (store st1) + length (store st2))%nat)
    by (by rewrite Hstore, length_app, length_fmap).
  assert (Hcell : store st ++ [ {| fields := c; replies := [] |} ]
                  = store st1 ++ (lift (length (store st1)) <$>
                                    store st2 ++ [ {| fields := c; replies := [] |} ])).
  { by rewrite Hstore, fmap_snoc, <- app_assoc. }
  unfold place. rewrite Hstack, py_slice_to_fmap, fmap_last, Hlen.
  case_decide as Hz; [|destruct (last _) as [parent|] eqn:Hl]; simpl.
  - split; simpl; [done| |done].
    by rewrite Hroots, fmap_snoc, <- app_assoc.
  - split; simpl; [| done |by rewrite fmap_snoc].
    rewrite Hcell, alter_app_r. f_equal. symmetry.
    apply list_fmap_alter, Forall_forall. intros d _. apply lift_append.
  - by split.
Qed.

Lemma foldl_place_follows recs st1 st2 st :
  follows st1 st2 st → follows st1 (foldl place st2 recs) (foldl place st recs).
Proof.
  revert st2 st. induction recs as [|c recs IH]; intros st2 st H; simpl; [done|].
  by apply IH, place_follows.
Qed.

(** Placing a record of depth 0 forgets the stack. *)
Lemma place_root_follows st1 c :
  indent_level c = 0 → follows st1 (place builder_init c) (place st1 c).
Proof.
  intros Hz. unfold place. rewrite !decide_True by done. simpl.
  split; simpl; [done| |]; by rewrite Nat.add_0_r.
Qed.

Lemma to_dict_app_l fuel (h1 h2 : heap) r :
  (∀ p c, h1 !! p = Some c → Forall (λ r, r < length h1)%nat (replies c)) →
  (r < length h1)%nat →
  to_dict fuel (h1 ++ h2) r = to_dict fuel h1 r.
Proof.
  intros Hin. revert r. induction fuel as [|n IH]; intros r Hr; [done|].
  rewrite !to_dict_unfold, lookup_app_l by done.
  destruct (h1 !! r) as [c|] eqn:Hc; simpl; [|done].
  rewrite (Forall_mapM_ext (to_dict n (h1 ++ h2)) (to_dict n h1)); [done|].
  eapply Forall_impl; [by apply (Hin r c)|]. simpl. intros r'. apply IH.
Qed.

Lemma to_dict_app_r fuel (h1 h2 : heap) r :
  to_dict fuel (h1 ++ (lift (length h1) <$> h2)) (length h1 + r) = to_dict fuel h2 r.
Proof.
  revert r. induction fuel as [|n IH]; intros r; [done|].
  rewrite !to_dict_unfold, lookup_app_r by lia.
  replace (length h1 + r - length h1)%nat with r by lia.
  rewrite list_lookup_fmap. destruct (h2 !! r) as [c|]; simpl; [|done].
  rewrite mapM_fmap_compose.
  by rewrite (mapM_ext (to_dict n _ ∘ Nat.add (length h1)) (to_dict n h2) _ IH).
Qed.

Lemma Forall2_and_Forall_l {A B} (P : A → B → Prop) (Q : A → Prop) l k :
  Forall2 P l k → Forall Q l → Forall2 (λ x y, P x y ∧ Q x) l k.
Proof.
  induction 1 as [|x y l k Hxy _ IH]; [constructor|].
  intros [Hx Hl]%Forall_cons. constructor; [done|by apply IH].
Qed.

Lemma follows_forest st1 st2 st :
  sound st1 → sound st2 → follows st1 st2 st →
  forest_of st = forest_of st1 ++ forest_of st2.
Proof.
  intros Hs1 Hs2 [Hstore Hroots _].
  destruct (read_forest_is_Some _ Hs1) as [f1 Hf1].
  destruct (read_forest_is_Some _ Hs2) as [f2 Hf2].
  unfold forest_of. rewrite Hf1, Hf2. simpl.
  assert (read_forest st = Some (f1 ++ f2)) as ->; [|done].
  assert (Hlen : length (store st) = (length (store st1) + length (store st2))%nat)
    by (by rewrite Hstore, length_app, length_fmap).
  unfold read_forest in *. rewrite Hroots. apply mapM_Some, Forall2_app.
  - apply mapM_Some in Hf1. pose proof (sound_roots _ Hs1) as Hr.
    eapply Forall2_impl; [apply (Forall2_and_Forall_l _ _ _ _ Hf1 Hr)|].
    simpl. intros r d [Hd Hlt]. rewrite Hstore, to_dict_app_l; [|..|done].
    + eapply to_dict_fuel_le; [|done]. rewrite length_app. lia.
    + intros p c Hc. eapply Forall_impl; [apply (sound_replies _ Hs1 p c Hc)|].
      simpl; lia.
  - apply mapM_Some in Hf2. apply Forall2_fmap_l.
    eapply Forall2_impl; [done|]. simpl. intros r d Hd.
    rewrite Hstore, to_dict_app_r. eapply to_dict_fuel_le; [|done].
    rewrite length_app, length_fmap. lia.
Qed.

Lemma forest_split_at_root recs1 c recs2 :
  indent_level c = 0 →
  forest (recs1 ++ c :: recs2) = forest recs1 ++ forest (c :: recs2).
Proof.
  intros Hz. unfold forest. rewrite build_records_app. simpl.
  apply follows_forest.
  - apply build_records_sound.
  - apply (build_records_sound (c :: recs2)).
  - unfold build_records at 2. simpl.
    apply foldl_place_follows, place_root_follows. done.
Qed.

(** ** The builder: the roots are the records of depth 0 *)

Lemma omap_Forall_ext {A B} (f g : A → option B) (l : list A) :
  Forall (λ x, f x = g x) l → omap f l = omap g l.
Proof. induction 1 as [|x l Hx _ IH]; csimpl; [done|]. by rewrite Hx, IH. Qed.

Lemma root_fields_place st c :
  sound st →
  root_fields (place st c)
  = root_fields st ++ (if decide (indent_level c = 0) then [c] else []).
Proof.
  intros Hs. unfold root_fields. rewrite fields_store_place.
  assert (Hold : omap (λ r, ((fields <$> store st) ++ [c]) !! r) (all_comments st)
                 = omap (λ r, (fields <$> store st) !! r) (all_comments st)).
  { apply omap_Forall_ext. eapply Forall_impl; [apply (sound_roots _ Hs)|].
    simpl. intros r Hr. apply lookup_app_l. by rewrite length_fmap. }
  unfold place. case_decide; [|destruct (last _)]; simpl; rewrite ?app_nil_r; try done.
  rewrite omap_app, Hold. f_equal. simpl.
  rewrite lookup_app_r; rewrite length_fmap; [|done]. by rewrite Nat.sub_diag.
Qed.

Lemma root_fields_foldl recs st :
  sound st → root_fields (foldl place st recs) = root_fields st ++ top_level recs.
Proof.
  revert st. induction recs as [|c recs IH]; intros st Hs; simpl.
  - by rewrite app_nil_r.
  - rewrite IH, root_fields_place, <- app_assoc by (by try apply place_sound).
    f_equal. unfold top_level. rewrite filter_cons. by case_decide.
Qed.

Lemma forest_of_root_fields st :
  sound st → dict_fields <$> forest_of st = root_fields st.
Proof.
  intros Hs. destruct (read_forest_is_Some _ Hs) as [f Hf].
  unfold forest_of. rewrite Hf. simpl. unfold read_forest in Hf.
  apply mapM_Some in Hf. unfold root_fields.
  induction Hf as [|r d l k Hd _ IH]; [done|]. csimpl.
  destruct (length (store st)) as [|n]; [done|].
  rewrite to_dict_unfold in Hd.
  apply bind_Some in Hd as (c & Hc & (kids & _ & [= <-])%bind_Some).
  rewrite list_lookup_fmap, Hc. csimpl. by rewrite IH.
Qed.

Lemma forest_roots_top_level recs : dict_fields <$> forest recs = top_level recs.
Proof.
  unfold forest, build_records.
  rewrite forest_of_root_fields by apply foldl_place_sound, sound_init.
  by rewrite root_fields_foldl by apply sound_init.
Qed.

(** ** The builder looks at the depths only *)

Lemma comment_map_append f n c :
  comment_map f (append_reply n c) = append_reply n (comment_map f c).
Proof. done. Qed.

Lemma place_builder_map f st c :
  indent_level (f c) = indent_level c →
  place (builder_map f st) (f c) = builder_map f (place st c).
Proof.
  intros Hf. unfold place, builder_map. simpl. rewrite Hf, length_fmap.
  case_decide; [|destruct (last _)]; simpl; rewrite ?fmap_snoc; try done.
  f_equal. symmetry. change ({| fields := f c; replies := [] |})
    with (comment_map f {| fields := c; replies := [] |}).
  rewrite <- fmap_snoc.
  apply list_fmap_alter, Forall_forall. intros d _. apply comment_map_append.
Qed.

Lemma foldl_place_builder_map f recs st :
  (∀ c, indent_level (f c) = indent_level c) →
  foldl place (builder_map f st) (f <$> recs) = builder_map f (foldl place st recs).
Proof.
  intros Hf. revert st. induction recs as [|c recs IH]; intros st; simpl; [done|].
  by rewrite place_builder_map, IH.
Qed.

Lemma to_dict_comment_map f fuel (h : heap) r :
  to_dict fuel (comment_map f <$> h) r = dict_map f <$> to_dict fuel h r.
Proof.
  revert r. induction fuel as [|n IH]; intros r; [done|].
  rewrite !to_dict_unfold, list_lookup_fmap.
  destruct (h !! r) as [c|]; simpl; [|done].
  rewrite (mapM_ext _ _ _ IH), mapM_fmap_option.
  by destruct (mapM (to_dict n h) (replies c)).
Qed.

Lemma forest_of_builder_map f st :
  forest_of (builder_map f st) = dict_map f <$> forest_of st.
Proof.
  unfold forest_of, read_forest, builder_map. simpl. rewrite length_fmap.
  rewrite (mapM_ext _ _ _ (to_dict_comment_map f _ _)), mapM_fmap_option.
  by destruct (mapM _ _).
Qed.

(** ** Rows that cannot be read *)

Lemma comment_of_row_raised r e :
  comment_of_row r = Raised e ↔ ∃ msg, bad_width r msg ∧ e = ValueError msg.
Proof.
  unfold comment_of_row, indent_of_row, bad_width.
  destruct (ind_width r); simpl; split; try done.
  - intros (? & ? & _); done.
  - intros (? & ? & _); done.
  - intros [= <-]. by eexists.
  - by intros (? & [= <-] & ->).
Qed.

Lemma comment_of_row_returned r :
  (∀ msg, ¬ bad_width r msg) → ∃ c, comment_of_row r = Returned c.
Proof.
  unfold comment_of_row, indent_of_row, bad_width. intros H.
  destruct (ind_width r) as [|w|msg]; simpl; try by eexists.
  by destruct (H msg).
Qed.

Lemma extract_records_raised rows e :
  extract_records rows = Raised e ↔
  ∃ i r msg, rows !! i = Some r ∧ bad_width r msg ∧ e = ValueError msg
             ∧ ∀ j r', (j < i)%nat → rows !! j = Some r' → ∀ m, ¬ bad_width r' m.
Proof.
  induction rows as [|r0 rows IH]; simpl.
  { split; [done|]. by intros (i & r & msg & ? & _). }
  destruct (comment_of_row r0) as [c0|e0] eqn:Hc0; simpl.
  - assert (∀ m, ¬ bad_width r0 m) as Hgood.
    { intros m Hm. assert (comment_of_row r0 = Raised (ValueError m)) as Hr
        by (apply comment_of_row_raised; eauto). congruence. }
    destruct (extract_records rows) as [cs|e1]; simpl.
    + split; [done|]. intros (i & r & msg & Hi & Hbad & -> & Hfirst).
      destruct i as [|i]; simpl in Hi; [simplify_eq; by destruct (Hgood msg)|].
      assert (Returned cs = Raised (ValueError msg)) as Habs; [|done].
      apply IH. exists i, r, msg. split_and!; [done..|].
      intros j r' Hj Hr'. apply (Hfirst (S j)); [lia|done].
    + split.
      * intros [= <-]. destruct (proj1 IH eq_refl) as (i & r & msg & Hi & Hbad & -> & Hfirst).
        exists (S i), r, msg. split_and!; [done..|].
        intros [|j] r' Hj; simpl; [by intros [= <-]|].
        apply Hfirst. lia.
      * intros (i & r & msg & Hi & Hbad & -> & Hfirst).
        destruct i as [|i]; simpl in Hi; [simplify_eq; by destruct (Hgood msg)|].
        f_equal. assert (Raised (A:=list comment_fields) e1 = Raised (ValueError msg)) as Heq;
          [|by injection Heq].
        apply IH. exists i, r, msg. split_and!; [done..|].
        intros j r' Hj Hr'. apply (Hfirst (S j)); [lia|done].
  - apply comment_of_row_raised in Hc0 as (msg0 & Hbad0 & ->). split.
    + intros [= <-]. exists 0%nat, r0, msg0. split_and!; [done..|]. intros; lia.
    + intros (i & r & msg & Hi & Hbad & -> & Hfirst).
      destruct i as [|i]; simpl in Hi.
      * simplify_eq. unfold bad_width in *. congruence.
      * destruct (Hfirst 0%nat r0 ltac:(lia) eq_refl msg0). done.
Qed.

(** ** Strings *)

Lemma string_app_cons c (a b : string) : String c a +:+ b = String c (a +:+ b).
Proof. done. Qed.

Lemma string_app_nil_l (a : string) : "" +:+ a = a.
Proof. done. Qed.

Lemma string_length_app (a b : string) :
  String.length (a +:+ b) = (String.length a + String.length b)%nat.
Proof.
  induction a as [|c a IH]; [done|]. rewrite string_app_cons. simpl. by rewrite IH.
Qed.

Lemma prefix_nil s : String.prefix "" s = true.
Proof. by destruct s. Qed.

Lemma prefix_cons c a b : String.prefix (String c a) (String c b) = String.prefix a b.
Proof. simpl. by destruct (Ascii.ascii_dec c c). Qed.

Lemma prefix_app a b : String.prefix a (a +:+ b) = true.
Proof.
  induction a as [|c a IH]; [apply prefix_nil|].
  by rewrite string_app_cons, prefix_cons.
Qed.

Lemma prefix_app_r a b c : String.prefix a b = true → String.prefix a (b +:+ c) = true.
Proof.
  revert a. induction b as [|x b IH]; intros [|y a] H;
    try apply prefix_nil; [done|].
  rewrite string_app_cons. simpl in *.
  destruct (Ascii.ascii_dec y x); [by apply IH|done].
Qed.

Lemma prefix_inv a s : String.prefix a s = true → ∃ b, s = a +:+ b.
Proof.
  revert a. induction s as [|x s IH]; intros [|y a]; simpl; try done.
  - by exists "".
  - by exists (String x s).
  - destruct (Ascii.ascii_dec y x) as [->|]; [|done].
    intros [b ->]%IH. by exists b.
Qed.

Lemma py_repeat_S_r s n : py_repeat s (S n) = py_repeat s n +:+ s.
Proof.
  induction n as [|n IH]; simpl.
  - clear. induction s as [|c s IH]; [done|]. rewrite string_app_cons. by rewrite IH.
  - rewrite string_app_assoc, <- IH. done.
Qed.

Lemma prefix_py_repeat_S s n x :
  String.prefix (py_repeat s n) (py_repeat s (S n) +:+ x) = true.
Proof. rewrite py_repeat_S_r, string_app_assoc. apply prefix_app. Qed.

(** *** Splitting and joining *)

Lemma py_split_from_0 sep c s :
  py_split_from sep 0 (String c s)
  = if String.prefix sep (String c s)
    then "" :: py_split_from sep (String.length sep - 1) s
    else cons_head c (py_split_from sep 0 s).
Proof. done. Qed.

Lemma py_split_from_S sep k c s :
  py_split_from sep (S k) (String c s) = py_split_from sep k s.
Proof. done. Qed.

Lemma py_split_from_nonempty sep skip s : py_split_from sep skip s ≠ [].
Proof.
  revert skip. induction s as [|c s IH]; intros skip; [done|].
  destruct skip; [|rewrite py_split_from_S; apply IH].
  rewrite py_split_from_0. destruct (String.prefix sep (String c s)); [done|].
  specialize (IH 0%nat). by destruct (py_split_from sep 0 s).
Qed.

Lemma py_split_from_skip sep t s :
  py_split_from sep (String.length t) (t +:+ s) = py_split_from sep 0 s.
Proof. induction t as [|c t IH]; [by destruct s|]. by rewrite string_app_cons. Qed.

Lemma string_concat_cons_head sep c (l : list string) :
  l ≠ [] → String.concat sep (cons_head c l) = String c (String.concat sep l).
Proof. destruct l as [|x [|y l]]; done. Qed.

(** [sep.join(s.split(sep)) == s] *)
Lemma py_join_split sep s : sep ≠ "" → py_join sep (py_split sep s) = s.
Proof.
  intros Hsep. unfold py_join, py_split.
  remember (String.length s) as n eqn:Hn. revert s Hn.
  induction (lt_wf n) as [n _ IH]. intros [|c s] Hn; [done|].
  rewrite py_split_from_0.
  destruct (String.prefix sep (String c s)) eqn:Hp.
  - apply prefix_inv in Hp as [b Hb]. destruct sep as [|c0 sep']; [done|].
    rewrite string_app_cons in Hb. injection Hb as -> ->.
    replace (String.length (String c0 sep') - 1)%nat with (String.length sep')
      by (simpl; lia).
    rewrite py_split_from_skip.
    rewrite string_concat_cons by apply py_split_from_nonempty.
    rewrite (IH (String.length b)); [done| |done].
    subst n. simpl. rewrite string_length_app. lia.
  - rewrite string_concat_cons_head by apply py_split_from_nonempty.
    rewrite (IH (String.length s)); [done| |done]. subst n. simpl. lia.
Qed.

Lemma string_concat_middle sep (a l b : list string) :
  a ≠ [] → l ≠ [] → b ≠ [] →
  String.concat sep (a ++ String.concat sep l :: b) = String.concat sep (a ++ l ++ b).
Proof.
  intros Ha Hl Hb.
  rewrite (string_concat_app sep a (_ :: b)), (string_concat_app sep a (l ++ b));
    [|done|by destruct l|done..].
  by rewrite string_concat_cons, string_concat_app, ?string_app_assoc.
Qed.

(** ** Renderers: indentation *)

Lemma Forall_prefix_weaken s n (lines : list string) :
  Forall (λ line, String.prefix (py_repeat s (S n)) line = true) lines →
  Forall (λ line, String.prefix (py_repeat s n) line = true) lines.
Proof.
  intros H. eapply Forall_impl; [done|]. simpl.
  intros line [b ->]%prefix_inv. apply prefix_py_repeat_S.
Qed.

Lemma Forall_prefix_map p (f : string → string) (l : list string) :
  (∀ x, f x = p +:+ f x ∨ ∃ y, f x = p +:+ y) →
  Forall (λ line, String.prefix p line = true) (map f l).
Proof.
  intros Hf. apply Forall_forall. intros line (x & <- & _)%list_elem_of_In%in_map_iff.
  destruct (Hf x) as [->|[y ->]]; apply prefix_app.
Qed.

Lemma print_comment_llm_indented d :
  ∀ n, Forall (λ line, String.prefix (py_repeat "  " n) line = true)
              (print_comment_llm n d).
Proof.
  induction d as [c kids IH] using comment_dict_induction. intros n.
  change (print_comment_llm n (CommentDict c kids))
    with (llm_header n c :: llm_body n c ++ llm_gap n kids
          ++ flat_map (print_comment_llm (S n)) kids).
  constructor; [apply prefix_app|]. rewrite !Forall_app. split_and!.
  - apply Forall_prefix_map. intros x. right. by eexists.
  - unfold llm_gap. case_decide as Hn; [subst n|constructor].
    destruct kids; repeat constructor.
  - apply Forall_flat_map. eapply Forall_impl; [done|]. simpl.
    intros k Hk. apply Forall_prefix_weaken, Hk.
Qed.

Lemma print_comment_indented d :
  ∀ n, Forall (λ line, String.prefix (py_repeat "  " n) line = true)
              (print_comment n d).
Proof.
  induction d as [c kids IH] using comment_dict_induction. intros n.
  change (print_comment n (CommentDict c kids))
    with ([py_repeat "  " n +:+ py_repeat "─" 60;
           py_repeat "  " n +:+ "Author: " +:+ author c;
           py_repeat "  " n +:+ "Time: " +:+ time c;
           py_repeat "  " n +:+ "ID: " +:+ comment_id c;
           py_repeat "  " n +:+ "Text:"]
          ++ map (λ line, py_repeat "  " n +:+ "  " +:+ line) (py_split newline (text c))
          ++ match kids with
             | [] => []
             | _ => (py_repeat "  " n +:+ "Replies: " +:+ pretty (length kids))
                    :: flat_map (print_comment (S n)) kids
             end).
  rewrite !Forall_app. split_and!.
  - repeat constructor; apply prefix_app.
  - apply Forall_prefix_map. intros x. right. by eexists.
  - destruct kids as [|k kids]; [constructor|].
    constructor; [apply prefix_app|].
    apply Forall_flat_map. eapply Forall_impl; [done|]. simpl.
    intros k' Hk. apply Forall_prefix_weaken, Hk.
Qed.

(** ** Renderers: the verbose printer, comment by comment *)

Lemma print_comment_blocks d :
  ∀ lvl, print_comment lvl d
         = flat_map (λ ln, verbose_block ln.1 ln.2) (dict_nodes lvl d).
Proof.
  induction d as [c kids IH] using comment_dict_induction. intros lvl.
  change (dict_nodes lvl (CommentDict c kids))
    with ((lvl, CommentDict c kids) :: flat_map (dict_nodes (S lvl)) kids).
  change (flat_map ?f (?x :: ?l)) with (f x ++ flat_map f l).
  rewrite flat_map_flat_map.
  rewrite (flat_map_Forall_ext
             (λ k, flat_map (λ ln, verbose_block ln.1 ln.2) (dict_nodes (S lvl) k))
             (print_comment (S lvl)) kids).
  2:{ eapply Forall_impl; [done|]. simpl. intros k Hk. symmetry. apply Hk. }
  unfold verbose_block. simpl. rewrite <- !app_assoc. simpl. do 6 f_equal.
  by destruct kids.
Qed.

(** ** Renderers: the text of a comment *)

Lemma llm_body_top c : llm_body 0 c = py_split newline (text c).
Proof. unfold llm_body. simpl. apply map_id. Qed.

Lemma format_comment_llm_leaf c :
  format_comment_llm 0 (CommentDict c []) = llm_header 0 c +:+ newline +:+ text c.
Proof.
  rewrite format_comment_llm_join.
  change (print_comment_llm 0 (CommentDict c []))
    with (llm_header 0 c :: llm_body 0 c ++ []).
  rewrite app_nil_r, llm_body_top. unfold py_join.
  rewrite string_concat_cons by apply py_split_from_nonempty.
  do 2 f_equal. by apply (py_join_split newline).
Qed.

(** ** Renderers: the server's discussion and the printer's lines *)

Lemma format_comments_join sep (h : nat → string) (P : comment_dict → list string)
    (cs : list comment_dict) (pre : list string) :
  pre ≠ [] → (∀ d, P d ≠ []) →
  String.concat sep (pre ++ concat (imap (λ i d, [h i; String.concat sep (P d); ""]) cs))
  = String.concat sep (pre ++ concat (imap (λ i d, h i :: P d ++ [""]) cs)).
Proof.
  intros Hpre HP. revert h pre Hpre. induction cs as [|d cs IH]; intros h pre Hpre; [done|].
  rewrite !imap_cons. simpl concat.
  change (pre ++ (h 0%nat :: String.concat sep (P d) :: "" :: ?rest))
    with (pre ++ [h 0%nat] ++ String.concat sep (P d) :: [""] ++ rest).
  rewrite (app_assoc pre [h 0%nat]).
  rewrite string_concat_middle; [|by destruct pre|apply HP|done].
  rewrite <- !app_assoc.
  specialize (IH (h ∘ S) (pre ++ [h 0%nat] ++ P d ++ [""])).
  rewrite <- !app_assoc in IH. simpl in IH |- *.
  apply IH. by destruct pre.
Qed.

Lemma format_hn_discussion_lines hn :
  format_hn_discussion hn
  = py_join newline (llm_story_lines (story hn) (total_comments hn)
                     ++ print_comments_llm (comments hn)).
Proof.
  unfold format_hn_discussion, print_comments_llm, py_join.
  rewrite <- (format_comments_join newline (λ i, "COMMENT #" +:+ pretty (S i))
                (print_comment_llm 0));
    [|done|intros; apply print_comment_llm_nonempty].
  do 3 f_equal. apply imap_ext. intros i d _. simpl.
  by rewrite format_comment_llm_join.
Qed.

(** ** Item identifiers *)

Lemma prefix_cons_ne a b s1 s2 :
  a ≠ b → String.prefix (String a s1) (String b s2) = false.
Proof. intros Hne. simpl. by destruct (Ascii.ascii_dec a b). Qed.

Lemma py_in_unfold sub c s :
  py_in sub (String c s) = String.prefix sub (String c s) || py_in sub s.
Proof. done. Qed.

Lemma py_in_prefix sub s : String.prefix sub s = true → py_in sub s = true.
Proof.
  intros H. destruct s as [|c s]; [|by rewrite py_in_unfold, H].
  change (String.prefix sub "" || false = true). by rewrite H.
Qed.

Lemma py_in_app_r sub a s : py_in sub s = true → py_in sub (a +:+ s) = true.
Proof.
  intros H. induction a as [|c a IH]; [done|].
  by rewrite string_app_cons, py_in_unfold, IH, orb_true_r.
Qed.

Lemma digit_not_space c : is_digit c = true → is_space c = false.
Proof.
  unfold is_digit, is_space. intros H. destruct (Ascii.nat_of_ascii c) as [|n]; [done|].
  apply andb_true_iff in H as [H1 H2].
  apply Nat.leb_le in H1, H2.
  apply orb_false_iff. split; apply andb_false_iff; right; apply Nat.leb_gt; lia.
Qed.

Lemma py_strip_digits id : all_digits id = true → py_strip id = id.
Proof.
  intros H. unfold py_strip.
  assert (py_lstrip id = id) as ->.
  { destruct id as [|c id]; [done|]. simpl in *.
    apply andb_true_iff in H as [Hc _]. by rewrite (digit_not_space c Hc). }
  induction id as [|c id IH]; [done|]. simpl in *.
  apply andb_true_iff in H as [Hc Hid]. rewrite IH by done.
  destruct id; [by rewrite (digit_not_space c Hc)|done].
Qed.

Lemma head_cons_head c (l : list string) :
  l ≠ [] → head (cons_head c l) = String c <$> head l.
Proof. by destruct l. Qed.

(** The piece before the first ampersand of digits followed by nothing or
    by an ampersand. *)
Lemma head_split_amp id rest :
  all_digits id = true → rest = "" ∨ (∃ r, rest = "&" +:+ r) →
  head (py_split "&" (id +:+ rest)) = Some id.
Proof.
  intros Hid Hrest. unfold py_split. induction id as [|c id IH].
  - destruct Hrest as [->|[r ->]]; [done|].
    rewrite string_app_nil_l, string_app_cons, py_split_from_0, prefix_cons, prefix_nil.
    done.
  - simpl in Hid. apply andb_true_iff in Hid as [Hc Hid].
    rewrite string_app_cons, py_split_from_0, prefix_cons_ne.
    + rewrite head_cons_head by apply py_split_from_nonempty. by rewrite IH.
    + intros Heq. rewrite <- Heq in Hc. by cbv in Hc.
Qed.

Lemma py_split_item_url x :
  py_split "item?id=" (item_url x)
  = "https://news.ycombinator.com/" :: py_split "item?id=" x.
Proof.
  unfold py_split, item_url. rewrite !string_app_cons, string_app_nil_l.
  repeat (rewrite py_split_from_0;
          first [ rewrite prefix_cons_ne by (intros [=])
                | rewrite prefix_cons, prefix_cons_ne by (intros [=]) ]).
  rewrite py_split_from_0, !prefix_cons, prefix_nil.
  change (String.length "item?id=" - 1)%nat with (String.length "tem?id=").
  rewrite <- (py_split_from_skip "item?id=" "tem?id=" x). reflexivity.
Qed.

Lemma py_in_item_url x : py_in "item?id=" (item_url x) = true.
Proof.
  unfold item_url.
  change "https://news.ycombinator.com/item?id="
    with ("https://news.ycombinator.com/" +:+ "item?id=").
  rewrite string_app_assoc. apply py_in_app_r, py_in_prefix, prefix_app.
Qed.

(** The piece before the first marker, when digits come first and when
    an ampersand comes first. *)
Lemma head_split_marker_digits id rest :
  all_digits id = true →
  head (py_split "item?id=" (id +:+ rest))
  = (λ p, id +:+ p) <$> head (py_split "item?id=" rest).
Proof.
  intros Hid. unfold py_split. induction id as [|c id IH].
  - rewrite string_app_nil_l.
    by destruct (head (py_split_from "item?id=" 0 rest)).
  - simpl in Hid. apply andb_true_iff in Hid as [Hc Hid].
    rewrite string_app_cons, py_split_from_0, prefix_cons_ne.
    + rewrite head_cons_head by apply py_split_from_nonempty.
      rewrite IH by done.
      destruct (head (py_split_from "item?id=" 0 rest)) as [p|]; [|reflexivity].
      cbn. by rewrite string_app_cons.
    + intros Heq. rewrite <- Heq in Hc. by cbv in Hc.
Qed.

Lemma head_split_marker_amp r :
  head (py_split "item?id=" ("&" +:+ r))
  = (λ p, "&" +:+ p) <$> head (py_split "item?id=" r).
Proof.
  unfold py_split. rewrite string_app_cons, string_app_nil_l, py_split_from_0.
  rewrite prefix_cons_ne by (intros [=]).
  rewrite head_cons_head by apply py_split_from_nonempty.
  by destruct (head (py_split_from "item?id=" 0 r)).
Qed.

Lemma head_py_split_is_Some sep s : is_Some (head (py_split sep s)).
Proof.
  unfold py_split. pose proof (py_split_from_nonempty sep 0 s) as H.
  destruct (py_split_from sep 0 s); [done|by eexists].
Qed.

Lemma item_id_of_item_url id rest :
  all_digits id = true →
  rest = "" ∨ (∃ r, rest = "&" +:+ r) →
  item_id_of_url (item_url (id +:+ rest)) = id.
Proof.
  intros Hid Hamp. unfold item_id_of_url.
  rewrite py_split_item_url.
  change (("https://news.ycombinator.com/" :: ?l) !! 1%nat) with (l !! 0%nat).
  rewrite <- head_lookup, head_split_marker_digits by done.
  destruct Hamp as [->|[r ->]].
  - change (head (py_split "item?id=" "")) with (Some "").
    change (default "" ((λ p, id +:+ p) <$> Some "")) with (id +:+ "").
    rewrite head_split_amp; [done|done|by left].
  - rewrite head_split_marker_amp.
    destruct (head_py_split_is_Some "item?id=" r) as [p ->].
    change (default "" ((λ p0, id +:+ p0) <$> ((λ p0, "&" +:+ p0) <$> Some p)))
      with (id +:+ ("&" +:+ p)).
    rewrite head_split_amp; [done|done|]. right. by exists p.
Qed.

Lemma py_isdigit_all_digits id : py_isdigit id = true → all_digits id = true.
Proof. by destruct id. Qed.

(** [get_hn_content] and [main] see their argument through the item
    identifier only. *)
Lemma get_hn_content_item_id w u u' k :
  cli_item_id u = cli_item_id u' → get_hn_content w u k = get_hn_content w u' k.
Proof.
  intros H. unfold get_hn_content. fold (cli_item_id u) (cli_item_id u').
  by rewrite H.
Qed.

(** ** The builder: the replies of a root form a forest one level down *)

Lemma deeper_shallower c : deeper (shallower c) = c.
Proof. destruct c. unfold deeper, shallower. simpl. f_equal. lia. Qed.

Lemma py_slice_to_cons {A} (a : A) l k :
  0 ≤ k → py_slice_to (a :: l) (k + 1) = a :: py_slice_to l k.
Proof.
  intros Hk. rewrite !py_slice_to_nonneg by lia.
  by replace (Z.to_nat (k + 1)) with (S (Z.to_nat k)) by lia.
Qed.

Lemma place_under c st2 st x prev :
  under c st2 st → Z.of_nat (length (comment_stack st2)) = prev + 1 →
  0 ≤ indent_level x ≤ prev + 1 →
  under c (place st2 x) (place st (deeper x))
  ∧ Z.of_nat (length (comment_stack (place st2 x))) = indent_level x + 1.
Proof.
  intros [Hstore Hroots Hstack] Hh Hx.
  assert (Hlen : length (store st) = S (length (store st2)))
    by (by rewrite Hstore; simpl; rewrite !length_fmap).
  assert (Hcell : store st ++ [ {| fields := deeper x; replies := [] |} ]
                  = {| fields := c; replies := S <$> all_comments st2 |}
                    :: (lift 1 <$> (comment_map deeper <$>
                          store st2 ++ [ {| fields := x; replies := [] |} ]))).
  { by rewrite Hstore, !fmap_snoc. }
  unfold place. simpl indent_level. rewrite Hstack, py_slice_to_cons by lia.
  rewrite (decide_False (P := indent_level x + 1 = 0)) by lia.
  rewrite py_slice_to_fmap, last_cons, fmap_last, Hlen, Hcell.
  case_decide as Hz.
  - rewrite Hz, py_slice_to_nonneg by done. simpl. split; [|lia].
    split; simpl; [|done..]. unfold append_reply. simpl. by rewrite (fmap_snoc S).
  - assert (Hcut : length (py_slice_to (comment_stack st2) (indent_level x))
                   = Z.to_nat (indent_level x)).
    { rewrite py_slice_to_nonneg, length_take by lia. lia. }
    destruct (last (py_slice_to (comment_stack st2) (indent_level x))) as [p|] eqn:Hl.
    + simpl. split; [|rewrite length_app, Hcut; simpl; lia].
      split; simpl; [|done|by rewrite fmap_snoc].
      f_equal. rewrite <- !list_fmap_compose. symmetry.
      apply list_fmap_alter, Forall_forall. intros d _. simpl.
      by rewrite comment_map_append, lift_append.
    + apply last_None in Hl. rewrite Hl in Hcut. simpl in Hcut. lia.
Qed.

Lemma foldl_place_under c recs st2 st prev :
  under c st2 st → Z.of_nat (length (comment_stack st2)) = prev + 1 →
  stepwise prev recs →
  under c (foldl place st2 recs) (foldl place st (deeper <$> recs)).
Proof.
  revert st2 st prev. induction recs as [|x recs IH]; intros st2 st prev Hu Hh; [done|].
  intros [Hx Hrest]. destruct (place_under c st2 st x prev Hu Hh Hx) as [Hu' Hh'].
  simpl. by apply (IH _ _ (indent_level x)).
Qed.

Lemma place_root_under c :
  indent_level c = 0 → under c builder_init (place builder_init c).
Proof. intros Hz. unfold place. rewrite decide_True by done. by split. Qed.

Lemma under_forest c st2 st :
  sound st2 → under c st2 st →
  forest_of st = [CommentDict c (dict_map deeper <$> forest_of st2)].
Proof.
  intros Hs [Hstore Hroots _].
  destruct (read_forest_is_Some _ Hs) as [f2 Hf2].
  unfold forest_of. rewrite Hf2. simpl. unfold read_forest in *.
  rewrite Hroots, Hstore. simpl length. rewrite !length_fmap.
  change (mapM ?f [0%nat]) with (x ← f 0%nat; Some [x]).
  rewrite to_dict_unfold. simpl. rewrite mapM_fmap_compose.
  rewrite (mapM_ext _ (λ r, dict_map deeper <$> to_dict (length (store st2)) (store st2) r)).
  - rewrite mapM_fmap_option, Hf2. done.
  - intros r. simpl.
    rewrite <- (to_dict_comment_map deeper).
    apply (to_dict_app_r _ [ {| fields := c; replies := S <$> all_comments st2 |} ]).
Qed.

Lemma forest_under_root c recs :
  indent_level c = 0 → stepwise (-1) recs →
  forest (c :: (deeper <$> recs)) = [CommentDict c (dict_map deeper <$> forest recs)].
Proof.
  intros Hz Hstep. unfold forest. apply under_forest; [apply build_records_sound|].
  unfold build_records. simpl.
  by apply (foldl_place_under c recs builder_init _ (-1)); [apply place_root_under|..].
Qed.

(** ** The builder: the forest lists the page *)

Lemma stepwise_split prev rest :
  0 ≤ prev → stepwise prev rest →
  ∃ sub tail, rest = (deeper <$> sub) ++ tail ∧ stepwise (prev - 1) sub
              ∧ (tail = [] ∨ ∃ c2 t, tail = c2 :: t ∧ indent_level c2 = 0 ∧ stepwise 0 t).
Proof.
  revert prev. induction rest as [|x rest IH]; intros prev Hp; simpl.
  { intros _. exists [], []. split_and!; [done..|by left]. }
  intros [Hx Hrest]. destruct (decide (indent_level x = 0)) as [Hz|Hz].
  - exists [], (x :: rest). split_and!; [done..|]. right. exists x, rest.
    by rewrite <- Hz at 2.
  - destruct (IH (indent_level x) ltac:(lia) Hrest) as (sub & tail & -> & Hsub & Htail).
    exists (shallower x :: sub), tail. split_and!; [|split; simpl; [lia|done]|done].
    change (deeper <$> shallower x :: sub)
      with (deeper (shallower x) :: (deeper <$> sub)).
    by rewrite deeper_shallower.
Qed.

Lemma dict_nodes_deeper d : ∀ lvl,
  node_record <$> dict_nodes (S lvl) (dict_map deeper d)
  = (λ p, (p.1 + 1, deeper p.2)) <$> (node_record <$> dict_nodes lvl d).
Proof.
  induction d as [c kids IH] using comment_dict_induction. intros lvl.
  change (dict_nodes (S lvl) (dict_map deeper (CommentDict c kids)))
    with ((S lvl, CommentDict (deeper c) (map (dict_map deeper) kids))
          :: flat_map (dict_nodes (S (S lvl))) (map (dict_map deeper) kids)).
  change (dict_nodes lvl (CommentDict c kids))
    with ((lvl, CommentDict c kids) :: flat_map (dict_nodes (S lvl)) kids).
  rewrite !fmap_cons. f_equal.
  { unfold node_record. simpl. f_equal. lia. }
  induction IH as [|k kids Hk _ IHkids]; [done|].
  cbn [flat_map map]. rewrite !fmap_app. by rewrite Hk, IHkids.
Qed.

Lemma forest_nodes_deeper (f : list comment_dict) :
  node_record <$> flat_map (dict_nodes 1) (dict_map deeper <$> f)
  = (λ p, (p.1 + 1, deeper p.2)) <$> (node_record <$> flat_map (dict_nodes 0) f).
Proof.
  induction f as [|d f IH]; [done|]. rewrite fmap_cons. cbn [flat_map].
  rewrite !fmap_app. by rewrite dict_nodes_deeper, IH.
Qed.

Lemma forest_preorder_bounded n recs :
  (length recs ≤ n)%nat → stepwise (-1) recs →
  node_record <$> flat_map (dict_nodes 0) (forest recs)
  = (λ c, (indent_level c, c)) <$> recs.
Proof.
  revert recs. induction n as [|n IH]; intros recs Hn Hstep.
  { by destruct recs; [|simpl in Hn; lia]. }
  destruct recs as [|c rest]; [done|]. destruct Hstep as [Hc Hrest].
  assert (indent_level c = 0) as Hz by lia.
  rewrite Hz in Hrest.
  destruct (stepwise_split 0 rest ltac:(lia) Hrest) as (sub & tail & -> & Hsub & Htail).
  simpl in Hn. rewrite length_app, length_fmap in Hn.
  assert (forest (c :: (deeper <$> sub) ++ tail)
          = forest (c :: (deeper <$> sub)) ++ forest tail) as ->.
  { destruct Htail as [->|(c2 & t & -> & Hz2 & _)].
    - by rewrite app_nil_r, (app_nil_r (forest _)).
    - by rewrite app_comm_cons, forest_split_at_root. }
  rewrite forest_under_root by done.
  rewrite flat_map_app, fmap_app. simpl flat_map at 1. rewrite app_nil_r.
  rewrite fmap_cons, forest_nodes_deeper, (IH sub) by (done || lia).
  rewrite (IH tail); [|lia|].
  - rewrite fmap_cons, fmap_app. unfold node_record at 1. simpl. rewrite Hz.
    f_equal. f_equal. rewrite <- !list_fmap_compose. done.
  - destruct Htail as [->|(c2 & t & -> & Hz2 & Ht)]; [done|].
    split; [lia|]. by rewrite Hz2.
Qed.

Lemma all_digits_no_marker_self id :
  all_digits id = true → py_in "item?id=" id = false.
Proof.
  induction id as [|c id IH]; [done|]. simpl all_digits.
  intros [Hc Hid]%andb_true_iff. rewrite py_in_unfold, IH by done.
  rewrite prefix_cons_ne; [done|]. intros Heq. rewrite <- Heq in Hc. by cbv in Hc.
Qed.

Lemma cli_item_id_digits id : py_isdigit id = true → cli_item_id id = id.
Proof.
  intros H%py_isdigit_all_digits. unfold cli_item_id.
  by rewrite all_digits_no_marker_self, py_strip_digits.
Qed.

Lemma extract_item_id_digits id : py_isdigit id = true → extract_item_id id = id.
Proof.
  intros H%py_isdigit_all_digits. unfold extract_item_id.
  by rewrite all_digits_no_marker_self.
Qed.

Lemma cli_item_id_item_url id rest :
  py_isdigit id = true →
  rest = "" ∨ (∃ r, rest = "&" +:+ r) →
  cli_item_id (item_url (id +:+ rest)) = id.
Proof.
  intros H%py_isdigit_all_digits Hamp. unfold cli_item_id.
  by rewrite py_in_item_url, item_id_of_item_url.
Qed.

Lemma extract_item_id_item_url id rest :
  py_isdigit id = true →
  rest = "" ∨ (∃ r, rest = "&" +:+ r) →
  extract_item_id (item_url (id +:+ rest)) = id.
Proof.
  intros H%py_isdigit_all_digits Hamp. unfold extract_item_id.
  by rewrite py_in_item_url, item_id_of_item_url.
Qed.

(** ** What [get_hn_content] returns *)

Lemma get_hn_content_shape w hn_url api_key out r :
  get_hn_content w hn_url api_key = (out, Returned r) →
  (error r = None
   ∧ (do data <- scrape_url w (default "" (story_url (story (hn_comments r))))
                   api_key true (Some ["markdown"]);
      get_markdown w data) = Returned (url_content r))
  ∨ (url_content r = JNull ∧ ∃ msg, error r = Some msg ∧ py_truthy msg = true).
Proof.
  unfold get_hn_content. fold (cli_item_id hn_url).
  destruct (py_isdigit (cli_item_id hn_url)); simpl; [|done].
  destruct (parse_hn_comments w (cli_item_id hn_url)) as [hn|]; [|done].
  destruct (py_truthy _); simpl; [|intros [= _ <-]; right; eauto].
  destruct (String.prefix _ _); [intros [= _ <-]; right; eauto|].
  destruct (rbind _ _) as [md|[]] eqn:Hs; intros [= _ <-]; simpl; [by left|right].
  split; [done|]. eexists. split; [done|]. reflexivity.
Qed.

Lemma parse_hn_comments_same_thread w w' i :
  (∀ i, fetch_thread w' i = fetch_thread w i) →
  parse_hn_comments w' i = parse_hn_comments w i.
Proof. intros H. unfold parse_hn_comments. by rewrite H. Qed.

Lemma build_nested_structure_raised rows e :
  build_nested_structure rows = Raised e → extract_records rows = Raised e.
Proof.
  rewrite build_nested_structure_records.
  destruct (extract_records rows); simpl; [done|]. by intros [= ->].
Qed.

(** ** The scrape client, both steps *)

Lemma scrape_markdown_returned w url api_key only_main_content formats v :
  (do data <- scrape_url w url api_key only_main_content formats; get_markdown w data)
  = Returned v
  ↔ ∃ key entries shown keys entries' shown' keys',
      effective_key w api_key = Some key ∧ key ≠ ""
      ∧ post_scrape w (request_for url key only_main_content formats)
        = PostOk (JObject entries shown keys)
      ∧ entries !! "data" = Some (JObject entries' shown' keys')
      ∧ entries' !! "markdown" = Some v.
Proof.
  unfold scrape_url, effective_key, request_for. split.
  - destruct (match api_key with Some k => Some k | None => env_api_key w end)
      as [key|]; [|done].
    destruct key as [|a key]; [done|]. simpl py_truthy. cbv iota.
    destruct (post_scrape w _) as [| | | | |data] eqn:Hpost; try done.
    simpl.
    intros (entries & shown & keys & entries' & shown' & keys' & -> & Hd & Hm)
      %get_markdown_returned.
    exists (String a key). by eauto 12.
  - intros (key & entries & shown & keys & entries' & shown' & keys'
            & -> & Hkey & Hpost & Hd & Hm).
    destruct key as [|a key]; [done|]. simpl py_truthy. cbv iota.
    rewrite Hpost. simpl. apply get_markdown_returned. by eauto 10.
Qed.

Lemma scrape_formats_default w url api_key only_main_content :
  scrape_url w url api_key only_main_content (Some ["markdown"])
  = scrape_url w url api_key only_main_content None.
Proof. done. Qed.

(** ** Every comment of the discussion is printed *)

Lemma elem_of_concat_imap {A B} (f : nat → A → list B) (l : list A) i y x :
  l !! i = Some y → x ∈ f i y → x ∈ concat (imap f l).
Proof.
  revert f i. induction l as [|a l IH]; intros f i Hi Hx; [done|].
  rewrite imap_cons. simpl. apply elem_of_app. destruct i as [|i]; simpl in Hi.
  - left. by simplify_eq.
  - right. by apply (IH (f ∘ S) i).
Qed.

Lemma printed_comments_blocks compact cs top lvl d :
  top ∈ cs → (lvl, d) ∈ dict_nodes 0 top →
  Forall (λ line, line ∈ printed_comments compact cs)
         (if compact then compact_block lvl d else verbose_block lvl d).
Proof.
  intros [i Hi]%list_elem_of_lookup Hd. apply Forall_forall. intros line Hline.
  unfold printed_comments, print_comments_llm, print_comments_verbose.
  destruct compact; apply (elem_of_concat_imap _ _ i top); try done.
  - apply elem_of_cons. right. apply elem_of_app. left.
    rewrite print_comment_llm_blocks. apply elem_of_flat_map. by exists (lvl, d).
  - apply elem_of_cons. right.
    rewrite print_comment_blocks. apply elem_of_flat_map. by exists (lvl, d).
Qed.

(** * The claims of the design document *)

(** ** Tree builder *)

(** C2, as stated, fails: a record two levels below the record before it
    becomes a reply of that record, so a node of depth 2 hangs under a root
    of depth 0. *)
Lemma tree_invariant_fails_on_jump :
  build_nested_structure jump_rows =
    Returned [CommentDict (CommentFields "1" "alice" "1 hour ago" "first" 0)
                [CommentDict (CommentFields "2" "bob" "1 hour ago" "second" 2) []]]
  ∧ forest_invariant
      [CommentDict (CommentFields "1" "alice" "1 hour ago" "first" 0)
         [CommentDict (CommentFields "2" "bob" "1 hour ago" "second" 2) []]] = false.
Proof. split; vm_compute; reflexivity. Qed.

(** C2, amended: for every input whose depths are non-negative and exceed
    the depth of the record before by at most one (the depth of the first
    record is free), the builder returns a forest with the tree invariant:
    every root has depth 0 and every other node has the depth of its parent
    plus one. *)
Theorem tree_invariant_stepwise prev rows recs :
  extract_records rows = Returned recs →
  stepwise prev recs →
  build_nested_structure rows = Returned (forest recs)
  ∧ forest_invariant (forest recs) = true.
Proof.
  intros Hrows Hstep. split.
  - by rewrite build_nested_structure_records, Hrows.
  - by eapply forest_stepwise_invariant.
Qed.

Lemma scenario_extract : extract_records scenario_rows = Returned scenario_records.
Proof. reflexivity. Qed.

Lemma scenario_stepwise : stepwise (-1) scenario_records.
Proof. simpl. lia. Qed.

Lemma tree_invariant_stepwise_witness :
  build_nested_structure scenario_rows = Returned (forest scenario_records)
  ∧ forest_invariant (forest scenario_records) = true.
Proof.
  exact (tree_invariant_stepwise (-1) scenario_rows scenario_records
           scenario_extract scenario_stepwise).
Defined.

(** C3: when the first depth is 0 and every depth is non-negative and
    exceeds the depth before by at most one, the builder returns a forest in
    which every node is a record of the input and sits at the tree level
    that is the depth of its record, and every record of the input is such
    a node.  The four-record scenario of the design document yields the
    forest written there, whatever the other entries of the records. *)
Theorem depth_stack_correctness :
  (∀ rows recs,
     extract_records rows = Returned recs →
     stepwise (-1) recs →
     build_nested_structure rows = Returned (erase <$> located_forest recs)
     ∧ Forall (λ n, recs !! ni_pos n = Some (ni_fields n)
                    ∧ indent_level (ni_fields n) = Z.of_nat (ni_level n))
              (forest_nodes (located_forest recs))
     ∧ ∀ i, (i < length recs)%nat →
         ∃ n, n ∈ forest_nodes (located_forest recs) ∧ ni_pos n = i)
  ∧ (∀ a1 t1 x1 a2 t2 x2 a3 t3 x3 a4 t4 x4,
       forest [CommentFields "1" a1 t1 x1 0; CommentFields "2" a2 t2 x2 1;
               CommentFields "3" a3 t3 x3 1; CommentFields "4" a4 t4 x4 2]
       = [CommentDict (CommentFields "1" a1 t1 x1 0)
            [CommentDict (CommentFields "2" a2 t2 x2 1) [];
             CommentDict (CommentFields "3" a3 t3 x3 1)
               [CommentDict (CommentFields "4" a4 t4 x4 2) []]]]).
Proof.
  split.
  - intros rows recs Hrows Hstep. split_and!.
    + by rewrite build_nested_structure_records, Hrows, <- forest_erase.
    + apply Forall_and. split; [apply forest_nodes_in_input|].
      by eapply forest_stepwise_levels.
    + intros i Hi. by apply forest_stepwise_complete.
  - intros. vm_compute. reflexivity.
Qed.

Lemma depth_stack_correctness_witness :
  build_nested_structure scenario_rows
    = Returned (erase <$> located_forest scenario_records)
  ∧ Forall (λ n, scenario_records !! ni_pos n = Some (ni_fields n)
                 ∧ indent_level (ni_fields n) = Z.of_nat (ni_level n))
           (forest_nodes (located_forest scenario_records))
  ∧ ∀ i, (i < length scenario_records)%nat →
      ∃ n, n ∈ forest_nodes (located_forest scenario_records) ∧ ni_pos n = i.
Proof.
  exact (proj1 depth_stack_correctness scenario_rows scenario_records
           scenario_extract scenario_stepwise).
Defined.

(** C4: a record of depth greater than 0 that arrives when the cut stack is
    empty is left out of the forest, and nothing is raised: the builder
    returns, and what it returns is the forest of the input without that
    record.  With the nodes told apart by their position in the input: no
    root and no node of the forest is the record, and no node lists it
    among its replies. *)
Theorem malformed_depth_drop recs1 c recs2 :
  0 < indent_level c →
  py_slice_to (comment_stack (build_records recs1)) (indent_level c) = [] →
  let recs := recs1 ++ c :: recs2 in
  let f := located_forest recs in
  (∀ rows, extract_records rows = Returned recs →
     build_nested_structure rows = Returned (forest recs))
  ∧ forest recs = forest (recs1 ++ recs2)
  ∧ forest recs = erase <$> f
  ∧ Forall (λ n, recs !! ni_pos n = Some (ni_fields n)) (forest_nodes f)
  ∧ (length recs1 ∉ loc_pos <$> f)
  ∧ Forall (λ n, ni_pos n ≠ length recs1 ∧ length recs1 ∉ ni_kids n) (forest_nodes f).
Proof.
  intros Hpos Hnil recs f.
  assert (Hdrop : ∀ n, n ∈ forest_nodes f →
            ni_pos n ≠ length recs1 ∧ length recs1 ∉ ni_kids n).
  { apply forest_dropped. intros [?|?]; [lia|done]. }
  split_and!.
  - intros rows Hrows. by rewrite build_nested_structure_records, Hrows.
  - by apply forest_without_dropped.
  - apply forest_erase.
  - apply forest_nodes_in_input.
  - intros (t & Heq & Ht)%list_elem_of_fmap.
    destruct (loc_nodes_head 0 t) as (n & Hn & Hp & _).
    destruct (Hdrop n) as [Hne _]; [|congruence].
    apply elem_of_flat_map. by exists t.
  - by apply Forall_forall.
Qed.

Lemma malformed_depth_drop_witness :
  forest orphan_records = forest (drop 1 orphan_records)
  ∧ (0%nat ∉ loc_pos <$> located_forest orphan_records).
Proof.
  destruct (malformed_depth_drop [] (CommentFields "7" "dave" "now" "orphan" 1)
              [CommentFields "8" "erin" "now" "root" 0;
               CommentFields "9" "fred" "now" "reply" 3])
    as (_ & Hsame & _ & _ & Hroot & _).
  - simpl. lia.
  - reflexivity.
  - split; [exact Hsame|exact Hroot].
Defined.

(** C5: siblings keep the order of the input.  Nodes are told apart by
    their position in the input; for two roots, and for two replies of the
    same node, the one that comes first in the list is the one whose record
    comes first in the input, and conversely. *)
Theorem sibling_order_preserved recs :
  let f := located_forest recs in
  forest recs = erase <$> f
  ∧ Forall (λ n, recs !! ni_pos n = Some (ni_fields n)) (forest_nodes f)
  ∧ (∀ i j a b, (loc_pos <$> f) !! i = Some a → (loc_pos <$> f) !! j = Some b →
       (i < j)%nat ↔ (a < b)%nat)
  ∧ Forall (λ n, ∀ i j a b, ni_kids n !! i = Some a → ni_kids n !! j = Some b →
              (i < j)%nat ↔ (a < b)%nat) (forest_nodes f).
Proof.
  intros f. split_and!.
  - apply forest_erase.
  - apply forest_nodes_in_input.
  - intros i j a b. apply sorted_lookup_iff, forest_roots_sorted.
  - eapply Forall_impl; [apply forest_kids_sorted|]. simpl.
    intros n Hs i j a b. by apply sorted_lookup_iff.
Qed.

(** ** Comment count *)

Lemma total_comments_is_root_count w item_id hn :
  parse_hn_comments w item_id = Returned hn →
  total_comments hn = length (comments hn).
Proof.
  unfold parse_hn_comments. destruct (fetch_thread w item_id); simpl; [|done].
  destruct (extract_comments _); simpl; [|done]. by intros [= <-].
Qed.

(** C1, the code at a thread of one comment and one reply to it: the
    forest holds two comments, [total_comments] is 1.  The field is the
    length of the top-level list, whatever the thread. *)
Theorem total_comments_counts_roots_only :
  (∀ w item_id hn, parse_hn_comments w item_id = Returned hn →
     total_comments hn = length (comments hn))
  ∧ ∃ hn, parse_hn_comments (fixed_world (Document text_post reply_rows) PostTimeout) "1"
          = Returned hn
          ∧ forest_size (comments hn) = 2%nat
          ∧ total_comments hn = 1%nat.
Proof.
  split; [apply total_comments_is_root_count|].
  eexists. split; [vm_compute; reflexivity|]. split; reflexivity.
Qed.

(** ** Compact rendering *)

(** C8, as stated, fails in its last part: two top-level comments without
    replies, the second with an empty text.  The compact rendering has a
    blank line after each of them, and the empty text is one more blank
    line; no comment has a reply. *)
Lemma blank_lines_without_replies :
  build_nested_structure
    [ {| row_id := Some "1"; ind_width := NoWidth; hnuser := Some "alice";
         age := Some (AgeElement None "now"); commtext := Some "first" |};
      {| row_id := Some "2"; ind_width := NoWidth; hnuser := Some "bob";
         age := Some (AgeElement None "now"); commtext := Some "" |} ]
  = Returned [CommentDict (CommentFields "1" "alice" "now" "first" 0) [];
              CommentDict (CommentFields "2" "bob" "now" "" 0) []]
  ∧ print_comments_llm [CommentDict (CommentFields "1" "alice" "now" "first" 0) [];
                        CommentDict (CommentFields "2" "bob" "now" "" 0) []]
    = ["COMMENT #1"; "COMMENT [alice @ now] ID: 1"; "first"; "";
       "COMMENT #2"; "COMMENT [bob @ now] ID: 2"; ""; ""]
  ∧ print_comment_llm 0 (CommentDict (CommentFields "2" "bob" "now" "" 0) [])
    = ["COMMENT [bob @ now] ID: 2"; ""]
  ∧ format_comment_llm 0 (CommentDict (CommentFields "2" "bob" "now" "" 0) [])
    = "COMMENT [bob @ now] ID: 2" +:+ newline.
Proof. split_and!; vm_compute; reflexivity. Qed.

(** C8, amended: in the compact rendering of a forest of the builder, the
    lines of a top-level comment are, for the comment and then its replies
    in pre-order, one header line (label, author, timestamp, id), the body
    lines, and one blank line exactly for a top-level comment that has
    replies, after its body.  The label is "COMMENT" at nesting depth 0 and
    "REPLY" below, which on such a forest is: "COMMENT" for a record of
    depth 0 and "REPLY" for a record of depth greater than 0.  The formatter
    of the server returns the same lines joined by newlines.  In the
    discussion, every top-level comment comes after its numbered heading and
    is followed by one more blank line, with or without replies. *)
Theorem compact_rendering recs :
  Forall (λ d,
      print_comment_llm 0 d
        = flat_map (λ ln, compact_block ln.1 ln.2) (dict_nodes 0 d)
      ∧ format_comment_llm 0 d = py_join newline (print_comment_llm 0 d)
      ∧ Forall (λ ln,
            (0 < indent_level (dict_fields ln.2) → compact_label ln.1 = "REPLY")
            ∧ (indent_level (dict_fields ln.2) = 0 → compact_label ln.1 = "COMMENT"))
          (dict_nodes 0 d))
    (forest recs)
  ∧ print_comments_llm (forest recs)
    = concat (imap (λ i d,
                ["COMMENT #" +:+ pretty (S i)]
                ++ flat_map (λ ln, compact_block ln.1 ln.2) (dict_nodes 0 d)
                ++ [""])
              (forest recs))
  ∧ ∀ s total,
      format_hn_discussion {| story := s; comments := forest recs;
                              total_comments := total |}
      = py_join newline
          (["STORY: " +:+ or_na (story_title s);
            "URL: " +:+ or_na (story_url s);
            "AUTHOR: " +:+ or_na (story_author s) +:+ " | POINTS: "
              +:+ or_na (story_points s) +:+ " | TIME: " +:+ or_na (story_time s);
            "TOTAL_COMMENTS: " +:+ pretty total;
            ""]
           ++ print_comments_llm (forest recs)).
Proof.
  split_and!.
  - eapply Forall_impl; [apply forest_depth_labels|]. simpl. intros d Hd.
    split_and!.
    + apply print_comment_llm_blocks.
    + apply format_comment_llm_join.
    + eapply Forall_impl; [done|]. simpl. intros [lvl n] Hok.
      unfold depth_label_ok in Hok. simpl in *. split.
      * intros Hpos. destruct lvl; [|done]. destruct Hok as [Hok _].
        specialize (Hok eq_refl). lia.
      * intros Hz. apply Hok in Hz. by subst lvl.
  - unfold print_comments_llm. f_equal. apply imap_ext. intros i d _. simpl.
    by rewrite print_comment_llm_blocks.
  - intros s total. apply format_hn_discussion_lines.
Qed.

(** ** Record extraction *)

(** C9, as stated, fails: a row without author and without text container
    whose depth is 1 and which has no open ancestor is read as a record
    with both sentinels, and is not in the forest. *)
Lemma deleted_row_can_be_dropped :
  extract_records orphan_rows
    = Returned [CommentFields "7" "[deleted]" "now" "[deleted]" 1]
  ∧ build_nested_structure orphan_rows = Returned [].
Proof. split; reflexivity. Qed.

(** C9, amended: a row without author is read as a record whose author is
    "[deleted]"; a row without text container is read as a record whose
    body is "[deleted]"; in both cases the depth is the one the indentation
    marker gives, and the record is a node of the forest the builder
    returns unless it is left out as a record of depth other than 0 that
    arrives when the cut stack is empty. *)
Theorem deleted_sentinels rows recs i r :
  extract_records rows = Returned recs →
  rows !! i = Some r →
  ∃ c, recs !! i = Some c
    ∧ (hnuser r = None → author c = "[deleted]")
    ∧ (commtext r = None → text c = "[deleted]")
    ∧ indent_of_row r = Returned (indent_level c)
    ∧ build_nested_structure rows = Returned (erase <$> located_forest recs)
    ∧ (kept (build_records (take i recs)) c →
         ∃ n, n ∈ forest_nodes (located_forest recs)
              ∧ ni_pos n = i ∧ ni_fields n = c).
Proof.
  intros Hrows Hr.
  destruct (extract_records_lookup _ _ _ _ Hrows Hr) as (c & Hc & Hi).
  exists c. unfold comment_of_row in Hc.
  destruct (indent_of_row r) as [lvl|] eqn:Hlvl; simpl in Hc; [|done].
  injection Hc as <-. simpl. split_and!; try done.
  - unfold author_of_row. by intros ->.
  - unfold text_of_row. by intros ->.
  - by rewrite build_nested_structure_records, Hrows, <- forest_erase.
  - intros Hk. pose proof (lookup_lt_Some _ _ _ Hi) as Hlt.
    rewrite <- (take_drop_middle recs i _ Hi).
    rewrite <- (take_drop_middle recs i _ Hi) in Hk at 1.
    assert (length (take i recs) = i) as Hlen by (rewrite length_take; lia).
    rewrite take_app_length' in Hk by done.
    destruct (forest_kept _ _ (drop (S i) recs) Hk) as (n & Hn & Hpos & Hf).
    exists n. by rewrite <- Hlen at 3.
Qed.

Lemma deleted_sentinels_witness :
  ∃ c, scenario_records !! 2%nat = Some c
    ∧ (@None string = None → author c = "[deleted]")
    ∧ (@None string = None → text c = "[deleted]")
    ∧ Returned (40 `div` 40) = Returned (indent_level c)
    ∧ build_nested_structure scenario_rows
        = Returned (erase <$> located_forest scenario_records)
    ∧ (kept (build_records (take 2 scenario_records)) c →
         ∃ n, n ∈ forest_nodes (located_forest scenario_records)
              ∧ ni_pos n = 2%nat ∧ ni_fields n = c).
Proof.
  exact (deleted_sentinels scenario_rows scenario_records 2
           {| row_id := Some "3"; ind_width := Width 40; hnuser := None;
              age := None; commtext := None |}
           scenario_extract eq_refl).
Defined.

(** ** Partial-failure merge *)

(** C6, as stated, fails in its last part: the thread below has a comment
    (at depth 1, with no open ancestor), the article is skipped, and the
    result carries no comment. *)
Lemma degraded_result_can_be_empty :
  let w := fixed_world (Document text_post orphan_rows) PostTimeout in
  doc_rows (Document text_post orphan_rows) ≠ []
  ∧ ∃ out r, get_hn_content w "1" None = (out, Returned r)
             ∧ error r = Some "No URL found in the HN story (might be a text post)"
             ∧ url_content r = JNull
             ∧ comments (hn_comments r) = [].
Proof.
  split; [done|]. do 2 eexists. split; [vm_compute; reflexivity|]. done.
Qed.

(** What the scrape client says of an answer that lacks the entry. *)
Lemma get_markdown_lacking w data :
  lacks_markdown data →
  ∃ msg,
    (msg = "'data' field not found in response. Response: " +:+ py_str data
     ∨ ∃ entries shown keys entries' shown' keys',
         data = JObject entries shown keys
         ∧ entries !! "data" = Some (JObject entries' shown' keys')
         ∧ msg = "'markdown' field not found in data. Available fields: " +:+ keys')
    ∧ get_markdown w data = Raised (FirecrawlError msg).
Proof.
  intros (entries & shown & keys & -> & [Hd|(entries' & shown' & keys' & Hd & Hm)]);
    unfold get_markdown; simpl; rewrite Hd; simpl.
  - eexists. split; [by left|done].
  - rewrite Hm. simpl. eexists. split; [right; by eauto 10|done].
Qed.

(** C6, amended: when the identifier is valid and the thread parses, and
    the article is skipped (empty URL, URL of the forum itself) or its fetch
    fails with an error of the scrape client (no key, timeout, connection,
    HTTP or request error, an answer that is not JSON, an answer that lacks
    the 'data' or the 'markdown' entry), [get_hn_content] returns a result
    without article content, with the reason, and with the whole parsed
    discussion: the forest of the records of the thread, the same as in every
    result returned for that thread document in any world, whatever its
    scrape service and key do, and not empty whenever the thread has a
    comment of depth 0.  The tool of the server puts the rendering of the
    parsed discussion at the end of its answer, whatever the article section
    is. *)
Theorem degraded_merge :
  (∀ w hn_url api_key hn,
     py_isdigit (cli_item_id hn_url) = true →
     parse_hn_comments w (cli_item_id hn_url) = Returned hn →
     py_truthy (default "" (story_url (story hn))) = false
     ∨ String.prefix hn_site (default "" (story_url (story hn))) = true
     ∨ (∃ msg, scrape_url w (default "" (story_url (story hn))) api_key true
                 (Some ["markdown"]) = Raised (FirecrawlError msg))
     ∨ (∃ data, scrape_url w (default "" (story_url (story hn))) api_key true
                  (Some ["markdown"]) = Returned data
                ∧ lacks_markdown data) →
     ∃ out r reason doc recs,
       get_hn_content w hn_url api_key = (out, Returned r)
       ∧ url_content r = JNull
       ∧ error r = Some reason
       ∧ hn_comments r = hn
       ∧ fetch_thread w (cli_item_id hn_url) = Returned doc
       ∧ extract_records (doc_rows doc) = Returned recs
       ∧ hn = {| story := doc_story doc; comments := forest recs;
                 total_comments := length (forest recs) |}
       ∧ (∀ w' api_key' out' r',
            (∀ i, fetch_thread w' i = fetch_thread w i) →
            get_hn_content w' hn_url api_key' = (out', Returned r') →
            hn_comments r' = hn)
       ∧ (∀ c, c ∈ recs → indent_level c = 0 → comments (hn_comments r) ≠ []))
  ∧ (∀ w (args : gmap string string) hn_url hn,
       parse_hn_comments w (extract_item_id hn_url) = Returned hn →
       handle_call_tool w "get_hn_content" (Some (<["hn_url" := hn_url]> args))
       = Returned [ {| content_type := "text";
                       content_text :=
                         "# ARTICLE CONTENT" +:+ newline +:+ newline
                         +:+ article_content_of w (default "" (story_url (story hn)))
                         +:+ newline +:+ newline +:+ "---" +:+ newline +:+ newline
                         +:+ "# HACKER NEWS DISCUSSION" +:+ newline +:+ newline
                         +:+ format_hn_discussion hn |} ]).
Proof.
  split.
  - intros w hn_url api_key hn Hdigit Hparse Hcase.
    destruct (get_hn_content_degraded w hn_url api_key hn Hdigit Hparse)
      as (out & r & reason & Hget & Hhn & Hno & Herr & _).
    { destruct Hcase as [?|[?|[[msg Hs]|(data & Hs & Hlack)]]]; [by left|by eauto|..].
      - right. right. exists msg. by rewrite Hs.
      - right. right. destruct (get_markdown_lacking w data Hlack) as (msg & _ & Hm).
        exists msg. by rewrite Hs. }
    pose proof Hparse as Hrecs. rewrite parse_hn_comments_records in Hrecs.
    destruct (fetch_thread w (cli_item_id hn_url)) as [doc|] eqn:Hdoc;
      simpl in Hrecs; [|done].
    destruct (extract_records (doc_rows doc)) as [recs|] eqn:Hr; simpl in Hrecs; [|done].
    injection Hrecs as Hrecs.
    exists out, r, reason, doc, recs. split_and!; try done.
    + intros w' api_key' out' r' Hsame Hget'. rewrite <- Hhn.
      by eapply get_hn_content_same_discussion.
    + intros c Hc Hz. rewrite Hhn, <- Hrecs. simpl. by eapply forest_nonempty.
  - intros w args hn_url hn Hparse. unfold handle_call_tool. simpl.
    by rewrite lookup_insert_eq, Hparse.
Qed.

Lemma get_hn_content_example :
  get_hn_content (fixed_world (Document linked_story scenario_rows) lost_article) "1" None
  = (["Fetching HN comments for item 1...";
      "Fetching content from: https://example.com/a"],
     Returned {| hn_comments := {| story := linked_story;
                                   comments := forest scenario_records;
                                   total_comments := 1 |};
                 url_content := JNull;
                 content_story_url := Some "https://example.com/a";
                 error := Some ("Failed to fetch URL content: 'markdown' field not "
                                +:+ "found in data. Available fields: ['metadata']") |}).
Proof. vm_compute. reflexivity. Qed.

Lemma lost_article_lacks_markdown :
  ∃ data, lost_article = PostOk data ∧ lacks_markdown data.
Proof.
  eexists. split; [reflexivity|]. do 3 eexists. split; [reflexivity|].
  right. do 3 eexists. split; reflexivity.
Qed.

Lemma degraded_merge_witness :
  ∃ out r reason,
    get_hn_content (fixed_world (Document linked_story scenario_rows) lost_article)
      "1" None = (out, Returned r)
    ∧ error r = Some reason
    ∧ comments (hn_comments r) = forest scenario_records.
Proof.
  destruct lost_article_lacks_markdown as (data & Hpost & Hlack).
  destruct (proj1 degraded_merge
              (fixed_world (Document linked_story scenario_rows) lost_article)
              "1" None
              {| story := linked_story; comments := forest scenario_records;
                 total_comments := 1 |})
    as (out & r & reason & doc & recs & Hget & _ & Herr & Hhn & _);
    [reflexivity|reflexivity| |].
  - right. right. right. exists data. split; [|exact Hlack].
    injection Hpost as <-. reflexivity.
  - exists out, r, reason. split_and!; [exact Hget|exact Herr|by rewrite Hhn].
Defined.

(** C7, as stated, fails in the detail of the outcome: when the response
    has no ['markdown'] entry the result carries the message of the scrape
    client behind a fixed prefix; the text "missing content field" is not
    the detail and does not occur in it. *)
Lemma missing_markdown_detail_differs :
  ∃ out r,
    get_hn_content (fixed_world (Document linked_story scenario_rows) lost_article) "1" None
      = (out, Returned r)
    ∧ url_content r = JNull
    ∧ error r = Some ("Failed to fetch URL content: 'markdown' field not "
                      +:+ "found in data. Available fields: ['metadata']")
    ∧ error r ≠ Some "missing content field"
    ∧ py_in "missing content field" (default "" (error r)) = false.
Proof.
  do 2 eexists. split; [apply get_hn_content_example|].
  split_and!; [done|done|done|vm_compute; reflexivity].
Qed.

(** C7, amended: when the scrape service answers with a dictionary that
    has no 'data' entry, or whose 'data' entry is a dictionary that has no
    'markdown' entry, the result of [get_hn_content] has no article content
    and its error is "Failed to fetch URL content: " followed by the message
    of the scrape client, which names the missing entry; the command prints
    the discussion in full (all of [print_result], ending with the comments
    section, in which every line of every comment of the forest occurs) and
    exits with status 2. *)
Theorem missing_markdown_exit_2 w hn_url api_key compact hn url data :
  py_isdigit (cli_item_id hn_url) = true →
  parse_hn_comments w (cli_item_id hn_url) = Returned hn →
  story_url (story hn) = Some url →
  py_truthy url = true →
  String.prefix hn_site url = false →
  scrape_url w url api_key true (Some ["markdown"]) = Returned data →
  lacks_markdown data →
  ∃ msg,
    (msg = "'data' field not found in response. Response: " +:+ py_str data
     ∨ ∃ entries shown keys entries' shown' keys',
         data = JObject entries shown keys
         ∧ entries !! "data" = Some (JObject entries' shown' keys')
         ∧ msg = "'markdown' field not found in data. Available fields: " +:+ keys')
    ∧ get_markdown w data = Raised (FirecrawlError msg)
    ∧ let r := {| hn_comments := hn; url_content := JNull;
                  content_story_url := Some url;
                  error := Some ("Failed to fetch URL content: " +:+ msg) |} in
      let out := ["Fetching HN comments for item " +:+ cli_item_id hn_url +:+ "...";
                  "Fetching content from: " +:+ url] in
      get_hn_content w hn_url api_key = (out, Returned r)
      ∧ main w hn_url compact api_key
        = {| stdout := out ++ print_result r compact; stderr := []; exit_code := 2 |}
      ∧ (∃ head, print_result r compact = head ++ printed_comments compact (comments hn))
      ∧ ∀ top lvl d, top ∈ comments hn → (lvl, d) ∈ dict_nodes 0 top →
          Forall (λ line, line ∈ stdout (main w hn_url compact api_key))
                 (if compact then compact_block lvl d else verbose_block lvl d).
Proof.
  intros Hdigit Hparse Hurl Htruthy Hext Hscrape Hmissing.
  destruct (get_markdown_lacking w data Hmissing) as (msg & Hmsg & Hmd).
  exists msg. split_and!; [done..|]. intros r out.
  assert (get_hn_content w hn_url api_key = (out, Returned r)) as Hget.
  { unfold get_hn_content. fold (cli_item_id hn_url).
    rewrite Hdigit, Hparse, Hurl. simpl. rewrite Htruthy, Hext, Hscrape. simpl.
    by rewrite Hmd. }
  assert (main w hn_url compact api_key
          = {| stdout := out ++ print_result r compact; stderr := [];
               exit_code := 2 |}) as Hmain.
  { unfold main. by rewrite Hget. }
  assert (∃ head, print_result r compact
                  = head ++ printed_comments compact (comments hn)) as [head Hhead].
  { unfold print_result, printed_comments. destruct compact; simpl.
    + eexists. rewrite app_nil_r.
      change (?a :: ?b :: ?c :: ?d :: ?e :: ?f :: ?g :: ?x)
        with ([a; b; c; d; e; f; g] ++ x). reflexivity.
    + eexists. rewrite app_nil_r.
      change (?a :: ?b :: ?c :: ?d :: ?e :: ?f :: ?g :: ?h :: ?i :: ?j :: ?k
              :: ?l :: ?m :: ?n :: ?o :: ?x)
        with ([a; b; c; d; e; f; g; h; i; j; k; l; m; n; o] ++ x). reflexivity. }
  split_and!; [done|done|by exists head|].
  intros top lvl d Htop Hd. rewrite Hmain. cbn [stdout]. rewrite Hhead.
  eapply Forall_impl;
    [by apply (printed_comments_blocks compact (comments hn) top lvl d)|].
  cbv beta. intros line Hline. rewrite !elem_of_app. by right; right.
Qed.

Lemma missing_markdown_exit_2_witness :
  ∃ msg,
    get_markdown (fixed_world (Document linked_story scenario_rows) lost_article)
      (JObject {[ "success" := JBool true;
                  "data" := JObject {[ "metadata" := JObject ∅ "{}" "[]" ]}
                              "{'metadata': {}}" "['metadata']" ]}
         "{'success': True, 'data': {'metadata': {}}}" "['success', 'data']")
    = Raised (FirecrawlError msg)
    ∧ exit_code (main (fixed_world (Document linked_story scenario_rows) lost_article)
                      "1" true None) = 2.
Proof.
  destruct (missing_markdown_exit_2
              (fixed_world (Document linked_story scenario_rows) lost_article)
              "1" None true
              {| story := linked_story; comments := forest scenario_records;
                 total_comments := 1 |}
              "https://example.com/a"
              (JObject {[ "success" := JBool true;
                          "data" := JObject {[ "metadata" := JObject ∅ "{}" "[]" ]}
                                      "{'metadata': {}}" "['metadata']" ]}
                 "{'success': True, 'data': {'metadata': {}}}" "['success', 'data']"))
    as (msg & _ & Hmd & _ & Hmain & _);
    [reflexivity|reflexivity|reflexivity|reflexivity|reflexivity|reflexivity| |].
  - do 3 eexists. split; [reflexivity|]. right. do 3 eexists. split; reflexivity.
  - exists msg. split; [exact Hmd|]. by rewrite Hmain.
Defined.

(** The answers of the scrape service that C7, amended, leaves out.  When
    the 'data' entry is [null], [get_markdown] raises a [TypeError], which
    [get_hn_content] does not catch: the command prints no discussion and
    exits with status 1, while the tool of the server, which catches every
    exception, answers with a notice and the discussion.  When the
    'markdown' entry is [null], [get_markdown] returns [None]: the result
    has neither article content nor error, and the command exits with
    status 0. *)
Lemma malformed_answers :
  main (fixed_world (Document linked_story scenario_rows) null_data) "1" true None
  = {| stdout := ["Fetching HN comments for item 1...";
                  "Fetching content from: https://example.com/a"];
       stderr := ["Unexpected error: argument is not iterable";
                  "Traceback (most recent call last):"];
       exit_code := 1 |}
  ∧ article_content_of (fixed_world (Document linked_story scenario_rows) null_data)
      "https://example.com/a"
    = "[Unexpected error fetching article: argument is not iterable]"
  ∧ (∃ out r,
       get_hn_content (fixed_world (Document linked_story scenario_rows) null_markdown)
         "1" None = (out, Returned r)
       ∧ url_content r = JNull ∧ error r = None)
  ∧ exit_code (main (fixed_world (Document linked_story scenario_rows) null_markdown)
                    "1" true None) = 0
  ∧ article_content_of (fixed_world (Document linked_story scenario_rows) null_markdown)
      "https://example.com/a" = "None".
Proof.
  split_and!; try (vm_compute; reflexivity).
  do 2 eexists. split; [vm_compute; reflexivity|]. done.
Qed.

(** ** Tool-invocation boundary *)

(** C10: with the tool name "get_hn_content" and an "hn_url" argument,
    whatever string it is, [handle_call_tool] returns, and returns one text
    content.  When fetching or parsing the thread raises, the text is
    "Error: " followed by the message.  Otherwise it is the heading of the
    article section, the article section, a rule, the heading of the
    discussion and the rendered discussion, and the article section is: the
    notice "[No external article URL - this is a text post or Ask HN]" for a
    story without a link outside the forum; "[Error fetching article
    content: ...]" with the message when the scrape client raises its own
    error; "[Unexpected error fetching article: ...]" with the message when
    anything else is raised; and otherwise what [str] shows for the value
    the scrape client returned. *)
Theorem tool_call_never_raises w (args : gmap string string) hn_url :
  ∃ text,
    handle_call_tool w "get_hn_content" (Some (<["hn_url" := hn_url]> args))
      = Returned [ {| content_type := "text"; content_text := text |} ]
    ∧ match parse_hn_comments w (extract_item_id hn_url) with
      | Raised e => text = "Error: " +:+ str_of_exception e
      | Returned hn =>
          ∃ article,
            text = "# ARTICLE CONTENT" +:+ newline +:+ newline +:+ article
                   +:+ newline +:+ newline +:+ "---" +:+ newline +:+ newline
                   +:+ "# HACKER NEWS DISCUSSION" +:+ newline +:+ newline
                   +:+ format_hn_discussion hn
            ∧ (if py_truthy (default "" (story_url (story hn)))
                  && negb (String.prefix "https://news.ycombinator.com"
                             (default "" (story_url (story hn))))
               then
                 match (do data <- scrape_url w (default "" (story_url (story hn)))
                                     None true None;
                        get_markdown w data) with
                 | Returned v => article = py_str v
                 | Raised (FirecrawlError msg) =>
                     article = "[Error fetching article content: " +:+ msg +:+ "]"
                 | Raised e =>
                     article = "[Unexpected error fetching article: "
                               +:+ str_of_exception e +:+ "]"
                 end
               else
                 article = "[No external article URL - this is a text post or Ask HN]")
      end.
Proof.
  unfold handle_call_tool. simpl. rewrite lookup_insert_eq.
  destruct (parse_hn_comments w (extract_item_id hn_url)) as [hn|e].
  - eexists. split; [done|]. eexists. split; [reflexivity|].
    unfold article_content_of, hn_site.
    destruct (py_truthy _ && negb _); [|done].
    by destruct (rbind _ _) as [v|[]].
  - eexists. by split.
Qed.

(** * Further properties of the code *)

(** ** The tree builder *)

(** X1: a record of depth 0 starts the builder afresh.  The forest of an
    input is the forest of what comes before such a record followed by the
    forest of the record and what comes after it: nothing placed before a
    top-level comment can receive a reply placed after it. *)
Theorem forest_splits_at_root recs1 c recs2 :
  indent_level c = 0 →
  forest (recs1 ++ c :: recs2) = forest recs1 ++ forest (c :: recs2).
Proof. apply forest_split_at_root. Qed.

Lemma forest_splits_at_root_witness :
  forest (scenario_records ++ CommentFields "5" "eve" "now" "again" 0
                              :: [CommentFields "6" "fay" "now" "too" 1])
  = forest scenario_records
    ++ forest (CommentFields "5" "eve" "now" "again" 0
               :: [CommentFields "6" "fay" "now" "too" 1]).
Proof.
  exact (forest_splits_at_root scenario_records
           (CommentFields "5" "eve" "now" "again" 0)
           [CommentFields "6" "fay" "now" "too" 1] eq_refl).
Defined.

(** X2: the top-level list the builder returns holds exactly the records
    of depth 0, in the order of the input, whatever the other depths are;
    [build_nested_structure] returns them for every list of rows that can
    be read. *)
Theorem roots_are_the_depth_0_records :
  (∀ recs, dict_fields <$> forest recs = top_level recs)
  ∧ (∀ rows recs, extract_records rows = Returned recs →
       ∃ f, build_nested_structure rows = Returned f
            ∧ dict_fields <$> f = filter (λ c, indent_level c = 0) recs).
Proof.
  split; [apply forest_roots_top_level|].
  intros rows recs Hrows. exists (forest recs).
  rewrite build_nested_structure_records, Hrows. split; [done|].
  apply forest_roots_top_level.
Qed.

(** X3: the builder looks at the depths only.  Changing the other
    entries of the records (identifier, author, time, text) changes the same
    entries in the forest and nothing else: the shape of the forest is a
    function of the sequence of depths. *)
Theorem forest_shape_from_depths (f : comment_fields → comment_fields) recs :
  (∀ c, indent_level (f c) = indent_level c) →
  forest (f <$> recs) = dict_map f <$> forest recs.
Proof.
  intros Hf. unfold forest, build_records.
  rewrite <- forest_of_builder_map, <- foldl_place_builder_map by done.
  done.
Qed.

Lemma forest_shape_from_depths_witness :
  forest (redact <$> scenario_records) = dict_map redact <$> forest scenario_records.
Proof.
  exact (forest_shape_from_depths redact scenario_records (λ c, eq_refl)).
Defined.

(** X4: the replies of a top-level comment are a forest of their own.
    When a record of depth 0 is followed by records that, one level up, have
    stepwise depths starting at 0, the builder returns one root whose
    replies are the forest of those records one level up, put back one
    level down. *)
Theorem replies_are_the_forest_below c recs :
  indent_level c = 0 → stepwise (-1) recs →
  forest (c :: (deeper <$> recs))
  = [CommentDict c (dict_map deeper <$> forest recs)].
Proof. apply forest_under_root. Qed.

Lemma replies_are_the_forest_below_witness :
  forest (CommentFields "0" "zed" "now" "top" 0 :: (deeper <$> scenario_records))
  = [CommentDict (CommentFields "0" "zed" "now" "top" 0)
       (dict_map deeper <$> forest scenario_records)].
Proof.
  apply (replies_are_the_forest_below (CommentFields "0" "zed" "now" "top" 0)
           scenario_records); [reflexivity|simpl; lia].
Defined.

(** X5: the forest lists the page.  When the first depth is 0 and every
    depth is non-negative and exceeds the depth before by at most one, the
    comments of the forest in pre-order (a comment, then its replies in
    order, each with its own replies) are the records of the input in the
    order of the input, and the nesting depth of each is the depth of its
    record. *)
Theorem preorder_is_page_order recs :
  stepwise (-1) recs →
  node_record <$> flat_map (dict_nodes 0) (forest recs)
  = (λ c, (indent_level c, c)) <$> recs.
Proof. by apply (forest_preorder_bounded (length recs)). Qed.

Lemma preorder_is_page_order_witness :
  node_record <$> flat_map (dict_nodes 0) (forest scenario_records)
  = (λ c, (indent_level c, c)) <$> scenario_records.
Proof. exact (preorder_is_page_order scenario_records scenario_stepwise). Defined.

(** X6: [build_nested_structure] raises exactly when some row has a
    width that is not an integer, and then it raises the [ValueError] of the
    first such row; the rows after it are not looked at. *)
Theorem first_unreadable_row_raises rows e :
  build_nested_structure rows = Raised e
  ↔ ∃ i r msg, rows !! i = Some r ∧ bad_width r msg ∧ e = ValueError msg
               ∧ ∀ j r', (j < i)%nat → rows !! j = Some r' → ∀ m, ¬ bad_width r' m.
Proof.
  rewrite <- extract_records_raised, build_nested_structure_records.
  destruct (extract_records rows); simpl; split; try done; by intros [= ->].
Qed.

(** ** The renderers *)

(** X8: every line that [print_comment_llm] and [print_comment] print for
    a comment rendered at nesting depth [n], its replies at all depths
    included, starts with [n] times two spaces. *)
Theorem rendered_lines_are_indented n d :
  Forall (λ line, String.prefix (py_repeat "  " n) line = true) (print_comment_llm n d)
  ∧ Forall (λ line, String.prefix (py_repeat "  " n) line = true) (print_comment n d).
Proof. split; [apply print_comment_llm_indented|apply print_comment_indented]. Qed.

(** X9: the verbose rendering of a comment is, for the comment and then
    its replies in pre-order, one block each: a rule, the author, the time,
    the identifier, the text line by line two spaces further in, and the
    number of replies when there are some. *)
Theorem verbose_rendering lvl d :
  print_comment lvl d = flat_map (λ ln, verbose_block ln.1 ln.2) (dict_nodes lvl d).
Proof. apply print_comment_blocks. Qed.

(** X10: the rendering of the server keeps the text of a comment as it
    is.  For a top-level comment without replies, [format_comment_llm]
    returns the header line, a newline and the text, character for
    character, whatever line breaks the text has. *)
Theorem compact_rendering_keeps_text c :
  format_comment_llm 0 (CommentDict c [])
  = llm_header 0 c +:+ newline +:+ text c.
Proof. apply format_comment_llm_leaf. Qed.

(** X11: the discussion in the answer of the server's tool is the compact
    output of the command line, joined by newlines, for a result without
    article content and without warning. *)
Theorem server_discussion_is_compact_output hn :
  format_hn_discussion hn = py_join newline (print_result (discussion_only hn) true).
Proof.
  rewrite format_hn_discussion_lines. unfold print_result, discussion_only. simpl.
  by rewrite app_nil_r.
Qed.

(** ** The command of [cli.py] *)

(** X12: an argument of ASCII characters whose item identifier is not a
    non-empty string of digits is rejected before anything is fetched:
    whatever the network does, the command prints nothing on standard
    output, one line naming the identifier on standard error, and exits with
    status 1.  (On other arguments Python strips more white space and
    accepts more digits than the ASCII ones.) *)
Theorem invalid_item_id_is_rejected w hn_url compact api_key :
  is_ascii hn_url = true →
  py_isdigit (cli_item_id hn_url) = false →
  main w hn_url compact api_key
  = {| stdout := [];
       stderr := ["Error: Invalid HN item ID: " +:+ cli_item_id hn_url];
       exit_code := 1 |}.
Proof.
  intros _ H. unfold main, get_hn_content. fold (cli_item_id hn_url). by rewrite H.
Qed.

Lemma invalid_item_id_is_rejected_witness :
  main (fixed_world (Document linked_story scenario_rows) found_article)
       "https://news.ycombinator.com/item?id=12a&p=2" true None
  = {| stdout := [];
       stderr := ["Error: Invalid HN item ID: "
                  +:+ cli_item_id "https://news.ycombinator.com/item?id=12a&p=2"];
       exit_code := 1 |}.
Proof.
  apply (invalid_item_id_is_rejected
           (fixed_world (Document linked_story scenario_rows) found_article)
           "https://news.ycombinator.com/item?id=12a&p=2" true None);
    vm_compute; reflexivity.
Defined.

(** X13: the exit status of the command tells the three outcomes apart.
    It is 0 exactly when [get_hn_content] returns a result without error
    entry, whose article content is then what the scrape client returned for
    the story's link; 2 exactly when it returns a result with an error
    entry, which then has no article content; and 1 exactly when it raises.
    Nothing goes to standard error unless the status is 1. *)
Theorem main_exit_status w hn_url compact api_key :
  (exit_code (main w hn_url compact api_key) = 0
   ↔ ∃ out r, get_hn_content w hn_url api_key = (out, Returned r)
              ∧ error r = None
              ∧ (do data <- scrape_url w (default "" (story_url (story (hn_comments r))))
                              api_key true (Some ["markdown"]);
                 get_markdown w data) = Returned (url_content r))
  ∧ (exit_code (main w hn_url compact api_key) = 2
     ↔ ∃ out r msg, get_hn_content w hn_url api_key = (out, Returned r)
                    ∧ url_content r = JNull ∧ error r = Some msg)
  ∧ (exit_code (main w hn_url compact api_key) = 1
     ↔ ∃ out e, get_hn_content w hn_url api_key = (out, Raised e))
  ∧ (stderr (main w hn_url compact api_key) = []
     ↔ exit_code (main w hn_url compact api_key) ≠ 1).
Proof.
  unfold main. destruct (get_hn_content w hn_url api_key) as [out [r|e]] eqn:Hg.
  - destruct (get_hn_content_shape _ _ _ _ _ Hg)
      as [[Herr Hmd]|(Hno & msg & Herr & Ht)].
    + rewrite Herr. simpl. split_and!; naive_solver.
    + rewrite Herr. simpl. rewrite Ht. simpl. split_and!; naive_solver.
  - destruct e; simpl; split_and!; naive_solver.
Qed.

(** X14: a story without a link, or whose link points to Hacker News
    itself, needs no scrape service.  With the same thread document the
    command returns the same result and prints the same lines whatever the
    scrape service, the environment and the key are, it exits with status 2,
    and the server puts its notice in place of the article. *)
Theorem skipped_article_is_offline w w' hn_url compact api_key api_key' hn :
  (∀ i, fetch_thread w' i = fetch_thread w i) →
  py_isdigit (cli_item_id hn_url) = true →
  parse_hn_comments w (cli_item_id hn_url) = Returned hn →
  py_truthy (default "" (story_url (story hn))) = false
  ∨ String.prefix hn_site (default "" (story_url (story hn))) = true →
  get_hn_content w' hn_url api_key' = get_hn_content w hn_url api_key
  ∧ exit_code (main w hn_url compact api_key) = 2
  ∧ article_content_of w' (default "" (story_url (story hn))) = no_article_notice.
Proof.
  intros Hsame Hdigit Hparse Hskip.
  assert (parse_hn_comments w' (cli_item_id hn_url) = Returned hn) as Hparse'
    by (by rewrite (parse_hn_comments_same_thread w w')).
  unfold main, get_hn_content, article_content_of. fold (cli_item_id hn_url).
  rewrite Hdigit, Hparse, Hparse'. simpl.
  destruct (py_truthy (default "" (story_url (story hn)))) eqn:Ht; simpl; [|done].
  destruct Hskip as [? | ->]; done.
Qed.

Lemma skipped_article_is_offline_witness :
  get_hn_content (fixed_world (Document text_post reply_rows) found_article) "1" (Some "k")
  = get_hn_content (fixed_world (Document text_post reply_rows) PostTimeout) "1" None
  ∧ exit_code (main (fixed_world (Document text_post reply_rows) PostTimeout)
                    "1" true None) = 2.
Proof.
  destruct (skipped_article_is_offline
              (fixed_world (Document text_post reply_rows) PostTimeout)
              (fixed_world (Document text_post reply_rows) found_article)
              "1" true None (Some "k")
              {| story := text_post; comments := forest (firstn 2 scenario_records);
                 total_comments := 1 |})
    as (Hsame & Hexit & _).
  - reflexivity.
  - reflexivity.
  - vm_compute. reflexivity.
  - left. reflexivity.
  - split; [exact Hsame|exact Hexit].
Defined.

(** X15: the address of an item and its identifier are the same
    argument.  For an identifier of digits, the address
    [https://news.ycombinator.com/item?id=<id>], alone or followed by
    further query parameters, whatever they are, gives the command, the tool
    of the server and the command of the parser the behaviour the bare
    identifier gives them. *)
Theorem address_and_identifier_agree w id rest :
  py_isdigit id = true →
  rest = "" ∨ (∃ r, rest = "&" +:+ r) →
  extract_item_id (item_url (id +:+ rest)) = id
  ∧ (∀ api_key, get_hn_content w (item_url (id +:+ rest)) api_key
                = get_hn_content w id api_key)
  ∧ (∀ compact api_key, main w (item_url (id +:+ rest)) compact api_key
                        = main w id compact api_key)
  ∧ (∀ args : gmap string string,
       handle_call_tool w "get_hn_content"
         (Some (<["hn_url" := item_url (id +:+ rest)]> args))
       = handle_call_tool w "get_hn_content" (Some (<["hn_url" := id]> args)))
  ∧ (∀ llm, parser_main w (item_url (id +:+ rest)) llm = parser_main w id llm).
Proof.
  intros Hid Hamp.
  pose proof (extract_item_id_item_url id rest Hid Hamp) as Hx.
  pose proof (extract_item_id_digits id Hid) as Hx'.
  assert (cli_item_id (item_url (id +:+ rest)) = cli_item_id id) as Hc
    by (by rewrite cli_item_id_item_url, cli_item_id_digits).
  split_and!.
  - done.
  - intros api_key. by apply get_hn_content_item_id.
  - intros compact api_key. unfold main.
    by rewrite (get_hn_content_item_id w _ id api_key Hc).
  - intros args. unfold handle_call_tool. simpl.
    by rewrite !lookup_insert_eq, Hx, Hx'.
  - intros llm. unfold parser_main.
    fold (extract_item_id (item_url (id +:+ rest))). fold (extract_item_id id).
    by rewrite Hx, Hx'.
Qed.

Lemma address_and_identifier_agree_witness :
  extract_item_id "https://news.ycombinator.com/item?id=12&q=item?id=99&p=2" = "12".
Proof.
  apply (address_and_identifier_agree
           (fixed_world (Document text_post reply_rows) PostTimeout)
           "12" "&q=item?id=99&p=2").
  - reflexivity.
  - right. by exists "q=item?id=99&p=2".
Defined.

(** X16: a thread with a row that cannot be read ends the command with
    status 1.  The [ValueError] of the integer conversion leaves
    [get_hn_content] and is reported like an invalid identifier: after the
    first progress line on standard output, one line "Error: " with the
    message of the conversion on standard error. *)
Theorem unreadable_thread_exit_1 w hn_url compact api_key doc e :
  py_isdigit (cli_item_id hn_url) = true →
  fetch_thread w (cli_item_id hn_url) = Returned doc →
  build_nested_structure (doc_rows doc) = Raised e →
  ∃ msg, e = ValueError msg
    ∧ get_hn_content w hn_url api_key
      = (["Fetching HN comments for item " +:+ cli_item_id hn_url +:+ "..."],
         Raised (ValueError msg))
    ∧ main w hn_url compact api_key
      = {| stdout := ["Fetching HN comments for item " +:+ cli_item_id hn_url +:+ "..."];
           stderr := ["Error: " +:+ msg];
           exit_code := 1 |}.
Proof.
  intros Hdigit Hdoc Hraise%build_nested_structure_raised.
  destruct (proj1 (extract_records_raised _ _) Hraise) as (i & r & msg & _ & _ & -> & _).
  exists msg. split; [done|].
  assert (get_hn_content w hn_url api_key
          = (["Fetching HN comments for item " +:+ cli_item_id hn_url +:+ "..."],
             Raised (ValueError msg))) as Hget.
  { unfold get_hn_content. fold (cli_item_id hn_url).
    by rewrite Hdigit, parse_hn_comments_records, Hdoc; simpl; rewrite Hraise. }
  split; [done|]. unfold main. by rewrite Hget.
Qed.

Lemma unreadable_thread_exit_1_witness :
  ∃ msg,
    main (fixed_world (Document linked_story unreadable_rows) found_article) "1" false None
    = {| stdout := ["Fetching HN comments for item " +:+ cli_item_id "1" +:+ "..."];
         stderr := ["Error: " +:+ msg];
         exit_code := 1 |}.
Proof.
  destruct (unreadable_thread_exit_1
              (fixed_world (Document linked_story unreadable_rows) found_article)
              "1" false None (Document linked_story unreadable_rows)
              (ValueError "invalid literal for int() with base 10: 'wide'"))
    as (msg & _ & _ & Hmain); [reflexivity..|].
  by exists msg.
Defined.

(** ** The scrape client *)

(** X17: [scrape_url] followed by [get_markdown] returns a value exactly
    when a non-empty key is there (the argument, or the environment when no
    argument is given), the service answers the request made of the target,
    the key, the options and the fixed cache age, parser list and timeout
    with a JSON dictionary, and that dictionary has a 'data' entry that is a
    dictionary with a 'markdown' entry, which is the value returned. *)
Theorem markdown_returned_iff w url api_key only_main_content formats v :
  (do data <- scrape_url w url api_key only_main_content formats; get_markdown w data)
  = Returned v
  ↔ ∃ key entries shown keys entries' shown' keys',
      effective_key w api_key = Some key ∧ key ≠ ""
      ∧ post_scrape w (request_for url key only_main_content formats)
        = PostOk (JObject entries shown keys)
      ∧ entries !! "data" = Some (JObject entries' shown' keys')
      ∧ entries' !! "markdown" = Some v.
Proof. apply scrape_markdown_returned. Qed.

(** ** The server *)

(** X18: the tool of the server raises exactly on the calls that do not
    fit what [handle_list_tools] announces: a name that is not the name of
    the listed tool, or a call without one of its required arguments.  Every
    other call returns. *)
Theorem tool_call_raises_iff_malformed w name arguments :
  (∃ e, handle_call_tool w name arguments = Raised e)
  ↔ ¬ well_formed_call name arguments.
Proof.
  unfold handle_call_tool, well_formed_call, handle_list_tools.
  destruct (String.eqb_spec name "get_hn_content") as [->|Hname]; simpl.
  - destruct (arguments ≫= (λ args, args !! "hn_url")) as [hn_url|] eqn:Harg.
    + split.
      * intros [e He]. by destruct (parse_hn_comments w (extract_item_id hn_url)).
      * intros Hnot. destruct Hnot. eexists. split; [by apply list_elem_of_singleton|].
        split; [done|]. simpl. intros a ->%list_elem_of_singleton. by rewrite Harg.
    + split; [|by eauto]. intros _ (t & ->%list_elem_of_singleton & _ & Hreq).
      simpl in Hreq. destruct (Hreq "hn_url") as [v Hv]; [by apply list_elem_of_singleton|].
      congruence.
  - split; [|by eauto]. intros _ (t & ->%list_elem_of_singleton & Heq & _).
    simpl in Heq. congruence.
Qed.

(** ** The command of [parse_hn_comments.py] *)

(** X19: with [--llm], the command of the parser prints what the command
    of [cli.py] prints in compact form for a result without article content
    and without warning, and so, joined by newlines, the discussion of the
    server's answer; it exits with status 0. *)
Theorem parser_llm_output w arg hn :
  parse_hn_comments w (extract_item_id arg) = Returned hn →
  parser_main w arg true
  = {| stdout := print_result (discussion_only hn) true; stderr := []; exit_code := 0 |}
  ∧ py_join newline (stdout (parser_main w arg true)) = format_hn_discussion hn.
Proof.
  intros Hparse.
  assert (parser_main w arg true
          = {| stdout := print_result (discussion_only hn) true;
               stderr := []; exit_code := 0 |}) as Hmain.
  { unfold parser_main. fold (extract_item_id arg). rewrite Hparse.
    unfold print_result, discussion_only. simpl. by rewrite app_nil_r. }
  split; [done|]. rewrite Hmain. simpl stdout.
  rewrite format_hn_discussion_lines. unfold print_result, discussion_only. simpl.
  by rewrite app_nil_r.
Qed.

Lemma parser_llm_output_witness :
  exit_code (parser_main (fixed_world (Document text_post reply_rows) PostTimeout)
                         "1" true) = 0.
Proof.
  destruct (parser_llm_output
              (fixed_world (Document text_post reply_rows) PostTimeout) "1"
              {| story := text_post; comments := forest (firstn 2 scenario_records);
                 total_comments := 1 |}) as [Hmain _].
  - vm_compute. reflexivity.
  - by rewrite Hmain.
Defined.

(** X20: the command of the parser exits with status 0 exactly when
    fetching and parsing the thread return, and with status 1 exactly when
    they raise.  Its error message goes to standard output, as the last
    line; standard error gets the traceback, and only for an exception that
    is not a request exception. *)
Theorem parser_main_exit_status w arg llm :
  (exit_code (parser_main w arg llm) = 0
   ↔ ∃ hn, parse_hn_comments w (extract_item_id arg) = Returned hn)
  ∧ (exit_code (parser_main w arg llm) = 1
     ↔ ∃ e, parse_hn_comments w (extract_item_id arg) = Raised e)
  ∧ (∀ e, parse_hn_comments w (extract_item_id arg) = Raised e →
       (∃ label, label ∈ ["Error fetching Hacker News item: "; "Error parsing comments: "]
                 ∧ last (stdout (parser_main w arg llm))
                   = Some (label +:+ str_of_exception e))
       ∧ (stderr (parser_main w arg llm) = [] ↔ ∃ m, e = RequestException m)).
Proof.
  unfold parser_main. fold (extract_item_id arg).
  destruct (parse_hn_comments w (extract_item_id arg)) as [hn|e]; simpl.
  - split_and!; [split; [by eauto|done]|split; [done|by intros [? ?]]|done].
  - assert (∀ (l : list string) x, last (l ++ [x]) = Some x) as Hlast
      by (intros; apply last_snoc).
    split_and!.
    + destruct e; (split; [done|by intros [? ?]]).
    + destruct e; (split; [by eauto|done]).
    + intros e' [= <-]. destruct e; simpl; rewrite Hlast; split;
        try (eexists; split; [|reflexivity]; set_solver);
        split; try done; try (by intros [? ?]); by eauto.
Qed.

(** ** The article, in the command and in the server *)

(** X21: the command at its best.  When the identifier is valid, the
    thread parses, the story links outside Hacker News, a non-empty key is
    there and the scrape service answers with a dictionary whose 'data'
    entry is a dictionary with a 'markdown' entry, [get_hn_content] prints
    its two progress lines and returns the discussion with that entry as
    article content and no error entry; the command prints the result, with
    the text of the entry in it when the entry is not empty, nothing on
    standard error, and exits with status 0. *)
Theorem article_fetched_exit_0 w hn_url compact api_key hn url key
    entries shown keys entries' shown' keys' v :
  py_isdigit (cli_item_id hn_url) = true →
  parse_hn_comments w (cli_item_id hn_url) = Returned hn →
  story_url (story hn) = Some url →
  py_truthy url = true →
  String.prefix hn_site url = false →
  effective_key w api_key = Some key →
  key ≠ "" →
  post_scrape w (request_for url key true (Some ["markdown"]))
    = PostOk (JObject entries shown keys) →
  entries !! "data" = Some (JObject entries' shown' keys') →
  entries' !! "markdown" = Some v →
  let r := {| hn_comments := hn; url_content := v;
              content_story_url := Some url; error := None |} in
  let out := ["Fetching HN comments for item " +:+ cli_item_id hn_url +:+ "...";
              "Fetching content from: " +:+ url] in
  get_hn_content w hn_url api_key = (out, Returned r)
  ∧ main w hn_url compact api_key
    = {| stdout := out ++ print_result r compact; stderr := []; exit_code := 0 |}
  ∧ (json_truthy v = true → py_str v ∈ print_result r compact).
Proof.
  intros Hdigit Hparse Hurl Htruthy Hext Hkey Hne Hpost Hd Hmd r out.
  assert ((do data <- scrape_url w url api_key true (Some ["markdown"]);
           get_markdown w data) = Returned v) as Hs.
  { apply scrape_markdown_returned. by eauto 12. }
  assert (get_hn_content w hn_url api_key = (out, Returned r)) as Hget.
  { unfold get_hn_content. fold (cli_item_id hn_url).
    rewrite Hdigit, Hparse, Hurl. simpl. rewrite Htruthy, Hext. simpl.
    by rewrite Hs. }
  split_and!; [done| |].
  - unfold main. by rewrite Hget.
  - intros Hv. unfold print_result, r. cbn [url_content]. rewrite Hv.
    destruct compact; rewrite !elem_of_app; right; rewrite !elem_of_cons; by eauto 10.
Qed.

Lemma article_fetched_exit_0_witness :
  main (fixed_world (Document linked_story scenario_rows) found_article) "1" true None
  = {| stdout :=
         ["Fetching HN comments for item " +:+ cli_item_id "1" +:+ "...";
          "Fetching content from: " +:+ "https://example.com/a"]
         ++ print_result
              {| hn_comments := {| story := linked_story;
                                   comments := forest scenario_records;
                                   total_comments := 1 |};
                 url_content := JString "# A thing";
                 content_story_url := Some "https://example.com/a";
                 error := None |} true;
       stderr := []; exit_code := 0 |}.
Proof.
  destruct (article_fetched_exit_0
              (fixed_world (Document linked_story scenario_rows) found_article)
              "1" true None
              {| story := linked_story; comments := forest scenario_records;
                 total_comments := 1 |}
              "https://example.com/a" "fc-key"
              {[ "success" := JBool true;
                 "data" := JObject {[ "markdown" := JString "# A thing" ]}
                             "{'markdown': '# A thing'}" "['markdown']" ]}
              "{'success': True, 'data': {'markdown': '# A thing'}}"
              "['success', 'data']"
              {[ "markdown" := JString "# A thing" ]}
              "{'markdown': '# A thing'}" "['markdown']"
              (JString "# A thing"))
    as (_ & Hmain & _);
    [reflexivity|reflexivity|reflexivity|reflexivity|reflexivity|reflexivity
    |done|reflexivity|reflexivity|reflexivity|].
  exact Hmain.
Defined.
